(** * Neko Drive librarian: the transfer and storage engine

    A shallow embedding of the server routes
    [server/src/routes/upload.ts], [routes/files.ts], [routes/download.ts]
    and [routes/stream.ts] over the schema of [server/src/db/index.ts],
    together with the properties of the engine that are stated about them.

    The metadata index is a value of type [Db]; a handler is a function
    from the index (and the answers of the external store) to a reply,
    the new index and the background work it scheduled.  A handler that
    awaits the external store is cut at the await: the part before and
    the part after are separate functions, so that other requests can be
    placed between them. *)

From Stdlib Require Import ZArith Lia Ascii String.
From stdpp Require Import gmap strings list sorting pretty.

Local Open Scope string_scope.
Local Open Scope Z_scope.

(** ** JavaScript primitives used by the routes *)

Module JS.

(** A JavaScript number as the routes use it: an integer or [NaN]. *)
Inductive number :=
  | NaN
  | Int (z : Z).

(** [a === b]: [NaN] equals nothing. *)
Definition strict_eq (a b : number) : bool :=
  match a, b with Int x, Int y => x =? y | _, _ => false end.

(** [a + b], [a - b] and [Math.min(a, b)]: [NaN] is absorbing. *)
Definition add (a b : number) : number :=
  match a, b with Int x, Int y => Int (x + y) | _, _ => NaN end.

Definition sub (a b : number) : number :=
  match a, b with Int x, Int y => Int (x - y) | _, _ => NaN end.

Definition Math_min (a b : number) : number :=
  match a, b with Int x, Int y => Int (Z.min x y) | _, _ => NaN end.

(** [a < b] and [a >= b]: every comparison with [NaN] is false. *)
Definition lt (a b : number) : bool :=
  match a, b with Int x, Int y => x <? y | _, _ => false end.

Definition ge (a b : number) : bool :=
  match a, b with Int x, Int y => y <=? x | _, _ => false end.

(** [String(n)], as a template literal renders a number. *)
Definition toString (n : number) : string :=
  match n with NaN => "NaN" | Int z => pretty z end.

(** *** [parseInt] *)

Definition code (c : ascii) : Z := Z.of_nat (nat_of_ascii c).

Definition is_white_space (c : ascii) : bool :=
  (code c =? 32) || ((9 <=? code c) && (code c <=? 13)).

Fixpoint trim_start (s : string) : string :=
  match s with
  | String c s' => if is_white_space c then trim_start s' else s
  | EmptyString => EmptyString
  end.

Definition digit_value (c : ascii) : option Z :=
  let n := code c in
  if (48 <=? n) && (n <=? 57) then Some (n - 48)
  else if (97 <=? n) && (n <=? 122) then Some (n - 87)
  else if (65 <=? n) && (n <=? 90) then Some (n - 55)
  else None.

Definition radix_digit (R : Z) (c : ascii) : option Z :=
  match digit_value c with
  | Some d => if d <? R then Some d else None
  | None => None
  end.

(** The value of the longest prefix of [s] made of digits in radix [R],
    continuing from [acc]; [NaN] when there was no digit at all. *)
Fixpoint parse_digits (R : Z) (s : string) (acc : number) : number :=
  match s with
  | String c s' =>
      match radix_digit R c with
      | Some d =>
          parse_digits R s'
            (Int (match acc with Int a => a * R + d | NaN => d end))
      | None => acc
      end
  | EmptyString => acc
  end.

Definition strip_sign (s : string) : bool * string :=
  match s with
  | String c s' =>
      if Ascii.eqb c "-" then (true, s')
      else if Ascii.eqb c "+" then (false, s')
      else (false, s)
  | EmptyString => (false, s)
  end.

Definition strip_hex_prefix (s : string) : option string :=
  match s with
  | String c1 (String c2 s') =>
      if Ascii.eqb c1 "0" && (Ascii.eqb c2 "x" || Ascii.eqb c2 "X")
      then Some s' else None
  | _ => None
  end.

(** [parseInt(s, radix)]; [radix = None] is the call with one argument. *)
Definition parseInt (s : string) (radix : option Z) : number :=
  let '(neg, s1) := strip_sign (trim_start s) in
  let R0 := default 0 radix in
  if negb (R0 =? 0) && ((R0 <? 2) || (36 <? R0)) then NaN
  else
    let strip := (R0 =? 0) || (R0 =? 16) in
    let R1 := if R0 =? 0 then 10 else R0 in
    let '(R, s2) :=
      match (if strip then strip_hex_prefix s1 else None) with
      | Some s' => (16, s')
      | None => (R1, s1)
      end in
    match parse_digits R s2 NaN with
    | Int v => Int (if neg then - v else v)
    | NaN => NaN
    end.

(** *** Strings *)

Definition is_digit (c : ascii) : bool := (48 <=? code c) && (code c <=? 57).

(** The text is made of decimal digits. *)
Fixpoint is_digits (s : string) : bool :=
  match s with
  | String c s' => is_digit c && is_digits s'
  | EmptyString => true
  end.

(** [s.includes(sub)] *)
Fixpoint includes (s sub : string) : bool :=
  String.prefix sub s ||
  match s with
  | String _ s' => includes s' sub
  | EmptyString => false
  end.

(** [s.replace(pat, "")] for a pattern that is a literal text: the first
    occurrence is removed. *)
Fixpoint remove_first (pat s : string) : string :=
  if String.prefix pat s then
    String.substring (String.length pat)
                     (String.length s - String.length pat)%nat s
  else
    match s with
    | String c s' => String c (remove_first pat s')
    | EmptyString => EmptyString
    end.

(** [s.split(sep)] for a separator of one character. *)
Fixpoint split (sep : ascii) (s : string) : list string :=
  match s with
  | EmptyString => [EmptyString]
  | String c s' =>
      if Ascii.eqb c sep then EmptyString :: split sep s'
      else
        match split sep s' with
        | p :: ps => String c p :: ps
        | [] => [String c EmptyString]
        end
  end.

(** Truthiness of a value that is a string or [undefined]. *)
Definition truthy (s : option string) : bool :=
  match s with
  | Some (String _ _) => true
  | _ => false
  end.

(** [x || d] for [x] a string or [undefined]. *)
Definition or_else (x : option string) (d : string) : string :=
  match x with
  | Some (String a s) => String a s
  | _ => d
  end.

(** *** [new URL(url).searchParams.get(name)]

    The URL parser of the platform is not part of the repository.  It is
    modelled as far as the routes depend on it: a text without a scheme
    is rejected ([new URL] throws), the query is the text between the
    first [?] and the fragment, split at [&] and at the first [=] of each
    piece, with [+] and percent escapes decoded. *)

Definition is_alpha (c : ascii) : bool :=
  let n := code c in
  ((97 <=? n) && (n <=? 122)) || ((65 <=? n) && (n <=? 90)).

Definition is_scheme_char (c : ascii) : bool :=
  let n := code c in
  is_alpha c || ((48 <=? n) && (n <=? 57))
  || (n =? 43) || (n =? 45) || (n =? 46).

Fixpoint scheme_rest (s : string) : bool :=
  match s with
  | String c s' =>
      if Ascii.eqb c ":" then true
      else if is_scheme_char c then scheme_rest s' else false
  | EmptyString => false
  end.

Definition has_scheme (s : string) : bool :=
  match s with
  | String c s' => is_alpha c && scheme_rest s'
  | EmptyString => false
  end.

(** The text before the first [c]. *)
Fixpoint before (c : ascii) (s : string) : string :=
  match s with
  | String a s' => if Ascii.eqb a c then EmptyString else String a (before c s')
  | EmptyString => EmptyString
  end.

(** The text after the first [c], when there is one. *)
Fixpoint after (c : ascii) (s : string) : option string :=
  match s with
  | String a s' => if Ascii.eqb a c then Some s' else after c s'
  | EmptyString => None
  end.

Definition hex_value (c : ascii) : option Z := radix_digit 16 c.

Fixpoint percent_decode (s : string) : string :=
  match s with
  | EmptyString => EmptyString
  | String c rest =>
      if Ascii.eqb c "+" then String " " (percent_decode rest)
      else if Ascii.eqb c "%" then
        match rest with
        | String h (String l s') =>
            match hex_value h, hex_value l with
            | Some a, Some b =>
                String (ascii_of_nat (Z.to_nat (a * 16 + b)))
                       (percent_decode s')
            | _, _ => String c (percent_decode rest)
            end
        | _ => String c (percent_decode rest)
        end
      else String c (percent_decode rest)
  end.

(** One piece [name=value] of a query, decoded. *)
Definition query_pair (piece : string) : string * string :=
  (percent_decode (before "=" piece),
   percent_decode (default EmptyString (after "=" piece))).

Definition query_pairs (url : string) : list (string * string) :=
  match after "?" (before "#" url) with
  | Some q =>
      map query_pair
          (filter (fun p => p <> EmptyString) (split "&" q))
  | None => []
  end.

Fixpoint assoc (name : string) (l : list (string * string)) : option string :=
  match l with
  | (k, v) :: l' => if String.eqb k name then Some v else assoc name l'
  | [] => None
  end.

(** [None] when [new URL(url)] throws; otherwise the value of the first
    parameter called [name], or [null]. *)
Definition URL_searchParams_get (url name : string) : option (option string) :=
  if has_scheme url then Some (assoc name (query_pairs url)) else None.

End JS.

(** ** The metadata index ([db/index.ts]) *)

(** A row of [files] without its primary key [id]: the table is a map
    from [id] to the other columns. *)
Module File.

Inductive Status :=
  | pending
  | active
  | trashed.

Record row := {
  name : string;
  size : Z;
  type : option string;
  iv : string;
  salt : string;
  status : Status;
  created_at : Z
}.

End File.

(** A row of [chunks]. *)
Module Chunk.

Record row := {
  id : Z;
  file_id : string;
  idx : Z;
  message_id : string;
  channel_id : string;
  size : Z;
  url : option string
}.

End Chunk.

Global Instance status_eq_dec : EqDecision File.Status.
Proof. solve_decision. Defined.

Module Db.

(** [files] has [id TEXT PRIMARY KEY]; [chunks] has an autoincremented
    [id] and no uniqueness constraint on [(file_id, idx)], so it is the
    list of its rows in insertion order; [seq] is the last [id] given. *)
Record t := {
  files : gmap string File.row;
  chunks : list Chunk.row;
  seq : Z
}.

Definition empty : t := {| files := ∅; chunks := []; seq := 0 |}.

(** [SELECT ... FROM files WHERE id = ?] *)
Definition get_file (db : t) (id : string) : option File.row :=
  files db !! id.

(** [SELECT 1 FROM files WHERE id = ? AND status = 'pending'] *)
Definition is_pending (db : t) (id : string) : bool :=
  match files db !! id with
  | Some r => bool_decide (File.status r = File.pending)
  | None => false
  end.

(** [SELECT ... FROM chunks WHERE file_id = ?] *)
Definition chunks_of (db : t) (fileId : string) : list Chunk.row :=
  filter (fun c => Chunk.file_id c = fileId) (chunks db).

Definition at_index (fileId : string) (i : Z) (c : Chunk.row) : Prop :=
  Chunk.file_id c = fileId /\ Chunk.idx c = i.

Global Instance at_index_dec fileId i c : Decision (at_index fileId i c).
Proof. unfold at_index. apply _. Defined.

(** [SELECT ... FROM chunks WHERE file_id = ? AND idx = ?] *)
Definition chunks_at (db : t) (fileId : string) (i : Z) : list Chunk.row :=
  filter (at_index fileId i) (chunks db).

Definition idx_le (a b : Chunk.row) : Prop := Chunk.idx a <= Chunk.idx b.

Definition idx_lt (a b : Chunk.row) : Prop := Chunk.idx a < Chunk.idx b.

Global Instance idx_le_dec : RelDecision idx_le.
Proof. intros a b; unfold idx_le; apply _. Defined.

(** [SELECT ... FROM chunks WHERE file_id = ? ORDER BY idx ASC] *)
Definition chunks_ordered (db : t) (fileId : string) : list Chunk.row :=
  merge_sort idx_le (chunks_of db fileId).

(** [DELETE FROM files WHERE <P>].  The schema declares
    [FOREIGN KEY(file_id) REFERENCES files(id) ON DELETE CASCADE], but
    the connection is opened with [PRAGMA journal_mode = WAL] only and
    never sets [PRAGMA foreign_keys], which SQLite leaves off: the
    foreign key is not enforced, and a delete from [files] leaves the
    rows of [chunks] as they are. *)
Definition delete_files (P : string -> File.row -> bool) (db : t) : t :=
  {| files := filter (fun kv => P kv.1 kv.2 = false) (files db);
     chunks := chunks db;
     seq := seq db |}.

(** [DELETE FROM chunks WHERE <P>] *)
Definition delete_chunks (P : Chunk.row -> bool) (db : t) : t :=
  {| files := files db;
     chunks := filter (fun c => P c = false) (chunks db);
     seq := seq db |}.

(** [INSERT INTO files ...]: fails on a taken primary key. *)
Definition insert_file (id : string) (r : File.row) (db : t) : option t :=
  match files db !! id with
  | Some _ => None
  | None =>
      Some {| files := <[id := r]> (files db);
              chunks := chunks db;
              seq := seq db |}
  end.

(** The row that an insert into [chunks] adds: [id] is the next of the
    sequence. *)
Definition new_chunk (fileId : string) (i : Z) (messageId channelId : string)
    (sz : Z) (u : option string) (db : t) : Chunk.row :=
  {| Chunk.id := seq db + 1;
     Chunk.file_id := fileId;
     Chunk.idx := i;
     Chunk.message_id := messageId;
     Chunk.channel_id := channelId;
     Chunk.size := sz;
     Chunk.url := u |}.

(** [INSERT INTO chunks (file_id, idx, message_id, channel_id, size, url)]
    with an integer [idx]: no constraint of the table fails, the
    foreign key being not enforced. *)
Definition insert_chunk (fileId : string) (i : Z) (messageId channelId : string)
    (sz : Z) (u : option string) (db : t) : t :=
  {| files := files db;
     chunks := chunks db ++ [new_chunk fileId i messageId channelId sz u db];
     seq := seq db + 1 |}.

Definition with_status (st : File.Status) (r : File.row) : File.row :=
  {| File.name := File.name r;
     File.size := File.size r;
     File.type := File.type r;
     File.iv := File.iv r;
     File.salt := File.salt r;
     File.status := st;
     File.created_at := File.created_at r |}.

(** [UPDATE files SET status = ? WHERE id = ?] *)
Definition set_status (id : string) (st : File.Status) (db : t) : t :=
  {| files := alter (with_status st) id (files db);
     chunks := chunks db;
     seq := seq db |}.

Definition with_url (u : option string) (c : Chunk.row) : Chunk.row :=
  {| Chunk.id := Chunk.id c;
     Chunk.file_id := Chunk.file_id c;
     Chunk.idx := Chunk.idx c;
     Chunk.message_id := Chunk.message_id c;
     Chunk.channel_id := Chunk.channel_id c;
     Chunk.size := Chunk.size c;
     Chunk.url := u |}.

(** [UPDATE chunks SET url = ? WHERE message_id = ?] *)
Definition set_url (messageId : string) (u : option string) (db : t) : t :=
  {| files := files db;
     chunks :=
       map (fun c =>
              if decide (Chunk.message_id c = messageId) then with_url u c
              else c) (chunks db);
     seq := seq db |}.

(** [(fileId, idx)] names at most one chunk row. *)
Definition unique_idx (db : t) : Prop :=
  forall fileId i, (length (chunks_at db fileId i) <= 1)%nat.

End Db.

(** ** Replies and background work *)

(** Work that a handler starts and does not wait for. *)
Inductive Task :=
  | bulkDeleteFromDiscord (messageIds : list string)
  | backupDatabase.

(** The [data] of [apiResponse.success]. *)
Inductive Data :=
  | null
  | messageId (s : string)
  | indices (l : list Z)
  | message (m : string)
  | deletedCount (m : string) (n : Z)
  | purgedCount (n : Z).

(** [apiResponse.success(c, data)] answers 200;
    [apiResponse.error(c, message, status)] answers [status]. *)
Inductive Reply :=
  | success (data : Data)
  | error (msg : string) (status : Z).

Definition status_of (r : Reply) : Z :=
  match r with
  | success _ => 200
  | error _ st => st
  end.

Record Outcome := {
  reply : Reply;
  db : Db.t;
  tasks : list Task
}.

(** ** The upload engine ([routes/upload.ts]) *)

Module Upload.

(** The body of [POST /file/init], a [Partial<FileMetadata>]. *)
Record InitBody := {
  id : option string;
  name : option string;
  size : option Z;
  type : option string;
  iv : option string;
  salt : option string
}.

Definition same_id (fileId : string) : string -> File.row -> bool :=
  fun k _ => bool_decide (k = fileId).

(** The row that [init] writes. *)
Definition pending_row (nm : string) (sz : Z) (body : InitBody) (now : Z)
    : File.row :=
  {| File.name := nm;
     File.size := sz;
     File.type := Some (JS.or_else (type body) "application/octet-stream");
     File.iv := JS.or_else (iv body) "";
     File.salt := JS.or_else (salt body) "";
     File.status := File.pending;
     File.created_at := now |}.

Definition insert_pending (fileId nm : string) (sz : Z) (body : InitBody)
    (now : Z) (d : Db.t) : Outcome :=
  match Db.insert_file fileId (pending_row nm sz body now) d with
  | Some d' => {| reply := success null; db := d'; tasks := [] |}
  | None =>
      {| reply := error "Failed to initialize file record" 500;
         db := d; tasks := [] |}
  end.

(** [upload.post("/file/init")]; [now] is the clock of the index, in
    seconds, which fills [created_at]. *)
Definition init (body : InitBody) (now : Z) (d : Db.t) : Outcome :=
  match id body, name body, size body with
  | Some (String a i), Some (String b n), Some sz =>
      let fileId := String a i in
      match Db.get_file d fileId with
      | Some existing =>
          if decide (File.status existing = File.active) then
            {| reply := error "File ID already exists and is active" 409;
               db := d; tasks := [] |}
          else
            insert_pending fileId (String b n) sz body now
              (Db.delete_files (same_id fileId) d)
      | None => insert_pending fileId (String b n) sz body now d
      end
  | _, _, _ =>
      {| reply := error "Missing file metadata" 400; db := d; tasks := [] |}
  end.

(** What [uploadToDiscord] resolves to. *)
Record DiscordAttachment := {
  att_id : string;
  att_url : string;
  att_filename : string;
  att_size : Z
}.

(** [upload.post("/file/:id/chunk")] up to [await uploadToDiscord(...)],
    for the chunk index resolved from the request headers: either the
    handler has answered, or the upload is started on the index and the
    tasks given. *)
Definition chunk_begin (fileId : string) (chunkIndex : Z)
    (buffer : list Byte.byte) (d : Db.t) : Outcome + Db.t * list Task :=
  if decide (length buffer = 0%nat) then
    inl {| reply := error "Empty chunk" 400; db := d; tasks := [] |}
  else if negb (Db.is_pending d fileId) then
    inl {| reply := error "Upload session invalid or aborted" 404;
           db := d; tasks := [] |}
  else
    match Db.chunks_at d fileId chunkIndex with
    | existingChunk :: _ =>
        inr (Db.delete_chunks
               (fun c => bool_decide (Db.at_index fileId chunkIndex c)) d,
             [bulkDeleteFromDiscord [Chunk.message_id existingChunk]])
    | [] => inr (d, [])
    end.

(** The same handler from the moment [uploadToDiscord] settles, on the
    index as it is then; [attachment = None] is a rejected upload. *)
Definition chunk_end (fileId : string) (chunkIndex : Z)
    (buffer : list Byte.byte) (channelId : string)
    (attachment : option DiscordAttachment) (d : Db.t) : Outcome :=
  match attachment with
  | None =>
      {| reply := error "Failed to upload chunk to storage" 500;
         db := d; tasks := [] |}
  | Some att =>
      if negb (Db.is_pending d fileId) then
        {| reply := error "Upload aborted during transfer" 404;
           db := d;
           tasks := [bulkDeleteFromDiscord [att_id att]] |}
      else
        {| reply := success (messageId (att_id att));
           db := Db.insert_chunk fileId chunkIndex (att_id att) channelId
                   (Z.of_nat (length buffer)) (Some (att_url att)) d;
           tasks := [] |}
  end.

(** A chunk upload during which no other request touches the index. *)
Definition chunk (fileId : string) (chunkIndex : Z) (buffer : list Byte.byte)
    (channelId : string) (attachment : option DiscordAttachment)
    (d : Db.t) : Outcome :=
  match chunk_begin fileId chunkIndex buffer d with
  | inl o => o
  | inr (d1, t1) =>
      let o := chunk_end fileId chunkIndex buffer channelId attachment d1 in
      {| reply := reply o; db := db o; tasks := t1 ++ tasks o |}
  end.

(** The row that a successful upload of [buffer] inserts on [d]. *)
Definition stored (fileId : string) (chunkIndex : Z) (channelId : string)
    (buffer : list Byte.byte) (att : DiscordAttachment) (d : Db.t)
    : Chunk.row :=
  Db.new_chunk fileId chunkIndex (att_id att) channelId
    (Z.of_nat (length buffer)) (Some (att_url att)) d.

(** Uploads at [(fileId, chunkIndex)] one after the other, each with its
    body and with the attachment the external store answered; for each,
    the index while the upload was in flight and the outcome. *)
Fixpoint uploads (fileId : string) (chunkIndex : Z) (channelId : string)
    (calls : list (list Byte.byte * DiscordAttachment)) (d : Db.t)
    : list (Db.t * Outcome) :=
  match calls with
  | [] => []
  | (buffer, att) :: rest =>
      let during :=
        match chunk_begin fileId chunkIndex buffer d with
        | inr (d1, _) => d1
        | inl o => db o
        end in
      let o := chunk fileId chunkIndex buffer channelId (Some att) d in
      (during, o) :: uploads fileId chunkIndex channelId rest (db o)
  end.

(** The chunk index of a request that carries [X-Chunk-Number]. *)
Definition chunkIndex_of_header (chunkHeader : string) : JS.number :=
  JS.sub (JS.parseInt chunkHeader None) (JS.Int 1).

(** [upload.get("/file/:id/chunks")] *)
Definition chunks (fileId : string) (d : Db.t) : Outcome :=
  {| reply := success (indices (map Chunk.idx (Db.chunks_of d fileId)));
     db := d; tasks := [] |}.

(** [upload.post("/file/:id/finalize")]; [VACUUM] leaves the rows as
    they are. *)
Definition finalize (fileId : string) (skip_backup : bool) (d : Db.t)
    : Outcome :=
  {| reply := success null;
     db := Db.set_status fileId File.active d;
     tasks := if skip_backup then [] else [backupDatabase] |}.

Definition pending_with_id (fileId : string) : string -> File.row -> bool :=
  fun k r => bool_decide (k = fileId) && bool_decide (File.status r = File.pending).

(** [upload.post("/file/:id/abort")] *)
Definition abort (fileId : string) (d : Db.t) : Outcome :=
  let messageIds := map Chunk.message_id (Db.chunks_of d fileId) in
  {| reply := success null;
     db := Db.delete_files (pending_with_id fileId) d;
     tasks :=
       if decide (0 < length messageIds)%nat
       then [bulkDeleteFromDiscord messageIds] else [] |}.

Definition is_pending_row : string -> File.row -> bool :=
  fun _ r => bool_decide (File.status r = File.pending).

(** [upload.delete("/file/pending/all")] *)
Definition purge_pending (d : Db.t) : Outcome :=
  let of_pending := fun c => Db.is_pending d (Chunk.file_id c) in
  let messageIds :=
    map Chunk.message_id (filter (fun c => of_pending c = true) (Db.chunks d)) in
  {| reply := success (purgedCount (Z.of_nat (length messageIds)));
     db := Db.delete_files is_pending_row (Db.delete_chunks of_pending d);
     tasks :=
       if decide (0 < length messageIds)%nat
       then [bulkDeleteFromDiscord messageIds] else [] |}.

End Upload.

(** ** File management ([routes/files.ts]) *)

Module Files.

(** [files.post("/:id/restore")] *)
Definition restore (fileId : string) (d : Db.t) : Outcome :=
  match Db.get_file d fileId with
  | None => {| reply := error "File not found" 404; db := d; tasks := [] |}
  | Some file =>
      if decide (File.status file = File.trashed) then
        {| reply := success (message "File restored");
           db := Db.set_status fileId File.active d;
           tasks := [backupDatabase] |}
      else
        {| reply := error "File is not in trash" 400; db := d; tasks := [] |}
  end.

Definition is_trashed_row : string -> File.row -> bool :=
  fun _ r => bool_decide (File.status r = File.trashed).

Definition is_trashed (d : Db.t) (fileId : string) : bool :=
  match Db.files d !! fileId with
  | Some r => bool_decide (File.status r = File.trashed)
  | None => false
  end.

(** [files.delete("/trash")]: the rows to delete are named by the ids
    selected first. *)
Definition empty_trash (d : Db.t) : Outcome :=
  let ids := map fst (filter (fun kv => File.status kv.2 = File.trashed)
                             (map_to_list (Db.files d))) in
  if decide (length ids = 0%nat) then
    {| reply := success (deletedCount "Trash is already empty" 0);
       db := d; tasks := [] |}
  else
    let in_ids := fun k => bool_decide (k ∈ ids) in
    let messageIds :=
      map Chunk.message_id
          (filter (fun c => in_ids (Chunk.file_id c) = true) (Db.chunks d)) in
    {| reply := success (deletedCount "Trash emptied" (Z.of_nat (length ids)));
       db := Db.delete_chunks (fun c => in_ids (Chunk.file_id c))
               (Db.delete_files (fun k _ => in_ids k) d);
       tasks := [bulkDeleteFromDiscord messageIds; backupDatabase] |}.

(** [files.delete("/:id")] *)
Definition delete (fileId : string) (d : Db.t) : Outcome :=
  match Db.get_file d fileId with
  | None => {| reply := error "File not found" 404; db := d; tasks := [] |}
  | Some file =>
      if decide (File.status file = File.active) then
        {| reply := success (message "File moved to trash");
           db := Db.set_status fileId File.trashed d;
           tasks := [backupDatabase] |}
      else
        let messageIds := map Chunk.message_id (Db.chunks_of d fileId) in
        {| reply := success (message "File permanently deleted");
           db := Db.delete_files (Upload.same_id fileId) d;
           tasks := [bulkDeleteFromDiscord messageIds; backupDatabase] |}
  end.

End Files.

(** ** The external store and the client, as a request sees them *)

Module Net.

(** The answer of an upstream [fetch]. *)
Record Response := {
  status : Z;
  body : list Byte.byte
}.

(** [response.ok] *)
Definition ok (r : Response) : bool := (200 <=? status r) && (status r <=? 299).

(** The places where a handler reads [c.req.raw.signal.aborted]. *)
Inductive Point :=
  | LoopTop (i : nat)
  | BeforeWrite (i : nat)
  | FetchStart (idx : Z)
  | BeforeFetch (idx : Z) (attempt : nat)
  | AfterFailure (idx : Z) (attempt : nat).

(** What the world answers to one request.  A call is named by its
    arguments and by a counter (the attempt, or the rank of the call in
    the handler), so that a repeated call may be answered differently.
    [None] is a rejected promise.
    - [Date_now k]: the clock in milliseconds at its [k]-th reading;
    - [refreshDiscordUrls k url]: [refreshed[0]] of the call on [[url]];
    - [getDiscordCDNUrl k messageId];
    - [fetch k url range]: the upstream request, with its [Range] header;
    - [aborted p]: whether the client has gone at point [p];
    - [BACKUP_CHANNEL]: [process.env.DISCORD_BACKUP_CHANNEL_ID]. *)
Record Env := {
  Date_now : nat -> Z;
  refreshDiscordUrls : nat -> option string -> option (option string);
  getDiscordCDNUrl : nat -> string -> option string;
  fetch : nat -> string -> option string -> option Response;
  aborted : Point -> bool;
  BACKUP_CHANNEL : option string
}.

(** [fetch(cdnUrl!)]: an undefined address is a rejected promise. *)
Definition fetch_url (env : Env) (k : nat) (cdnUrl : option string)
    (range : option string) : option Response :=
  match cdnUrl with
  | Some u => fetch env k u range
  | None => None
  end.

End Net.

(** An HTTP response of the server. *)
Inductive Body :=
  | Text (s : string)
  | Bytes (b : list Byte.byte)
  | Stream (writes : list (list Byte.byte)) (closed : bool).

Record HttpResponse := {
  status : Z;
  headers : list (string * string);
  body : Body
}.

(** [c.text(s, status)] *)
Definition c_text (s : string) (st : Z) : HttpResponse :=
  {| status := st; headers := []; body := Text s |}.

(** A row update [UPDATE chunks SET url = ? WHERE message_id = ?] that a
    handler issues after an await: the message id and the new address. *)
Definition UrlWrite : Type := string * option string.

Definition apply_writes (ws : list UrlWrite) (d : Db.t) : Db.t :=
  fold_left (fun acc w => Db.set_url w.1 w.2 acc) ws d.

(** ** The download engine ([routes/download.ts]) *)

Module Download.

(** [parseInt(ex, 16) < Date.now() / 1000], the clock in milliseconds. *)
Definition before_now (ex : JS.number) (now_ms : Z) : bool :=
  match ex with
  | JS.Int v => v * 1000 <? now_ms
  | JS.NaN => false
  end.

(** The expiry test written inline at both fetch sites of this route:
    [!cdnUrl || (cdnUrl.includes("ex=") &&
      parseInt(new URL(cdnUrl).searchParams.get("ex") || "0", 16)
        < Date.now() / 1000)].
    [None] when [new URL] throws. *)
Definition isExpired (now_ms : Z) (cdnUrl : option string) : option bool :=
  match cdnUrl with
  | Some (String a s) =>
      let u := String a s in
      if JS.includes u "ex=" then
        match JS.URL_searchParams_get u "ex" with
        | None => None
        | Some ex =>
            Some (before_now
                    (JS.parseInt (JS.or_else ex "0") (Some 16)) now_ms)
        end
      else Some false
  | _ => Some true
  end.

(** The refresh block shared by both sites: bulk refresh, then lookup by
    message id; the address kept and the row update.  A rejected call
    leaves the address as it was and writes nothing. *)
Definition refresh (env : Net.Env) (k : nat) (cdnUrl : option string)
    (message_id : string) : option string * list UrlWrite :=
  let store := fun (u : option string) =>
    (u, if JS.truthy u then [(message_id, u)] else []) in
  match Net.refreshDiscordUrls env k cdnUrl with
  | None => (cdnUrl, [])
  | Some r0 =>
      if JS.truthy r0 then store r0
      else if JS.truthy (Some message_id) then
        match Net.getDiscordCDNUrl env k message_id with
        | Some u => store (Some u)
        | None => (cdnUrl, [])
        end
      else store cdnUrl
  end.

(** What [fetchChunkData] settles to. *)
Inductive Fetched :=
  | buffer (b : list Byte.byte)
  | thrown (msg : string).

Definition MAX_ATTEMPTS : nat := 2.

(** The [while (attempt < MAX_ATTEMPTS)] loop of [fetchChunkData], entered
    with [attempt] attempts made; [fuel] is [MAX_ATTEMPTS - attempt]. *)
Fixpoint attempts (env : Net.Env) (chunk : Chunk.row) (fuel attempt : nat)
    (cdnUrl : option string) : Fetched * list UrlWrite :=
  match fuel with
  | O => (thrown "Unreachable", [])
  | S fuel' =>
      let attempt := S attempt in
      let isRetry := (1 <? attempt)%nat in
      match isExpired (Net.Date_now env attempt) cdnUrl with
      | None => (thrown "Invalid URL", [])
      | Some expired =>
          let '(cdnUrl, ws) :=
            if expired || (isRetry && JS.truthy (Some (Chunk.message_id chunk)))
            then refresh env attempt cdnUrl (Chunk.message_id chunk)
            else (cdnUrl, []) in
          let again := fun (_ : unit) =>
            let '(r, ws') := attempts env chunk fuel' attempt cdnUrl in
            (r, (ws ++ ws')%list) in
          let failed := fun (msg : string) =>
            if Net.aborted env (Net.AfterFailure (Chunk.idx chunk) attempt)
            then (thrown msg, ws)
            else if (attempt <? MAX_ATTEMPTS)%nat then again tt
            else (thrown msg, ws) in
          if Net.aborted env (Net.BeforeFetch (Chunk.idx chunk) attempt)
          then (thrown "Client aborted", ws)
          else
            match Net.fetch_url env attempt cdnUrl None with
            | None => failed "fetch failed"
            | Some response =>
                if Net.ok response then (buffer (Net.body response), ws)
                else if ((Net.status response =? 403)
                         || (Net.status response =? 410))
                        && (attempt <? MAX_ATTEMPTS)%nat
                then again tt
                else failed ("Fetch failed: " ++ pretty (Net.status response))
            end
      end
  end.

(** [fetchChunkData(chunk)] *)
Definition fetchChunkData (env : Net.Env) (chunk : Chunk.row)
    : Fetched * list UrlWrite :=
  if Net.aborted env (Net.FetchStart (Chunk.idx chunk))
  then (thrown "Client aborted", [])
  else attempts env chunk MAX_ATTEMPTS 0 (Chunk.url chunk).

(** *** The per-chunk proxy, [?index=N] *)

(** [new Response(response.body, { headers })] of the proxy. *)
Definition proxied (chunk : Chunk.row) (response : Net.Response)
    : HttpResponse :=
  {| status := 200;
     headers :=
       [("Content-Length", pretty (Chunk.size chunk));
        ("Content-Type", "application/octet-stream");
        ("Cache-Control", "no-cache")];
     body := Bytes (Net.body response) |}.

Definition proxy (env : Net.Env) (chunks : list Chunk.row)
    (chunkIndexStr : string) : HttpResponse * list UrlWrite :=
  let idx := JS.parseInt chunkIndexStr (Some 10) in
  match
    List.find (fun ch => JS.strict_eq (JS.Int (Chunk.idx ch)) idx) chunks
  with
  | None => (c_text "Chunk not found" 404, [])
  | Some chunk =>
      match isExpired (Net.Date_now env 0) (Chunk.url chunk) with
      | None => (c_text "Internal Server Error" 500, [])
      | Some expired =>
          let '(cdnUrl, ws) :=
            if expired
            then refresh env 0 (Chunk.url chunk) (Chunk.message_id chunk)
            else (Chunk.url chunk, []) in
          match Net.fetch_url env 0 cdnUrl None with
          | None => (c_text "Internal Server Error" 500, ws)
          | Some response =>
              if negb (Net.ok response) then
                (c_text ("Discord fetch failed: "
                         +:+ pretty (Net.status response)) 502, ws)
              else (proxied chunk response, ws)
          end
      end
  end.

(** *** The full stream *)

Definition WINDOW_SIZE : nat := 2.

(** An entry of [chunkPromises]: [null], or a started [fetchChunkData]
    known by what it settles to. *)
Abbreviation Slot := (option Fetched).

(** [chunkPromises[j] = fetchChunkData(filteredChunks[j])] *)
Definition start_fetch (env : Net.Env) (filteredChunks : list Chunk.row)
    (j : nat) (st : list Slot * list UrlWrite) : list Slot * list UrlWrite :=
  match filteredChunks !! j with
  | Some ch =>
      let '(r, w) := fetchChunkData env ch in
      (<[j := Some r]> st.1, (st.2 ++ w)%list)
  | None => st
  end.

(** [new Array(n).fill(null)] and the loop that starts the first
    [WINDOW_SIZE] tasks. *)
Definition initial_window (env : Net.Env) (filteredChunks : list Chunk.row)
    : list Slot * list UrlWrite :=
  fold_left (fun st i => start_fetch env filteredChunks i st)
            (seq 0 (Nat.min WINDOW_SIZE (length filteredChunks)))
            (replicate (length filteredChunks) None, []).

(** The loop that writes to the client, at index [i] with [remaining]
    chunks to go; [written] is what the writer has been given.  The
    stream ends closed, or aborted by the first exception. *)
Fixpoint pump (env : Net.Env) (filteredChunks : list Chunk.row)
    (remaining i : nat) (st : list Slot * list UrlWrite)
    (written : list (list Byte.byte)) : Body * list UrlWrite :=
  match remaining with
  | O => (Stream written true, st.2)
  | S remaining' =>
      if Net.aborted env (Net.LoopTop i) then (Stream written false, st.2)
      else
        match st.1 !! i with
        | Some (Some (buffer currentData)) =>
            let st1 := (<[i := None]> st.1, st.2) in
            let lookAheadIndex := (i + WINDOW_SIZE)%nat in
            let st2 :=
              if (lookAheadIndex <? length filteredChunks)%nat
              then start_fetch env filteredChunks lookAheadIndex st1
              else st1 in
            if Net.aborted env (Net.BeforeWrite i)
            then (Stream written false, st2.2)
            else pump env filteredChunks remaining' (S i) st2
                      (written ++ [currentData])
        | _ => (Stream written false, st.2)
        end
  end.

(** The entries of [chunkPromises] from [i] to the end of the window hold
    the tasks of their chunks. *)
Definition window_ok (env : Net.Env) (filteredChunks : list Chunk.row)
    (i : nat) (slots : list Slot) : Prop :=
  length slots = length filteredChunks
  /\ forall j ch,
       (i <= j < i + WINDOW_SIZE)%nat ->
       filteredChunks !! j = Some ch ->
       slots !! j = Some (Some (fetchChunkData env ch).1).

(** The body that [fetchChunkData] resolves to, when it does. *)
Definition fetched_body (env : Net.Env) (chunk : Chunk.row)
    : option (list Byte.byte) :=
  match (fetchChunkData env chunk).1 with
  | buffer b => Some b
  | thrown _ => None
  end.

(** The loop without the window, for comparison with [pump]: fetch the
    chunk at index [i], write it, go on to the next. *)
Fixpoint sequential (env : Net.Env) (i : nat) (todo : list Chunk.row)
    (written : list (list Byte.byte)) : Body :=
  match todo with
  | [] => Stream written true
  | chunk :: rest =>
      if Net.aborted env (Net.LoopTop i) then Stream written false
      else
        match fetched_body env chunk with
        | Some currentData =>
            if Net.aborted env (Net.BeforeWrite i) then Stream written false
            else sequential env (S i) rest (written ++ [currentData])
        | None => Stream written false
        end
  end.

(** [encodeURIComponent] on the bytes of the name. *)
Definition is_unreserved (c : ascii) : bool :=
  let n := JS.code c in
  JS.is_alpha c || ((48 <=? n) && (n <=? 57))
  || bool_decide (c ∈ ["-"; "_"; "."; "!"; "~"; "*"; "'"; "("; ")"]%char).

Definition hex_digit (n : Z) : ascii :=
  ascii_of_nat (Z.to_nat (if n <? 10 then 48 + n else 55 + n)).

Fixpoint encodeURIComponent (s : string) : string :=
  match s with
  | EmptyString => EmptyString
  | String c s' =>
      if is_unreserved c then String c (encodeURIComponent s')
      else
        String "%" (String (hex_digit (JS.code c / 16))
                     (String (hex_digit (JS.code c mod 16))
                        (encodeURIComponent s')))
  end.

Definition full (env : Net.Env) (fileId : string) (file : File.row)
    (chunks : list Chunk.row) (start_chunk inline : option string)
    : HttpResponse * list UrlWrite :=
  let totalEncryptedSize := foldl (fun acc ch => acc + Chunk.size ch) 0 chunks in
  let startChunkIndex := JS.parseInt (JS.or_else start_chunk "0") (Some 10) in
  let filteredChunks :=
    filter (fun ch => JS.ge (JS.Int (Chunk.idx ch)) startChunkIndex = true)
           chunks in
  let '(readable, ws) :=
    pump env filteredChunks (length filteredChunks) 0
         (initial_window env filteredChunks) [] in
  let disposition :=
    if bool_decide (inline = Some "true") then "inline" else "attachment" in
  let encodedFilename := encodeURIComponent (File.name file) in
  ({| status := 200;
      headers :=
        [("Content-Length", pretty totalEncryptedSize);
         ("Content-Disposition",
          disposition +:+ "; filename*=UTF-8''" +:+ encodedFilename);
         ("Content-Type",
          JS.or_else (File.type file) "application/octet-stream");
         ("Cache-Control", "no-cache")];
      body := readable |}, ws).

(** [download.get("/:id")] *)
Definition get (env : Net.Env) (d : Db.t) (fileId : string)
    (index start_chunk inline : option string) : HttpResponse * list UrlWrite :=
  match Db.get_file d fileId with
  | None => (c_text "File not found" 404, [])
  | Some file =>
      let chunks := Db.chunks_ordered d fileId in
      if decide (length chunks = 0%nat) then
        (c_text "File has no chunks" 404, [])
      else
        match index with
        | Some chunkIndexStr => proxy env chunks chunkIndexStr
        | None => full env fileId file chunks start_chunk inline
        end
  end.

End Download.

(** ** The range stream engine ([routes/stream.ts]) *)

Module Stream.

(** The local [isExpired]: an address is stale when it is missing, when
    it does not parse, when it has no [ex], or when fewer than 300
    seconds are left. *)
Definition isExpired (now_ms : Z) (url : option string) : bool :=
  match url with
  | Some (String a s) =>
      match JS.URL_searchParams_get (String a s) "ex" with
      | Some (Some (String b e)) =>
          JS.lt (JS.parseInt (String b e) (Some 16))
                (JS.Int (now_ms / 1000 + 300))
      | _ => true
      end
  | _ => true
  end.

(** Step 2 of the handler: the range asked for. *)
Definition parse_range (rangeHeader : option string) (fileSize : Z)
    : JS.number * JS.number :=
  match rangeHeader with
  | Some (String a h) =>
      let parts := JS.split "-" (JS.remove_first "bytes=" (String a h)) in
      (JS.parseInt (List.nth 0 parts EmptyString) (Some 10),
       if JS.truthy (parts !! 1%nat)
       then JS.parseInt (List.nth 1 parts EmptyString) (Some 10)
       else JS.Int (fileSize - 1))
  | _ => (JS.Int 0, JS.Int (fileSize - 1))
  end.

(** Step 3: the walk over the chunks with the running offset; the chunk
    found and the offset at which it starts. *)
Fixpoint locate (start : JS.number) (currentOffset : Z)
    (chunks : list Chunk.row) : option (Chunk.row * Z) :=
  match chunks with
  | [] => None
  | chunk :: rest =>
      if JS.ge start (JS.Int currentOffset)
         && JS.lt start (JS.Int (currentOffset + Chunk.size chunk))
      then Some (chunk, currentOffset)
      else locate start (currentOffset + Chunk.size chunk) rest
  end.

(** Step 5: the address to fetch and the row updates. *)
Definition fresh_url (env : Net.Env) (targetChunk : Chunk.row)
    : option string * list UrlWrite :=
  let mid := Chunk.message_id targetChunk in
  let cdnUrl := Chunk.url targetChunk in
  if isExpired (Net.Date_now env 0) cdnUrl && JS.truthy (Some mid) then
    let cdnUrl1 :=
      if JS.truthy cdnUrl then
        match Net.refreshDiscordUrls env 0 cdnUrl with
        | Some r0 => if JS.truthy r0 then r0 else cdnUrl
        | None => cdnUrl
        end
      else cdnUrl in
    let backup := fun (_ : unit) =>
      if JS.truthy (Net.BACKUP_CHANNEL env) then
        match Net.getDiscordCDNUrl env 1 mid with
        | Some u =>
            (Some u, if JS.truthy (Some u) then [(mid, Some u)] else [])
        | None => (cdnUrl1, [])
        end
      else (cdnUrl1, []) in
    if negb (JS.truthy cdnUrl1) || isExpired (Net.Date_now env 1) cdnUrl1 then
      match Net.getDiscordCDNUrl env 0 mid with
      | Some u => (Some u, [(mid, Some u)])
      | None => backup tt
      end
    else (cdnUrl1, [(mid, cdnUrl1)])
  else (cdnUrl, []).

(** [stream.get("/file/:id")] *)
Definition get (env : Net.Env) (d : Db.t) (fileId : string)
    (rangeHeader : option string) : HttpResponse * list UrlWrite :=
  match Db.get_file d fileId with
  | None => (c_text "File not found" 404, [])
  | Some file =>
      let '(start, end_) := parse_range rangeHeader (File.size file) in
      match locate start 0 (Db.chunks_ordered d fileId) with
      | None => (c_text "Range Not Satisfiable" 416, [])
      | Some (targetChunk, chunkStartOffset) =>
          let localStart := JS.sub start (JS.Int chunkStartOffset) in
          let localAvailable :=
            JS.sub (JS.Int (Chunk.size targetChunk)) localStart in
          let requestSize := JS.add (JS.sub end_ start) (JS.Int 1) in
          let actualLength := JS.Math_min requestSize localAvailable in
          let localEnd := JS.sub (JS.add localStart actualLength) (JS.Int 1) in
          let globalEnd := JS.sub (JS.add start actualLength) (JS.Int 1) in
          let '(cdnUrl, ws) := fresh_url env targetChunk in
          match
            Net.fetch_url env 0 cdnUrl
              (Some ("bytes=" +:+ JS.toString localStart +:+ "-"
                     +:+ JS.toString localEnd))
          with
          | None => (c_text "Internal Server Error" 500, ws)
          | Some response =>
              if negb (Net.ok response)
                 && negb (Net.status response =? 206)
              then (c_text "Upstream Error" 502, ws)
              else
                ({| status := 206;
                    headers :=
                      [("Content-Range",
                        "bytes " +:+ JS.toString start +:+ "-"
                        +:+ JS.toString globalEnd +:+ "/"
                        +:+ pretty (File.size file));
                       ("Accept-Ranges", "bytes");
                       ("Content-Length", JS.toString actualLength);
                       ("Content-Type",
                        JS.or_else (File.type file)
                          "application/octet-stream")];
                    body := Bytes (Net.body response) |}, ws)
          end
      end
  end.

End Stream.

(** ** Values used to state the properties *)

(** The sizes of chunk rows, added up, and the offset at which the
    [k]-th row of a list starts. *)
Definition sizes_sum (l : list Chunk.row) : Z :=
  foldr (fun c acc => Chunk.size c + acc) 0 l.

Definition offset_of (l : list Chunk.row) (k : nat) : Z :=
  sizes_sum (take k l).

(** The header [Range: bytes=s-e]. *)
Definition range_header (s e : Z) : string :=
  "bytes=" +:+ pretty s +:+ "-" +:+ pretty e.

Module Sample.

Definition row (nm : string) (sz : Z) (st : File.Status) : File.row :=
  {| File.name := nm; File.size := sz; File.type := Some "text/plain";
     File.iv := ""; File.salt := ""; File.status := st;
     File.created_at := 1700000000 |}.

Definition chunk (rid : Z) (fileId : string) (i : Z) (mid : string) (sz : Z)
    (u : option string) : Chunk.row :=
  {| Chunk.id := rid; Chunk.file_id := fileId; Chunk.idx := i;
     Chunk.message_id := mid; Chunk.channel_id := "chan"; Chunk.size := sz;
     Chunk.url := u |}.

(** An address whose [ex] is 0x7fffffff, far in the future. *)
Definition fresh : string :=
  "https://cdn.discordapp.com/attachments/1/2/c.bin?ex=7fffffff&is=1&hm=ab".

Definition one_file (st : File.Status) : Db.t :=
  {| Db.files := {[ "a" := row "t.txt" 14 st ]};
     Db.chunks := [chunk 1 "a" 0 "m1" 14 (Some fresh)];
     Db.seq := 1 |}.

Definition body_a : Upload.InitBody :=
  {| Upload.id := Some "a"; Upload.name := Some "t.txt";
     Upload.size := Some 14; Upload.type := None;
     Upload.iv := None; Upload.salt := None |}.

Definition att (mid : string) : Upload.DiscordAttachment :=
  {| Upload.att_id := mid; Upload.att_url := fresh;
     Upload.att_filename := "chunk_a_0.bin"; Upload.att_size := 14 |}.

(** Two addresses with [ex] far in the future, and a store that serves
    five bytes at the first and seven at the second, to a client that
    stays connected. *)
Definition url0 : string :=
  "https://cdn.discordapp.com/attachments/1/10/c0.bin?ex=7fffffff&is=1&hm=ab".

Definition url1 : string :=
  "https://cdn.discordapp.com/attachments/1/11/c1.bin?ex=7fffffff&is=1&hm=cd".

Definition body0 : list Byte.byte :=
  [Byte.x68; Byte.x65; Byte.x6c; Byte.x6c; Byte.x6f].

Definition body1 : list Byte.byte :=
  [Byte.x67; Byte.x6f; Byte.x6f; Byte.x64; Byte.x62; Byte.x79; Byte.x65].

Definition env : Net.Env :=
  {| Net.Date_now := fun _ => 1700000000000;
     Net.refreshDiscordUrls := fun _ _ => None;
     Net.getDiscordCDNUrl := fun _ _ => None;
     Net.fetch := fun _ u _ =>
       Some {| Net.status := 200;
               Net.body := if String.eqb u url1 then body1 else body0 |};
     Net.aborted := fun _ => false;
     Net.BACKUP_CHANNEL := None |}.

(** An address without [ex], and a store whose bulk refresh answers
    [url1] for every address. *)
Definition plain : string :=
  "https://cdn.discordapp.com/attachments/1/10/c0.bin".

Definition refreshing : Net.Env :=
  {| Net.Date_now := fun _ => 1700000000000;
     Net.refreshDiscordUrls := fun _ _ => Some (Some url1);
     Net.getDiscordCDNUrl := fun _ _ => None;
     Net.fetch := fun _ u _ =>
       Some {| Net.status := 200;
               Net.body := if String.eqb u url1 then body1 else body0 |};
     Net.aborted := fun _ => false;
     Net.BACKUP_CHANNEL := None |}.

Definition plain_chunk : Chunk.row := chunk 1 "a" 0 "m1" 5 (Some plain).

(** An address whose [ex] is 1, long past, and a chunk row that holds
    it; a chunk row that holds [url0]. *)
Definition stale : string :=
  "https://cdn.discordapp.com/attachments/1/10/c0.bin?ex=1&is=1&hm=ab".

Definition stale_chunk : Chunk.row := chunk 1 "a" 0 "m1" 5 (Some stale).

Definition fresh_chunk : Chunk.row := chunk 1 "a" 0 "m1" 5 (Some url0).

Definition plain_file : Db.t :=
  {| Db.files := {[ "a" := row "t.txt" 5 File.active ]};
     Db.chunks := [plain_chunk];
     Db.seq := 1 |}.

(** A file of 12 bytes in two chunks of 5 and 7 bytes. *)
Definition two_chunks : Db.t :=
  {| Db.files := {[ "a" := row "t.txt" 12 File.active ]};
     Db.chunks := [chunk 1 "a" 0 "m1" 5 (Some url0);
                   chunk 2 "a" 1 "m2" 7 (Some url1)];
     Db.seq := 2 |}.

(** A file that has no chunk. *)
Definition no_chunk : Db.t :=
  {| Db.files := {[ "a" := row "empty.txt" 0 File.active ]};
     Db.chunks := [];
     Db.seq := 0 |}.

Definition hello : list Byte.byte := [Byte.x48; Byte.x65; Byte.x6c; Byte.x6c; Byte.x6f].

End Sample.

Module SampleCalls.

Definition two : list (list Byte.byte * Upload.DiscordAttachment) :=
  [(Sample.hello, Sample.att "m2"); ([Byte.x21], Sample.att "m3")].

End SampleCalls.

Module SampleData.

(** The bytes the sample store holds for a chunk row. *)
Definition data (ch : Chunk.row) : list Byte.byte :=
  if Chunk.idx ch =? 1 then Sample.body1 else Sample.body0.

End SampleData.

(** ** The chunk index of an upload request ([routes/upload.ts]) *)

Module ChunkIndex.

(** The value of [chunkIndex]: a number as above, or an infinity. *)
Inductive t :=
  | number (n : JS.number)
  | Infinity
  | NegInfinity.

(** The rest of [s] after the literal [p], when [s] starts with it. *)
Fixpoint strip_prefix (p s : string) : option string :=
  match p, s with
  | EmptyString, _ => Some s
  | String a p', String b s' =>
      if Ascii.eqb a b then strip_prefix p' s' else None
  | String _ _, EmptyString => None
  end.

(** The longest prefix of [s] made of decimal digits, and the rest. *)
Fixpoint digits_span (s : string) : string * string :=
  match s with
  | String c s' =>
      if JS.is_digit c then
        let '(ds, rest) := digits_span s' in (String c ds, rest)
      else (EmptyString, s)
  | EmptyString => (EmptyString, EmptyString)
  end.

(** [\d+] then the character [sep]: the digits and what follows [sep].
    A greedy [\d+] that gives digits back cannot be followed by [sep],
    which is no digit, so the longest run is the only candidate. *)
Definition digits_then (sep : ascii) (s : string) : option (string * string) :=
  match digits_span s with
  | (String d ds, String c rest) =>
      if Ascii.eqb c sep then Some (String d ds, rest) else None
  | _ => None
  end.

(** [/bytes (\d+)-(\d+)\/(\d+)/] matched at the start of [s]: the first
    group. *)
Definition match_here (s : string) : option string :=
  match strip_prefix "bytes " s with
  | Some s1 =>
      match digits_then "-" s1 with
      | Some (g1, s2) =>
          match digits_then "/" s2 with
          | Some (_, s3) =>
              match digits_span s3 with
              | (String _ _, _) => Some g1
              | _ => None
              end
          | None => None
          end
      | None => None
      end
  | None => None
  end.

(** [contentRange.match(/bytes (\d+)-(\d+)\/(\d+)/)]: the first group
    of the leftmost match, [None] for [null]. *)
Fixpoint regex_match (s : string) : option string :=
  match match_here s with
  | Some g => Some g
  | None =>
      match s with
      | String _ s' => regex_match s'
      | EmptyString => None
      end
  end.

(** [Math.round(start / size)] for integers, taken exactly: the
    quotient rounded to the nearest integer, halves upwards; a division
    by zero is an infinity, or [NaN] for [0 / 0]. *)
Definition Math_round_div (start size : Z) : t :=
  if size =? 0 then
    if 0 <? start then Infinity
    else if start <? 0 then NegInfinity
    else number JS.NaN
  else number (JS.Int ((2 * start + size) / (2 * size))).

(** The "Smart Chunk Indexing" of [upload.post("/file/:id/chunk")]. *)
Definition chunkIndex (chunkHeader contentRange : option string)
    (fileId : string) (d : Db.t) : t :=
  match chunkHeader, contentRange with
  | Some (String a h), _ =>
      number (JS.sub (JS.parseInt (String a h) None) (JS.Int 1))
  | _, Some (String a r) =>
      match regex_match (String a r) with
      | Some g1 =>
          match JS.parseInt g1 None with
          | JS.Int start =>
              if start =? 0 then number (JS.Int 0)
              else
                match Db.chunks_at d fileId 0 with
                | chunk0 :: _ => Math_round_div start (Chunk.size chunk0)
                | [] => number (JS.Int 0)
                end
          | JS.NaN =>
              match Db.chunks_at d fileId 0 with
              | chunk0 :: _ => number JS.NaN
              | [] => number (JS.Int 0)
              end
          end
      | None => number (JS.Int 0)
      end
  | _, _ => number (JS.Int 0)
  end.

(** The handler when [chunkIndex] is [NaN] (an [X-Chunk-Number] that
    holds no number), during which no other request touches the index.
    The driver binds [NaN] as [NULL]: [idx = NULL] selects no row, so
    no chunk is overwritten, and the [INSERT] violates
    [idx INTEGER NOT NULL] and throws.  The handler answers 500 after
    the store has taken the chunk: no row names that message and no
    task deletes it. *)
Definition chunk_NaN (fileId : string) (buffer : list Byte.byte)
    (attachment : option Upload.DiscordAttachment) (d : Db.t) : Outcome :=
  if decide (length buffer = 0%nat) then
    {| reply := error "Empty chunk" 400; db := d; tasks := [] |}
  else if negb (Db.is_pending d fileId) then
    {| reply := error "Upload session invalid or aborted" 404;
       db := d; tasks := [] |}
  else
    match attachment with
    | None =>
        {| reply := error "Failed to upload chunk to storage" 500;
           db := d; tasks := [] |}
    | Some att =>
        if negb (Db.is_pending d fileId) then
          {| reply := error "Upload aborted during transfer" 404;
             db := d;
             tasks := [bulkDeleteFromDiscord [Upload.att_id att]] |}
        else
          {| reply := error "Failed to upload chunk to storage" 500;
             db := d; tasks := [] |}
    end.

(** A chunk upload at the index [n], during which no other request
    touches the index. *)
Definition chunk_at (fileId : string) (n : JS.number)
    (buffer : list Byte.byte) (channelId : string)
    (attachment : option Upload.DiscordAttachment) (d : Db.t) : Outcome :=
  match n with
  | JS.Int i => Upload.chunk fileId i buffer channelId attachment d
  | JS.NaN => chunk_NaN fileId buffer attachment d
  end.

(** The handler on a request with its headers.  An infinite index
    comes only from a row at index 0 whose size is 0; SQLite would
    store it as a [REAL], which [Chunk.idx] does not hold: there the
    answer is given where the handler gives it before it uses the
    index, and [None] elsewhere. *)
Definition post_chunk (chunkHeader contentRange : option string)
    (fileId : string) (buffer : list Byte.byte) (channelId : string)
    (attachment : option Upload.DiscordAttachment) (d : Db.t)
    : option Outcome :=
  match chunkIndex chunkHeader contentRange fileId d with
  | number n => Some (chunk_at fileId n buffer channelId attachment d)
  | Infinity | NegInfinity =>
      match Upload.chunk_begin fileId 0 buffer d with
      | inl o => Some o
      | inr _ => None
      end
  end.

(** A [Content-Range] header as an uploader writes it. *)
Definition content_range (first last total : Z) : string :=
  "bytes " +:+ pretty first +:+ "-" +:+ pretty last +:+ "/" +:+ pretty total.

End ChunkIndex.

(** ** The routes that change the index, as one step *)

Module Api.

(** A request to one of the index routes of [routes/upload.ts] and
    [routes/files.ts], with what the clock and the external store
    answer to it; [Chunk] is a chunk upload during which no other
    request touches the index, with the index that its headers
    resolve to, an integer or [NaN]. *)
Inductive Request :=
  | Init (body : Upload.InitBody) (now : Z)
  | Chunk (fileId : string) (chunkIndex : JS.number) (buffer : list Byte.byte)
      (channelId : string) (attachment : option Upload.DiscordAttachment)
  | Finalize (fileId : string) (skip_backup : bool)
  | Abort (fileId : string)
  | PurgePending
  | Restore (fileId : string)
  | EmptyTrash
  | Delete (fileId : string).

Definition handle (r : Request) (d : Db.t) : Outcome :=
  match r with
  | Init body now => Upload.init body now d
  | Chunk fileId chunkIndex buffer channelId attachment =>
      ChunkIndex.chunk_at fileId chunkIndex buffer channelId attachment d
  | Finalize fileId skip_backup => Upload.finalize fileId skip_backup d
  | Abort fileId => Upload.abort fileId d
  | PurgePending => Upload.purge_pending d
  | Restore fileId => Files.restore fileId d
  | EmptyTrash => Files.empty_trash d
  | Delete fileId => Files.delete fileId d
  end.

(** The index after a list of requests, served one after the other. *)
Definition run (rs : list Request) (d : Db.t) : Db.t :=
  fold_left (fun acc r => db (handle r acc)) rs d.

(** The status of a file id, [None] when it has no row. *)
Definition status_of_id (d : Db.t) (fileId : string) : option File.Status :=
  File.status <$> Db.files d !! fileId.

(** The moves of a file id that the routes make in one step. *)
Definition allowed (before after : option File.Status) : bool :=
  match before, after with
  | None, None => true
  | None, Some File.pending => true
  | Some File.pending, _ => negb (bool_decide (after = Some File.trashed))
  | Some File.active, Some File.active => true
  | Some File.active, Some File.trashed => true
  | Some File.trashed, _ => true
  | _, _ => false
  end.

End Api.

(** What the rows of [chunks] satisfy in an index that the routes have
    built: a row holds at least one byte, has an [id] of its own that
    the sequence has given out, and is the only one of its file at its
    index.  A chunk row need not refer to a file row: a delete from
    [files] leaves the chunk rows behind. *)
Record sound (d : Db.t) : Prop := {
  sound_sizes : forall c, c ∈ Db.chunks d -> 1 <= Chunk.size c;
  sound_ids : forall c, c ∈ Db.chunks d -> Chunk.id c <= Db.seq d;
  sound_rowids : NoDup (map Chunk.id (Db.chunks d));
  sound_unique : Db.unique_idx d
}.

(** [r'] is [r] but for its status. *)
Definition same_content (r r' : File.row) : Prop :=
  r' = Db.with_status (File.status r') r.

(** The message ids handed to [bulkDeleteFromDiscord] by the tasks of a
    request. *)
Definition scheduled (ts : list Task) : list string :=
  flat_map (fun t => match t with
                     | bulkDeleteFromDiscord ids => ids
                     | backupDatabase => []
                     end) ts.

(** The outcome of a request on [d] accounts for the chunk rows it took
    from the index: they are the rows whose messages it scheduled for
    deletion, and every other row is still there. *)
Definition accounts (d : Db.t) (o : Outcome) : Prop :=
  exists removed,
    Db.chunks d ≡ₚ Db.chunks (db o) ++ removed
    /\ scheduled (tasks o) = map Chunk.message_id removed.

(** ** The upload client ([client/src/lib/transfer-manager.ts]) *)

Module Client.

Definition CONCURRENCY : nat := 3.
Definition CHUNK_SIZE : Z := 8192 * 1024.

(** *** [runWithConcurrency(tasks, concurrency)], without a signal

    The variables of the closure, whether the promise returned is
    settled ([Some true] resolved, [Some false] rejected), and the tasks
    that are awaited and those that have returned. *)
Record Pool := {
  currentIndex : nat;
  running : nat;
  aborted : bool;
  settled : option bool;
  in_flight : list nat;
  returned : list nat
}.

Definition init : Pool :=
  {| currentIndex := 0; running := 0; aborted := false; settled := None;
     in_flight := []; returned := [] |}.

(** [resolve(...)] and [reject(...)]: only the first call settles. *)
Definition settle (v : bool) (s : Pool) : Pool :=
  {| currentIndex := currentIndex s; running := running s;
     aborted := aborted s;
     settled := match settled s with None => Some v | x => x end;
     in_flight := in_flight s; returned := returned s |}.

(** [runNext()] up to its [await]; [n] is [tasks.length]. *)
Definition runNext (n : nat) (s : Pool) : Pool :=
  if aborted s || (n <=? currentIndex s)%nat then s
  else
    {| currentIndex := S (currentIndex s); running := S (running s);
       aborted := aborted s; settled := settled s;
       in_flight := in_flight s ++ [currentIndex s];
       returned := returned s |}.

(** The loop that starts the first tasks. *)
Definition start (n concurrency : nat) : Pool :=
  Nat.iter (Nat.min concurrency n) (runNext n) init.

(** [runNext] from its [await] on, when task [i] fulfils ([ok]) or
    rejects. *)
Definition complete (n : nat) (i : nat) (ok : bool) (s : Pool) : Pool :=
  if bool_decide (i ∈ in_flight s) then
    let rest := filter (fun j => j <> i) (in_flight s) in
    if ok then
      let s1 :=
        {| currentIndex := currentIndex s; running := pred (running s);
           aborted := aborted s; settled := settled s;
           in_flight := rest; returned := returned s ++ [i] |} in
      if aborted s1 then s1
      else if (currentIndex s1 <? n)%nat then runNext n s1
      else if (running s1 =? 0)%nat then settle true s1
      else s1
    else
      let s1 :=
        {| currentIndex := currentIndex s; running := running s;
           aborted := aborted s; settled := settled s;
           in_flight := rest; returned := returned s |} in
      if aborted s1 then s1
      else
        settle false
          {| currentIndex := currentIndex s1; running := running s1;
             aborted := true; settled := settled s1;
             in_flight := in_flight s1; returned := returned s1 |}
  else s.

(** The pool after the tasks named by [events] have settled, in that
    order. *)
Definition run (n concurrency : nat) (events : list (nat * bool)) : Pool :=
  fold_left (fun s e => complete n e.1 e.2 s) events (start n concurrency).

(** *** [processUpload], for a file that is not encrypted *)

(** [blob.slice(start, end)] *)
Definition slice (file : list Byte.byte) (start end_ : Z) : list Byte.byte :=
  let size := Z.of_nat (length file) in
  let relative x := if x <? 0 then Z.max (size + x) 0 else Z.min x size in
  let span := Z.max (relative end_ - relative start) 0 in
  take (Z.to_nat span) (drop (Z.to_nat (relative start)) file).

(** [Math.ceil(a / b)] for integers. *)
Definition Math_ceil_div (a b : Z) : Z := - ((- a) / b).

(** [totalChunks]; [cs] stands for [CHUNK_SIZE]. *)
Definition totalChunks (cs : Z) (file : list Byte.byte) : nat :=
  Z.to_nat (Math_ceil_div (Z.of_nat (length file)) cs).

(** The body that [createUploadTask(index)] sends. *)
Definition payload (cs : Z) (file : list Byte.byte) (index : nat)
    : list Byte.byte :=
  let start := Z.of_nat index * cs in
  let end_ := Z.min (start + cs) (Z.of_nat (length file)) in
  slice file start end_.

(** Its [X-Chunk-Number] header. *)
Definition chunk_header (index : nat) : string :=
  JS.toString (JS.Int (Z.of_nat index + 1)).

(** The body of the [init] request. *)
Definition init_body (fileId name type : string) (file : list Byte.byte)
    : Upload.InitBody :=
  {| Upload.id := Some fileId;
     Upload.name := Some name;
     Upload.size := Some (Z.of_nat (length file));
     Upload.type := Some (JS.or_else (Some type) "application/octet-stream");
     Upload.iv := None;
     Upload.salt := None |}.

Definition is_success (r : Reply) : bool :=
  match r with success _ => true | error _ _ => false end.

(** What the promise of [processUpload] has come to. *)
Inductive Promise := Fulfilled | Rejected | Waiting.

Record Session := {
  pool : Pool;
  index : Db.t
}.

(** Task [i] settles: for a chunk that discovery reported it returns at
    once; otherwise its request is served, from the attachment the store
    answers, and its promise follows the status of the answer. *)
Definition task_settles (cs : Z) (fileId : string) (file : list Byte.byte)
    (channelId : string) (existingChunks : list Z) (n : nat)
    (e : nat * option Upload.DiscordAttachment) (s : Session) : Session :=
  let '(i, attachment) := e in
  if bool_decide (i ∈ in_flight (pool s)) then
    if bool_decide (Z.of_nat i ∈ existingChunks) then
      {| pool := complete n i true (pool s); index := index s |}
    else
      match
        ChunkIndex.post_chunk (Some (chunk_header i)) None fileId
          (payload cs file i) channelId attachment (index s)
      with
      | Some o =>
          {| pool := complete n i (is_success (reply o)) (pool s);
             index := db o |}
      | None => s
      end
  else s.

(** [processUpload({ file, shouldEncrypt: false, isLast })] against the
    engine, with the requests of the tasks served in the order of
    [events]: what its promise has come to, and the index. *)
Definition processUpload (cs : Z) (fileId name type : string)
    (file : list Byte.byte) (isLast : bool) (channelId : string) (now : Z)
    (events : list (nat * option Upload.DiscordAttachment)) (d : Db.t)
    : Promise * Db.t :=
  let o := Upload.init (init_body fileId name type file) now d in
  if is_success (reply o) then
    let existingChunks :=
      match reply (Upload.chunks fileId (db o)) with
      | success (indices l) => l
      | _ => []
      end in
    let n := totalChunks cs file in
    let s :=
      fold_left
        (fun s e => task_settles cs fileId file channelId existingChunks n e s)
        events {| pool := start n CONCURRENCY; index := db o |} in
    match settled (pool s) with
    | Some true =>
        (Fulfilled, db (Upload.finalize fileId (negb isLast) (index s)))
    | Some false => (Rejected, index s)
    | None => (Waiting, index s)
    end
  else (Rejected, db o).

End Client.

(** What holds of a pool of [n] tasks at every moment. *)
Record pool_inv (n concurrency : nat) (s : Client.Pool) : Prop := {
  inv_index : (Client.currentIndex s <= n)%nat;
  inv_started :
    forall i, i ∈ (Client.in_flight s ++ Client.returned s)%list ->
              (i < Client.currentIndex s)%nat;
  inv_once : NoDup ((Client.in_flight s ++ Client.returned s)%list);
  inv_bound : (length (Client.in_flight s) <= concurrency)%nat;
  inv_all :
    Client.aborted s = false ->
    (Client.in_flight s ++ Client.returned s)%list ≡ₚ seq 0 (Client.currentIndex s)
    /\ Client.running s = length (Client.in_flight s);
  inv_rejected : Client.aborted s = true <-> Client.settled s = Some false;
  inv_resolved :
    Client.settled s = Some true ->
    Client.in_flight s = [] /\ Client.currentIndex s = n;
  inv_progress :
    Client.settled s = None -> (0 < n)%nat -> (0 < concurrency)%nat ->
    Client.in_flight s <> [];
  inv_fill :
    Client.aborted s = false -> (Client.currentIndex s < n)%nat ->
    length (Client.in_flight s) = concurrency
}.

(** The bytes that the chunk row [c] of an upload of [file] stands for. *)
Definition bytes_of (cs : Z) (file : list Byte.byte) (c : Chunk.row)
    : list Byte.byte :=
  Client.payload cs file (Z.to_nat (Chunk.idx c)).

(** The chunk rows that [d] holds for [fileId] are chunks of [file]:
    what an earlier upload of the same file, cut in the same way and
    not run to its end, has left.  An id without chunk rows has them
    trivially. *)
Definition rows_of_file (cs : Z) (fileId : string) (file : list Byte.byte)
    (d : Db.t) : Prop :=
  forall c, c ∈ Db.chunks_of d fileId ->
    0 <= Chunk.idx c < Z.of_nat (Client.totalChunks cs file)
    /\ Chunk.size c = Z.of_nat (length (bytes_of cs file c))
    /\ is_Some (Chunk.url c).

(** What holds of an upload session on a file row that [init] has
    written on [d0], after any of its tasks have settled: the chunk
    rows of the file are those that [d0] held, which discovery
    reported, and one for each task that has returned and was not
    reported. *)
Record session_inv (cs : Z) (fileId : string) (file : list Byte.byte)
    (d0 : Db.t) (s : Client.Session) : Prop := {
  ses_pool :
    pool_inv (Client.totalChunks cs file) Client.CONCURRENCY (Client.pool s);
  ses_files : Db.files (Client.index s) = Db.files d0;
  ses_others :
    forall k, k <> fileId ->
      Db.chunks_of (Client.index s) k = Db.chunks_of d0 k;
  ses_rows :
    map Chunk.idx (Db.chunks_of (Client.index s) fileId)
    = (map Chunk.idx (Db.chunks_of d0 fileId)
       ++ map Z.of_nat
            (filter (fun i => Z.of_nat i ∉ map Chunk.idx (Db.chunks_of d0 fileId))
                    (Client.returned (Client.pool s))))%list;
  ses_sizes :
    forall c, c ∈ Db.chunks_of (Client.index s) fileId ->
      Chunk.size c = Z.of_nat (length (bytes_of cs file c))
      /\ is_Some (Chunk.url c);
  ses_sound : sound (Client.index s)
}.

Module SampleUpload.

(** A file of twelve bytes, cut in chunks of at most six; the
    attachments that the store answers for its two chunks; and a store
    that serves at their addresses the bytes that were sent. *)
Definition file : list Byte.byte := (Sample.body0 ++ Sample.body1)%list.

Definition att0 : Upload.DiscordAttachment :=
  {| Upload.att_id := "m10"; Upload.att_url := Sample.url0;
     Upload.att_filename := "chunk_f_0.bin"; Upload.att_size := 6 |}.

Definition att1 : Upload.DiscordAttachment :=
  {| Upload.att_id := "m11"; Upload.att_url := Sample.url1;
     Upload.att_filename := "chunk_f_1.bin"; Upload.att_size := 6 |}.

Definition events : list (nat * option Upload.DiscordAttachment) :=
  [(1%nat, Some att1); (0%nat, Some att0)].

Definition env : Net.Env :=
  {| Net.Date_now := fun _ => 1700000000000;
     Net.refreshDiscordUrls := fun _ _ => None;
     Net.getDiscordCDNUrl := fun _ _ => None;
     Net.fetch := fun _ u _ =>
       Some {| Net.status := 200;
               Net.body :=
                 if String.eqb u Sample.url1 then Client.payload 6 file 1
                 else Client.payload 6 file 0 |};
     Net.aborted := fun _ => false;
     Net.BACKUP_CHANNEL := None |}.

(** The index after the upload. *)
Definition uploaded : Db.t :=
  (Client.processUpload 6 "f" "t.txt" "text/plain" file true "chan"
     1700000000 events Db.empty).2.

(** An upload of the same file that was given up after its first
    chunk, and the index after the upload has been run again on it. *)
Definition interrupted : Db.t :=
  Api.run
    [Api.Init (Client.init_body "f" "t.txt" "text/plain" file) 1700000000;
     Api.Chunk "f" (JS.Int 0) (Client.payload 6 file 0) "chan" (Some att0)]
    Db.empty.

Definition resumed : Db.t :=
  (Client.processUpload 6 "f" "t.txt" "text/plain" file true "chan"
     1700000100 [(0%nat, None); (1%nat, Some att1)] interrupted).2.

End SampleUpload.

(** The [Range] header of a request that asks for everything from byte
    [s] on; no header at all asks for the whole file. *)
Definition open_range (start : option Z) : option string :=
  match start with
  | Some s => Some ("bytes=" +:+ pretty s +:+ "-")
  | None => None
  end.

(** ** The external store ([lib/discord.ts]) *)

Module Discord.

(** The requests that [bulkDeleteFromDiscord] makes. *)
Inductive Call :=
  | DELETE_message (id : string)
  | POST_bulk_delete (messages : list string).

(** What [fetch] comes to for a bulk call: a response, [ok] or not, or a
    rejected promise. *)
Inductive Answer :=
  | response (ok : bool)
  | rejected.

(** [for (let i = 0; i < l.length; i += k) out.push(l.slice(i, i + k))] *)
Definition slices {A} (k : nat) (l : list A) : list (list A) :=
  map (fun j => take k (drop (j * k) l)) (seq 0 ((length l + k - 1) / k)).

(** The fallback of one batch: waves of [limit = 5] single deletions,
    each wave awaited as a whole; a deletion that fails is logged, and
    the wave goes on. *)
Definition fallback (batch : list string) : list (list Call) :=
  map (map DELETE_message) (slices 5 batch).

(** The loop over the batches, at batch number [j]. *)
Fixpoint bulk (answer : nat -> Answer) (j : nat) (batches : list (list string))
    : list (list Call) :=
  match batches with
  | [] => []
  | batch :: rest =>
      ([POST_bulk_delete batch]
       :: match answer j with
          | response false => fallback batch
          | _ => []
          end)
      ++ bulk answer (S j) rest
  end.

(** [bulkDeleteFromDiscord(messageIds)]: the requests made, in order,
    those of one wave together; [answer j] is what the [j]-th bulk call
    comes to. *)
Definition bulkDeleteFromDiscord (answer : nat -> Answer)
    (messageIds : list string) : list (list Call) :=
  match messageIds with
  | [] => []
  | [id] => [[DELETE_message id]]
  | _ => bulk answer 0 (slices 100 messageIds)
  end.

(** The ids that a call asks to delete. *)
Definition named (c : Call) : list string :=
  match c with
  | DELETE_message id => [id]
  | POST_bulk_delete messages => messages
  end.

Definition posted (c : Call) : list string :=
  match c with
  | DELETE_message _ => []
  | POST_bulk_delete messages => messages
  end.

Definition deleted_singly (c : Call) : list string :=
  match c with
  | DELETE_message id => [id]
  | POST_bulk_delete _ => []
  end.

(** A wave is one bulk call with 1 to 100 ids, or at most 5 single
    deletions. *)
Definition well_formed (wave : list Call) : Prop :=
  (exists messages,
     wave = [POST_bulk_delete messages]
     /\ (1 <= length messages <= 100)%nat)
  \/ ((1 <= length wave <= 5)%nat
      /\ Forall (fun c => posted c = []) wave).

End Discord.

(** ** The text of the iv and the salt *)

Module Hex.

Definition value (b : Byte.byte) : Z := Z.of_N (Byte.to_N b).

(** One digit of [n.toString(16)]. *)
Definition digit (n : Z) : ascii :=
  ascii_of_nat (Z.to_nat (if n <? 10 then 48 + n else 87 + n)).

(** [b.toString(16)] for a byte. *)
Definition toString16 (b : Z) : string :=
  if b <? 16 then String (digit b) EmptyString
  else String (digit (b / 16)) (String (digit (b mod 16)) EmptyString).

(** [s.padStart(2, "0")] *)
Definition padStart2 (s : string) : string :=
  match s with
  | EmptyString => "00"
  | String c EmptyString => String "0" (String c EmptyString)
  | _ => s
  end.

(** [g(n)] of [processUpload], once [crypto.getRandomValues] has filled
    the array with [a]:
    [Array.from(a).map((b) => b.toString(16).padStart(2, "0")).join("")]. *)
Fixpoint g (a : list Byte.byte) : string :=
  match a with
  | [] => EmptyString
  | b :: a' => padStart2 (toString16 (value b)) +:+ g a'
  end.

(** A character that [.] does not match. *)
Definition is_line_terminator (c : ascii) : bool :=
  (JS.code c =? 10) || (JS.code c =? 13).

(** [text.match(/.{1,2}/g)] of the worker: the pieces, none for [null]. *)
Fixpoint pairs (s : string) : list string :=
  match s with
  | EmptyString => []
  | String c s' =>
      if is_line_terminator c then pairs s'
      else
        match s' with
        | EmptyString => [String c EmptyString]
        | String c2 s'' =>
            if is_line_terminator c2 then String c EmptyString :: pairs s''
            else String c (String c2 EmptyString) :: pairs s''
        end
  end.

(** An element of [new Uint8Array(numbers)]. *)
Definition to_Uint8 (n : JS.number) : Byte.byte :=
  match n with
  | JS.Int z => default Byte.x00 (Byte.of_N (Z.to_N (z mod 256)))
  | JS.NaN => Byte.x00
  end.

(** [new Uint8Array(text.match(/.{1,2}/g)!.map((byte) => parseInt(byte, 16)))]
    of the worker; [None] when [match] gives [null] and [map] throws. *)
Definition buffer_of (text : string) : option (list Byte.byte) :=
  match pairs text with
  | [] => None
  | ps => Some (map (fun p => to_Uint8 (JS.parseInt p (Some 16))) ps)
  end.

Fixpoint all_chars (p : ascii -> bool) (s : string) : bool :=
  match s with
  | EmptyString => true
  | String c s' => p c && all_chars p s'
  end.

Definition is_hex_char (c : ascii) : bool :=
  let n := JS.code c in
  ((48 <=? n) && (n <=? 57)) || ((97 <=? n) && (n <=? 102))
  || ((65 <=? n) && (n <=? 70)).

(** [/^[0-9a-fA-F]{24,64}$/.test(str)] *)
Definition isHex (str : string) : bool :=
  (24 <=? String.length str)%nat && (String.length str <=? 64)%nat
  && all_chars is_hex_char str.

(** [/^0+$/.test(str)] *)
Definition isAllZeros (str : string) : bool :=
  match str with
  | EmptyString => false
  | _ => all_chars (fun c => Ascii.eqb c "0") str
  end.

(** [isFileEncrypted(iv, salt)] of [file-utils.tsx]; [processDownload]
    tests the same condition. *)
Definition isFileEncrypted (iv salt : option string) : bool :=
  if negb (JS.truthy iv) || negb (JS.truthy salt) then false
  else
    let iv := default EmptyString iv in
    let salt := default EmptyString salt in
    isHex salt && negb (isAllZeros salt) && isHex iv && negb (isAllZeros iv).

Definition all_zero (a : list Byte.byte) : bool :=
  forallb (fun b => Byte.eqb b Byte.x00) a.

End Hex.

(** The row updates [ws] name message ids of [rows] only. *)
Definition writes_within (ws : list UrlWrite) (rows : list Chunk.row) : Prop :=
  forall w, w ∈ ws -> exists c, c ∈ rows /\ Chunk.message_id c = w.1.

(** ** Health of the engine ([routes/system.ts]) *)

Module System.







End System.

(** ** The search pattern ([routes/files.ts]) *)

Module Search.

Definition quote : ascii := "034"%char.

(** The [replace] of the route, which doubles every quote of the
    query. *)
Fixpoint double_quotes (query : string) : string :=
  match query with
  | EmptyString => EmptyString
  | String c s =>
      if Ascii.eqb c quote then String quote (String quote (double_quotes s))
      else String c (double_quotes s)
  end.

(** The text bound to [MATCH]: the query between quotes, its quotes
    doubled, and a star. *)
Definition pattern (query : string) : string :=
  String quote (double_quotes query +:+ String quote "*").

(** A string of the FTS5 query syntax, which is not part of the
    repository: text between quotes, in which two quotes stand for one.
    The text of the string at the head of [s], and what follows it. *)
Fixpoint string_body (s : string) : option (string * string) :=
  match s with
  | EmptyString => None
  | String c s' =>
      if Ascii.eqb c quote then
        match s' with
        | String c2 s'' =>
            if Ascii.eqb c2 quote then
              match string_body s'' with
              | Some (t, rest) => Some (String quote t, rest)
              | None => None
              end
            else Some (EmptyString, s')
        | EmptyString => Some (EmptyString, EmptyString)
        end
      else
        match string_body s' with
        | Some (t, rest) => Some (String c t, rest)
        | None => None
        end
  end.

Definition read_string (s : string) : option (string * string) :=
  match s with
  | String c s' => if Ascii.eqb c quote then string_body s' else None
  | EmptyString => None
  end.

End Search.
(** * Properties *)

(** ** Numbers written in decimal and read back *)

Section Decimal.

Local Abbreviation D x := (pretty_N_go x EmptyString).

Lemma append_cons (x : ascii) (a b : string) :
  String x a +:+ b = String x (a +:+ b).
Proof. reflexivity. Qed.

Lemma append_assoc (a b c : string) : (a +:+ b) +:+ c = a +:+ (b +:+ c).
Proof.
  induction a as [|x a IH]; [reflexivity|].
  rewrite !append_cons, IH. reflexivity.
Qed.

Lemma pretty_N_go_app (x : N) (s : string) :
  pretty_N_go x s = pretty_N_go x EmptyString +:+ s.
Proof.
  revert s. induction (N.lt_wf_0 x) as [x _ IH]. intros s.
  destruct (decide (x = 0)%N) as [->|Hx]; [reflexivity|].
  rewrite !(pretty_N_go_step x) by lia.
  assert (Hlt : (x `div` 10 < x)%N) by (apply N.div_lt; lia).
  rewrite (IH _ Hlt (String _ s)), (IH _ Hlt (String _ EmptyString)).
  rewrite append_assoc. reflexivity.
Qed.

Lemma D_step (x : N) :
  (0 < x)%N ->
  D x = D (x `div` 10)%N +:+ String (pretty_N_char (x `mod` 10)%N) EmptyString.
Proof.
  intros Hx. rewrite (pretty_N_go_step x) by exact Hx.
  apply pretty_N_go_app.
Qed.

Lemma pretty_N_char_code (d : N) :
  (d < 10)%N -> JS.code (pretty_N_char d) = 48 + Z.of_N d.
Proof.
  intros Hd.
  assert (d = 0 \/ d = 1 \/ d = 2 \/ d = 3 \/ d = 4 \/ d = 5 \/ d = 6
          \/ d = 7 \/ d = 8 \/ d = 9)%N as H by lia.
  repeat (destruct H as [->|H]; [reflexivity|]). subst. reflexivity.
Qed.

Lemma is_digit_pretty_N_char (d : N) :
  (d < 10)%N -> JS.is_digit (pretty_N_char d) = true.
Proof.
  intros Hd. unfold JS.is_digit. rewrite (pretty_N_char_code d Hd).
  apply andb_true_intro. split; [apply Z.leb_le | apply Z.leb_le]; lia.
Qed.

Lemma radix_digit_pretty_N_char (d : N) :
  (d < 10)%N -> JS.radix_digit 10 (pretty_N_char d) = Some (Z.of_N d).
Proof.
  intros Hd. unfold JS.radix_digit, JS.digit_value.
  rewrite (pretty_N_char_code d Hd).
  replace ((48 <=? 48 + Z.of_N d) && (48 + Z.of_N d <=? 57)) with true
    by (symmetry; apply andb_true_intro; split; apply Z.leb_le; lia).
  replace (48 + Z.of_N d - 48) with (Z.of_N d) by lia.
  replace (Z.of_N d <? 10) with true by (symmetry; apply Z.ltb_lt; lia).
  reflexivity.
Qed.

Lemma is_digits_app (a b : string) :
  JS.is_digits (a +:+ b) = JS.is_digits a && JS.is_digits b.
Proof.
  induction a as [|c a IH]; [reflexivity|].
  rewrite append_cons. simpl. rewrite IH. apply andb_assoc.
Qed.

Lemma is_digits_D (x : N) : JS.is_digits (D x) = true.
Proof.
  induction (N.lt_wf_0 x) as [x _ IH].
  destruct (decide (x = 0)%N) as [->|Hx]; [reflexivity|].
  rewrite D_step by lia. rewrite is_digits_app.
  rewrite (IH (x `div` 10)%N) by (apply N.div_lt; lia).
  simpl. rewrite is_digit_pretty_N_char by (apply N.mod_lt; lia).
  reflexivity.
Qed.

Lemma D_nonempty (x : N) : (0 < x)%N -> D x <> EmptyString.
Proof.
  intros Hx. rewrite D_step by exact Hx.
  destruct (D (x `div` 10)%N); discriminate.
Qed.

Lemma radix_digit_of_digit (c : ascii) :
  JS.is_digit c = true -> JS.radix_digit 10 c = Some (JS.code c - 48).
Proof.
  unfold JS.is_digit, JS.radix_digit, JS.digit_value. intros H. rewrite H.
  apply andb_prop in H as [H1 H2]. apply Z.leb_le in H1, H2.
  replace (JS.code c - 48 <? 10) with true by (symmetry; apply Z.ltb_lt; lia).
  reflexivity.
Qed.

Lemma parse_digits_app (a b : string) (acc : JS.number) :
  JS.is_digits a = true ->
  JS.parse_digits 10 (a +:+ b) acc
  = JS.parse_digits 10 b (JS.parse_digits 10 a acc).
Proof.
  revert acc. induction a as [|c a IH]; intros acc Ha; [reflexivity|].
  simpl in Ha. apply andb_prop in Ha as [Hc Ha].
  rewrite append_cons. simpl.
  rewrite (radix_digit_of_digit c Hc). apply IH. exact Ha.
Qed.

Lemma parse_digits_D (x : N) :
  JS.parse_digits 10 (D x) JS.NaN
  = if decide (x = 0)%N then JS.NaN else JS.Int (Z.of_N x).
Proof.
  induction (N.lt_wf_0 x) as [x _ IH].
  destruct (decide (x = 0)%N) as [->|Hx]; [reflexivity|].
  rewrite D_step by lia.
  rewrite parse_digits_app by apply is_digits_D.
  rewrite (IH (x `div` 10)%N) by (apply N.div_lt; lia).
  simpl. rewrite radix_digit_pretty_N_char by (apply N.mod_lt; lia).
  pose proof (N.div_mod x 10 ltac:(lia)) as Hdm.
  destruct (decide (x `div` 10 = 0)%N) as [H0|H0]; f_equal; lia.
Qed.

(** The decimal text of a number that is not negative. *)
Lemma pretty_nonneg (z : Z) :
  0 <= z ->
  pretty z = (if decide (z = 0) then "0" else D (Z.to_N z)).
Proof.
  intros Hz. destruct z as [|p|p]; [reflexivity| |lia].
  rewrite decide_False by discriminate.
  unfold pretty, pretty_Z, pretty, pretty_positive, pretty, pretty_N.
  rewrite decide_False by discriminate. reflexivity.
Qed.

Lemma is_digits_pretty (z : Z) : 0 <= z -> JS.is_digits (pretty z) = true.
Proof.
  intros Hz. rewrite pretty_nonneg by exact Hz.
  destruct (decide (z = 0)); [reflexivity | apply is_digits_D].
Qed.

Lemma pretty_nonempty (z : Z) : 0 <= z -> pretty z <> EmptyString.
Proof.
  intros Hz. rewrite pretty_nonneg by exact Hz.
  destruct (decide (z = 0)); [discriminate | apply D_nonempty; lia].
Qed.

Lemma parse_digits_pretty (z : Z) :
  0 <= z -> JS.parse_digits 10 (pretty z) JS.NaN = JS.Int z.
Proof.
  intros Hz. rewrite pretty_nonneg by exact Hz.
  destruct (decide (z = 0)) as [->|Hnz]; [reflexivity|].
  rewrite parse_digits_D. rewrite decide_False by lia. f_equal. lia.
Qed.

Lemma digit_not_special (c : ascii) :
  JS.is_digit c = true ->
  JS.is_white_space c = false
  /\ Ascii.eqb c "-" = false /\ Ascii.eqb c "+" = false
  /\ Ascii.eqb c "x" = false /\ Ascii.eqb c "X" = false.
Proof.
  unfold JS.is_digit, JS.is_white_space. intros H.
  apply andb_prop in H as [H1 H2]. apply Z.leb_le in H1, H2.
  repeat split.
  - apply orb_false_intro; [apply Z.eqb_neq; lia|].
    apply andb_false_intro2. apply Z.leb_gt. lia.
  - apply Ascii.eqb_neq. intros ->. vm_compute in H1. congruence.
  - apply Ascii.eqb_neq. intros ->. vm_compute in H1. congruence.
  - apply Ascii.eqb_neq. intros ->. vm_compute in H2. congruence.
  - apply Ascii.eqb_neq. intros ->. vm_compute in H2. congruence.
Qed.

(** [parseInt] reads back the decimal text of a number that is not
    negative, with radix 10 and with no radix. *)
Lemma parseInt_pretty (z : Z) (radix : option Z) :
  0 <= z -> radix = None \/ radix = Some 10 ->
  JS.parseInt (pretty z) radix = JS.Int z.
Proof.
  intros Hz Hr.
  pose proof (is_digits_pretty z Hz) as Hd.
  pose proof (pretty_nonempty z Hz) as Hne.
  pose proof (parse_digits_pretty z Hz) as Hp.
  destruct (pretty z) as [|c s]; [congruence|].
  simpl in Hd. apply andb_prop in Hd as [Hc Hs].
  destruct (digit_not_special c Hc) as (Hw & Hm & Hpl & _).
  unfold JS.parseInt. simpl JS.trim_start. rewrite Hw.
  unfold JS.strip_sign. rewrite Hm, Hpl.
  assert (Hhex : JS.strip_hex_prefix (String c s) = None).
  { destruct s as [|c2 s']; [reflexivity|]. simpl in Hs.
    apply andb_prop in Hs as [Hc2 _].
    destruct (digit_not_special c2 Hc2) as (_ & _ & _ & Hx & HX).
    simpl. rewrite Hx, HX, andb_false_r. reflexivity. }
  destruct Hr as [-> | ->]; simpl default; cbv beta iota.
  - change (negb (0 =? 0) && ((0 <? 2) || (36 <? 0))) with false.
    cbv iota. change ((0 =? 0) || (0 =? 16)) with true. cbv iota.
    rewrite Hhex. change (if 0 =? 0 then 10 else 0) with 10.
    rewrite Hp. reflexivity.
  - change (negb (10 =? 0) && ((10 <? 2) || (36 <? 10))) with false.
    cbv iota. change ((10 =? 0) || (10 =? 16)) with false. cbv iota.
    change (if 10 =? 0 then 10 else 10) with 10.
    rewrite Hp. reflexivity.
Qed.

(** A negative number is written with its sign and read back with it. *)
Lemma pretty_neg (q : positive) : pretty (Zneg q) = "-" +:+ pretty (Zpos q).
Proof. reflexivity. Qed.

Lemma parseInt_pretty_Z (z : Z) : JS.parseInt (pretty z) (Some 10) = JS.Int z.
Proof.
  destruct (decide (0 <= z)) as [Hz|Hz]; [apply parseInt_pretty; auto|].
  destruct z as [|q|q]; [lia|lia|].
  rewrite pretty_neg.
  pose proof (parse_digits_pretty (Zpos q) ltac:(lia)) as Hp.
  change ("-" +:+ pretty (Z.pos q)) with (String "-" (pretty (Z.pos q))).
  unfold JS.parseInt.
  change (JS.trim_start (String "-" (pretty (Z.pos q))))
    with (String "-" (pretty (Z.pos q))).
  change (JS.strip_sign (String "-" (pretty (Z.pos q))))
    with (true, pretty (Z.pos q)).
  cbv beta iota. simpl default.
  change (negb (10 =? 0) && ((10 <? 2) || (36 <? 10))) with false.
  cbv iota. change ((10 =? 0) || (10 =? 16)) with false. cbv iota.
  change (if 10 =? 0 then 10 else 10) with 10.
  rewrite Hp. reflexivity.
Qed.

Lemma pretty_Z_nonempty (z : Z) : pretty z <> EmptyString.
Proof.
  destruct (decide (0 <= z)) as [Hz|Hz]; [apply pretty_nonempty; exact Hz|].
  destruct z as [|q|q]; [lia|lia|]. rewrite pretty_neg. discriminate.
Qed.

(** [X-Chunk-Number] counts from 1: the header of chunk [i] names it. *)
Lemma chunkIndex_of_header_pretty (i : Z) :
  0 <= i -> Upload.chunkIndex_of_header (pretty (i + 1)) = JS.Int i.
Proof.
  intros Hi. unfold Upload.chunkIndex_of_header.
  rewrite parseInt_pretty by (auto; lia). simpl. f_equal. lia.
Qed.

End Decimal.

(** ** Facts about the index *)

Section DbFacts.

Implicit Types (d : Db.t) (c : Chunk.row) (fileId : string).

Lemma files_delete_same_id d fileId :
  Db.files (Db.delete_files (Upload.same_id fileId) d)
  = delete fileId (Db.files d).
Proof.
  apply map_eq; intros k. simpl.
  destruct (decide (k = fileId)) as [->|Hne].
  - rewrite lookup_delete_eq. apply map_lookup_filter_None. right.
    intros x _. simpl. unfold Upload.same_id.
    rewrite bool_decide_eq_true_2; [discriminate | reflexivity].
  - rewrite lookup_delete_ne by congruence.
    destruct (Db.files d !! k) as [x|] eqn:Hk.
    + apply map_lookup_filter_Some. split; [assumption|]. simpl.
      unfold Upload.same_id. apply bool_decide_eq_false_2. assumption.
    + apply map_lookup_filter_None. left. assumption.
Qed.

(** A delete from [files] leaves every chunk row. *)
Lemma chunks_delete_files P d :
  Db.chunks (Db.delete_files P d) = Db.chunks d.
Proof. reflexivity. Qed.

Lemma chunks_of_delete_files P d fileId :
  Db.chunks_of (Db.delete_files P d) fileId = Db.chunks_of d fileId.
Proof. reflexivity. Qed.

Lemma chunks_of_delete_chunks P d fileId :
  (forall c, Chunk.file_id c = fileId -> P c = true) ->
  Db.chunks_of (Db.delete_chunks P d) fileId = [].
Proof.
  intros HP. unfold Db.chunks_of. simpl.
  induction (Db.chunks d) as [|c l IH]; [reflexivity|].
  rewrite (filter_cons (fun c => P c = false)).
  destruct (decide (P c = false)) as [Hc|Hc]; [|exact IH].
  rewrite filter_cons.
  destruct (decide (Chunk.file_id c = fileId)) as [He|Hne]; [|exact IH].
  rewrite (HP c He) in Hc. discriminate.
Qed.

Lemma chunks_at_nil d fileId i :
  Db.chunks_of d fileId = [] -> Db.chunks_at d fileId i = [].
Proof.
  unfold Db.chunks_of, Db.chunks_at. intros Hnil.
  destruct (filter (Db.at_index fileId i) (Db.chunks d)) as [|c l] eqn:Hf;
    [reflexivity|].
  assert (Hc : c ∈ filter (Db.at_index fileId i) (Db.chunks d))
    by (rewrite Hf; left).
  apply list_elem_of_filter in Hc as [[Hfile _] Hin].
  exfalso. exact (filter_nil_not_elem_of _ _ c Hnil Hfile Hin).
Qed.

Lemma trashed_in_ids d fileId :
  Files.is_trashed d fileId = true ->
  fileId ∈ map fst (filter (fun kv => File.status kv.2 = File.trashed)
                           (map_to_list (Db.files d))).
Proof.
  unfold Files.is_trashed. intros H.
  destruct (Db.files d !! fileId) as [r|] eqn:Hr; [|discriminate].
  apply bool_decide_eq_true_1 in H.
  apply (list_elem_of_fmap_2 fst _ (fileId, r)).
  apply list_elem_of_filter. split; [exact H|].
  apply elem_of_map_to_list. exact Hr.
Qed.

Lemma set_status_absent d fileId st :
  Db.get_file d fileId = None -> Db.set_status fileId st d = d.
Proof.
  unfold Db.get_file, Db.set_status. intros H. destruct d as [fs cs sq].
  simpl in *. f_equal. apply map_eq; intros k.
  rewrite lookup_alter. case_decide; [subst; rewrite H|]; reflexivity.
Qed.

Lemma set_status_present d fileId st r :
  Db.get_file d fileId = Some r ->
  Db.files (Db.set_status fileId st d)
  = <[fileId := Db.with_status st r]> (Db.files d).
Proof.
  unfold Db.get_file. intros H. simpl. apply map_eq; intros k.
  rewrite lookup_alter, lookup_insert.
  case_decide; [subst; rewrite H|]; reflexivity.
Qed.

End DbFacts.

(** ** The upload state machine *)

Section UploadProperties.

Implicit Types (d : Db.t) (fileId : string) (body : Upload.InitBody).

Lemma insert_pending_fresh fileId nm sz body now d :
  Db.files d !! fileId = None ->
  Upload.insert_pending fileId nm sz body now d
  = {| reply := success null;
       db := {| Db.files := <[fileId := Upload.pending_row nm sz body now]> (Db.files d);
                Db.chunks := Db.chunks d;
                Db.seq := Db.seq d |};
       tasks := [] |}.
Proof.
  intros H. unfold Upload.insert_pending, Db.insert_file. rewrite H.
  reflexivity.
Qed.

(** [init] on a row that is not active: the pending row takes its
    place, and the chunk rows stay. *)
Lemma init_replaces body now d fileId nm sz r :
  Upload.id body = Some fileId -> fileId <> EmptyString ->
  Upload.name body = Some nm -> nm <> EmptyString ->
  Upload.size body = Some sz ->
  Db.get_file d fileId = Some r -> File.status r <> File.active ->
  Upload.init body now d
  = {| reply := success null;
       db :=
         {| Db.files :=
              <[fileId := Upload.pending_row nm sz body now]> (Db.files d);
            Db.chunks := Db.chunks d;
            Db.seq := Db.seq d |};
       tasks := [] |}.
Proof.
  intros Hid Hne Hnm Hnne Hsz Hr Hst. unfold Upload.init.
  rewrite Hid, Hnm, Hsz.
  destruct fileId as [|a i]; [congruence|].
  destruct nm as [|b n]; [congruence|].
  rewrite Hr, decide_False by exact Hst.
  rewrite insert_pending_fresh.
  - rewrite files_delete_same_id, insert_delete_eq. reflexivity.
  - rewrite files_delete_same_id. apply lookup_delete_eq.
Qed.

Lemma init_absent body now d fileId nm sz :
  Upload.id body = Some fileId -> fileId <> EmptyString ->
  Upload.name body = Some nm -> nm <> EmptyString ->
  Upload.size body = Some sz ->
  Db.get_file d fileId = None ->
  Upload.init body now d
  = {| reply := success null;
       db :=
         {| Db.files :=
              <[fileId := Upload.pending_row nm sz body now]> (Db.files d);
            Db.chunks := Db.chunks d;
            Db.seq := Db.seq d |};
       tasks := [] |}.
Proof.
  intros Hid Hne Hnm Hnne Hsz Hget. unfold Upload.init.
  rewrite Hid, Hnm, Hsz.
  destruct fileId as [|a i]; [congruence|].
  destruct nm as [|b n]; [congruence|].
  rewrite Hget. apply insert_pending_fresh. exact Hget.
Qed.

(** C6.  [init] with a body that has an id, a name and a size.  On an
    active row with that id it answers 409 and leaves the index as it
    is.  Otherwise (no row with the id, or a row that is pending, or in
    another status such as trashed) it answers success, and the row
    found at the id afterwards is pending and holds the name, the size,
    the type, the iv and the salt of the body and the time of the
    insert, whatever the row before held; the rows of the other files,
    every chunk row (those of the replaced row too) and the sequence
    are as before. *)
Theorem init_by_status body now d fileId nm sz :
  Upload.id body = Some fileId -> fileId <> EmptyString ->
  Upload.name body = Some nm -> nm <> EmptyString ->
  Upload.size body = Some sz ->
  let o := Upload.init body now d in
  (forall existing,
     Db.get_file d fileId = Some existing ->
     File.status existing = File.active ->
     o = {| reply := error "File ID already exists and is active" 409;
            db := d; tasks := [] |})
  /\ ((forall existing,
         Db.get_file d fileId = Some existing ->
         File.status existing <> File.active) ->
      reply o = success null
      /\ tasks o = []
      /\ (exists r,
            Db.get_file (db o) fileId = Some r
            /\ File.status r = File.pending
            /\ File.name r = nm
            /\ File.size r = sz
            /\ File.type r
               = Some (JS.or_else (Upload.type body) "application/octet-stream")
            /\ File.iv r = JS.or_else (Upload.iv body) ""
            /\ File.salt r = JS.or_else (Upload.salt body) ""
            /\ File.created_at r = now)
      /\ (forall k, k <> fileId -> Db.get_file (db o) k = Db.get_file d k)
      /\ Db.chunks (db o) = Db.chunks d
      /\ Db.seq (db o) = Db.seq d).
Proof.
  intros Hid Hne Hnm Hnne Hsz o. split.
  - intros existing Hget Hst. unfold o, Upload.init. rewrite Hid, Hnm, Hsz.
    destruct fileId as [|a i]; [congruence|].
    destruct nm as [|b n]; [congruence|].
    rewrite Hget, decide_True by exact Hst. reflexivity.
  - intros Hst.
    assert (Ho : o = {| reply := success null;
                        db :=
                          {| Db.files :=
                               <[fileId := Upload.pending_row nm sz body now]>
                                 (Db.files d);
                             Db.chunks := Db.chunks d;
                             Db.seq := Db.seq d |};
                        tasks := [] |}).
    { destruct (Db.get_file d fileId) as [existing|] eqn:Hget.
      - apply (init_replaces body now d fileId nm sz existing); try assumption.
        apply Hst. reflexivity.
      - apply init_absent; assumption. }
    rewrite Ho. cbn [reply tasks db Db.chunks Db.seq].
    split; [reflexivity|]. split; [reflexivity|]. split.
    + exists (Upload.pending_row nm sz body now).
      split; [unfold Db.get_file; cbn [Db.files]; apply lookup_insert_eq|].
      repeat split.
    + split; [|split; reflexivity].
      intros k Hk. unfold Db.get_file. cbn [Db.files].
      apply lookup_insert_ne. congruence.
Qed.

(** C10.  [finalize] answers success whatever the index holds.  With no
    row for the id the index is unchanged.  A row in any status
    (trashed as well as pending) is found active afterwards, with its
    other columns as they were; the other file rows and the chunk rows
    are as before. *)
Theorem finalize_unconditional fileId skip_backup d :
  let o := Upload.finalize fileId skip_backup d in
  reply o = success null
  /\ Db.chunks (db o) = Db.chunks d
  /\ (forall k, k <> fileId -> Db.get_file (db o) k = Db.get_file d k)
  /\ match Db.get_file d fileId with
     | None => db o = d
     | Some r =>
         exists r',
           Db.get_file (db o) fileId = Some r'
           /\ File.status r' = File.active
           /\ File.name r' = File.name r
           /\ File.size r' = File.size r
           /\ File.type r' = File.type r
           /\ File.iv r' = File.iv r
           /\ File.salt r' = File.salt r
           /\ File.created_at r' = File.created_at r
     end.
Proof.
  intros o. split; [reflexivity|]. split; [reflexivity|]. split.
  - intros k Hk. unfold o, Db.get_file. cbn [Upload.finalize db].
    cbn [Db.set_status Db.files]. rewrite lookup_alter.
    rewrite decide_False by congruence. reflexivity.
  - destruct (Db.get_file d fileId) as [r|] eqn:Hget.
    + exists (Db.with_status File.active r). split; [|repeat split].
      unfold o, Db.get_file. cbn [Upload.finalize db].
      rewrite (set_status_present d fileId File.active r Hget).
      apply lookup_insert_eq.
    + apply set_status_absent. exact Hget.
Qed.

End UploadProperties.

(** ** Abort, and the deletes of file rows *)

Section RemovalProperties.

Implicit Types (d : Db.t) (fileId : string).

Lemma filter_all {A} (P : A -> Prop) `{forall x, Decision (P x)} (l : list A) :
  (forall x, x ∈ l -> P x) -> filter P l = l.
Proof.
  induction l as [|x l IH]; intros Hall; [reflexivity|].
  rewrite filter_cons_True by (apply Hall; left).
  f_equal. apply IH. intros y Hy. apply Hall. right. exact Hy.
Qed.

Lemma delete_files_none P d :
  (forall k r, Db.files d !! k = Some r -> P k r = false) ->
  Db.delete_files P d = d.
Proof.
  intros HP. destruct d as [fs cs sq]. unfold Db.delete_files. simpl in *.
  f_equal.
  apply map_filter_id. intros k r Hk. simpl. apply (HP k r Hk).
Qed.

(** What [abort] does on a file that is not pending: the rows stay, and
    the external records of its chunks are given to the bulk delete all
    the same, because the chunks are selected by [file_id] alone. *)
Lemma abort_not_pending d fileId :
  Db.is_pending d fileId = false ->
  Upload.abort fileId d
  = {| reply := success null;
       db := d;
       tasks :=
         match Db.chunks_of d fileId with
         | [] => []
         | c :: l =>
             [bulkDeleteFromDiscord (map Chunk.message_id (c :: l))]
         end |}.
Proof.
  intros Hp. unfold Upload.abort. f_equal.
  - apply delete_files_none. intros k r Hk. unfold Upload.pending_with_id.
    destruct (decide (k = fileId)) as [->|Hne].
    + unfold Db.is_pending in Hp. rewrite Hk in Hp. rewrite Hp.
      apply andb_false_r.
    + rewrite (bool_decide_eq_false_2 _ Hne). reflexivity.
  - destruct (Db.chunks_of d fileId); reflexivity.
Qed.

(** C7.  [abort] on an active file with one stored chunk: the file row
    and the chunk row stay as they are, and the message of the chunk is
    handed to the bulk delete of the external store. *)
Theorem abort_active_deletes_external_records :
  Upload.abort "a" (Sample.one_file File.active)
  = {| reply := success null;
       db := Sample.one_file File.active;
       tasks := [bulkDeleteFromDiscord ["m1"]] |}.
Proof. apply abort_not_pending. reflexivity. Qed.

(** On a pending file [abort] removes the file row and hands the
    messages of the chunks to the bulk delete, but the chunk rows stay:
    a second call finds them and hands the same messages to the bulk
    delete again. *)
Lemma abort_pending_then_again d fileId :
  Db.is_pending d fileId = true ->
  Db.get_file (db (Upload.abort fileId d)) fileId = None
  /\ Db.chunks (db (Upload.abort fileId d)) = Db.chunks d
  /\ Upload.abort fileId (db (Upload.abort fileId d))
     = {| reply := success null; db := db (Upload.abort fileId d);
          tasks := tasks (Upload.abort fileId d) |}.
Proof.
  intros Hp. unfold Db.is_pending in Hp.
  destruct (Db.files d !! fileId) as [r|] eqn:Hr; [|discriminate].
  assert (Hsel : Upload.pending_with_id fileId fileId r = true).
  { unfold Upload.pending_with_id. rewrite Hp.
    rewrite bool_decide_eq_true_2 by reflexivity. reflexivity. }
  assert (Hgone : Db.get_file (db (Upload.abort fileId d)) fileId = None).
  { unfold Db.get_file. simpl. apply map_lookup_filter_None. right.
    intros x Hx. simpl. rewrite Hr in Hx. injection Hx as <-.
    rewrite Hsel. discriminate. }
  split; [exact Hgone|]. split; [reflexivity|].
  rewrite abort_not_pending.
  - f_equal. unfold Upload.abort. cbn [db tasks].
    rewrite chunks_of_delete_files.
    destruct (Db.chunks_of d fileId); reflexivity.
  - unfold Db.is_pending. unfold Db.get_file in Hgone. rewrite Hgone.
    reflexivity.
Qed.

(** C8.  Of the five operations that delete a file row, three leave
    the chunk rows of the file in the table: the abort of a pending
    file, the delete of a file that is not active, and the replacement
    of a row that is not active by [init] all delete from [files]
    alone, and the foreign key that would take the chunk rows with the
    file row is not enforced.  The emptying of the trash and the purge
    of the pending files delete the chunk rows themselves, and leave
    none. *)
Theorem file_removal_leaves_chunk_rows d fileId r :
  Db.get_file d fileId = Some r ->
  (File.status r = File.pending ->
   Db.get_file (db (Upload.abort fileId d)) fileId = None
   /\ Db.chunks_of (db (Upload.abort fileId d)) fileId = Db.chunks_of d fileId)
  /\ (File.status r <> File.active ->
      Db.get_file (db (Files.delete fileId d)) fileId = None
      /\ Db.chunks_of (db (Files.delete fileId d)) fileId
         = Db.chunks_of d fileId)
  /\ (File.status r <> File.active ->
      forall body now nm sz,
        Upload.id body = Some fileId -> fileId <> EmptyString ->
        Upload.name body = Some nm -> nm <> EmptyString ->
        Upload.size body = Some sz ->
        reply (Upload.init body now d) = success null
        /\ Db.chunks_of (db (Upload.init body now d)) fileId
           = Db.chunks_of d fileId)
  /\ (File.status r = File.trashed ->
      Db.get_file (db (Files.empty_trash d)) fileId = None
      /\ Db.chunks_of (db (Files.empty_trash d)) fileId = [])
  /\ (File.status r = File.pending ->
      Db.get_file (db (Upload.purge_pending d)) fileId = None
      /\ Db.chunks_of (db (Upload.purge_pending d)) fileId = []).
Proof.
  intros Hr. unfold Db.get_file in Hr.
  split; [|split; [|split; [|split]]].
  - intros Hst.
    assert (Hp : Db.is_pending d fileId = true).
    { unfold Db.is_pending. rewrite Hr. apply bool_decide_eq_true_2, Hst. }
    destruct (abort_pending_then_again d fileId Hp) as (H1 & _ & _).
    split; [exact H1 | reflexivity].
  - intros Hst. unfold Files.delete, Db.get_file. rewrite Hr.
    rewrite decide_False by exact Hst. cbn [db]. split; [|reflexivity].
    rewrite files_delete_same_id. apply lookup_delete_eq.
  - intros Hst body now nm sz Hid Hne Hnm Hnne Hsz.
    rewrite (init_replaces body now d fileId nm sz r) by assumption.
    split; reflexivity.
  - intros Hst.
    assert (Ht : Files.is_trashed d fileId = true).
    { unfold Files.is_trashed. rewrite Hr. apply bool_decide_eq_true_2, Hst. }
    pose proof (trashed_in_ids d fileId Ht) as Hin.
    unfold Files.empty_trash.
    rewrite decide_False.
    2:{ intros Hlen. apply length_zero_iff_nil in Hlen. rewrite Hlen in Hin.
        inversion Hin. }
    simpl. split.
    + unfold Db.get_file. simpl. apply map_lookup_filter_None. right.
      intros x _. simpl. rewrite bool_decide_eq_true_2 by exact Hin.
      discriminate.
    + apply chunks_of_delete_chunks. intros c Hc. rewrite Hc.
      apply bool_decide_eq_true_2. exact Hin.
  - intros Hst.
    assert (Hp : Db.is_pending d fileId = true).
    { unfold Db.is_pending. rewrite Hr. apply bool_decide_eq_true_2, Hst. }
    unfold Upload.purge_pending. cbn [db]. split.
    + unfold Db.get_file. simpl. apply map_lookup_filter_None. right.
      intros x Hx. simpl. rewrite Hr in Hx. injection Hx as <-.
      unfold Upload.is_pending_row.
      rewrite bool_decide_eq_true_2 by exact Hst. discriminate.
    + rewrite chunks_of_delete_files.
      apply chunks_of_delete_chunks. intros c Hc. rewrite Hc. exact Hp.
Qed.

End RemovalProperties.

(** ** Chunk upload *)

Section ChunkProperties.

Variables (fileId : string) (chunkIndex : Z) (channelId : string).

Implicit Types (d : Db.t) (buffer : list Byte.byte)
  (att : Upload.DiscordAttachment).

Local Abbreviation here := (Db.at_index fileId chunkIndex).
Local Abbreviation stored := (Upload.stored fileId chunkIndex channelId).

Lemma filter_not_here_id (l : list Chunk.row) :
  filter here l = [] -> filter (fun c => ~ here c) l = l.
Proof.
  intros H. apply filter_all. intros c Hc Hh.
  eapply filter_nil_not_elem_of; eauto.
Qed.

Lemma delete_here_chunks d :
  Db.chunks
    (Db.delete_chunks (fun c => bool_decide (here c)) d)
  = filter (fun c => ~ here c) (Db.chunks d).
Proof.
  simpl. apply list_filter_iff. intros c.
  rewrite bool_decide_eq_false. tauto.
Qed.

Lemma chunk_begin_pending d buffer :
  Db.is_pending d fileId = true -> buffer <> [] ->
  Upload.chunk_begin fileId chunkIndex buffer d
  = inr ({| Db.files := Db.files d;
            Db.chunks := filter (fun c => ~ here c) (Db.chunks d);
            Db.seq := Db.seq d |},
         match Db.chunks_at d fileId chunkIndex with
         | existingChunk :: _ =>
             [bulkDeleteFromDiscord [Chunk.message_id existingChunk]]
         | [] => []
         end).
Proof.
  intros Hp Hne. unfold Upload.chunk_begin.
  rewrite decide_False by (destruct buffer; [congruence|discriminate]).
  rewrite Hp. simpl.
  destruct (Db.chunks_at d fileId chunkIndex) as [|c l] eqn:Hat.
  - f_equal. f_equal. destruct d as [fs cs sq]. simpl. f_equal.
    symmetry. apply filter_not_here_id. exact Hat.
  - f_equal. f_equal. unfold Db.delete_chunks. f_equal.
    apply (delete_here_chunks d).
Qed.

(** A chunk upload on a pending file, with a body that is not empty and
    an external upload that succeeds. *)
Lemma chunk_ok d buffer att :
  Db.is_pending d fileId = true -> buffer <> [] ->
  Upload.chunk fileId chunkIndex buffer channelId (Some att) d
  = {| reply := success (messageId (Upload.att_id att));
       db := {| Db.files := Db.files d;
                Db.chunks :=
                  filter (fun c => ~ here c) (Db.chunks d)
                  ++ [stored buffer att d];
                Db.seq := Db.seq d + 1 |};
       tasks :=
         match Db.chunks_at d fileId chunkIndex with
         | existingChunk :: _ =>
             [bulkDeleteFromDiscord [Chunk.message_id existingChunk]]
         | [] => []
         end |}.
Proof.
  intros Hp Hne. unfold Upload.chunk.
  rewrite (chunk_begin_pending d buffer Hp Hne).
  unfold Upload.chunk_end, Db.is_pending, Db.insert_chunk. simpl.
  unfold Db.is_pending in Hp.
  destruct (Db.files d !! fileId) as [r|]; [|discriminate].
  rewrite Hp. simpl. rewrite app_nil_r. reflexivity.
Qed.

Lemma filter_here_not_here (l : list Chunk.row) :
  filter here (filter (fun c => ~ here c) l) = [].
Proof.
  induction l as [|c l IH]; [reflexivity|].
  rewrite (filter_cons (fun c => ~ here c)).
  destruct (decide (~ here c)) as [Hn|Hn]; [|exact IH].
  rewrite filter_cons_False by exact Hn. exact IH.
Qed.

Lemma chunks_at_after d buffer att :
  Db.chunks_at
    {| Db.files := Db.files d;
       Db.chunks := filter (fun c => ~ here c) (Db.chunks d)
                    ++ [stored buffer att d];
       Db.seq := Db.seq d + 1 |} fileId chunkIndex
  = [stored buffer att d].
Proof.
  unfold Db.chunks_at. simpl. rewrite filter_app.
  fold here. rewrite filter_here_not_here. simpl.
  rewrite filter_cons_True by (split; reflexivity). reflexivity.
Qed.

Lemma filter_filter_length {A} (P Q : A -> Prop)
    `{forall x, Decision (P x)} `{forall x, Decision (Q x)} (l : list A) :
  (length (filter P (filter Q l)) <= length (filter P l))%nat.
Proof.
  induction l as [|x l IH]; [simpl; lia|].
  rewrite (filter_cons Q). destruct (decide (Q x)).
  - rewrite !filter_cons. destruct (decide (P x)); simpl; lia.
  - rewrite filter_cons. destruct (decide (P x)); simpl; lia.
Qed.

Lemma unique_idx_during d :
  Db.unique_idx d ->
  Db.unique_idx {| Db.files := Db.files d;
                   Db.chunks := filter (fun c => ~ here c) (Db.chunks d);
                   Db.seq := Db.seq d |}.
Proof.
  intros Hu f i. unfold Db.chunks_at. simpl.
  etransitivity; [apply filter_filter_length|]. apply Hu.
Qed.

Lemma unique_idx_after d buffer att :
  Db.unique_idx d ->
  Db.unique_idx {| Db.files := Db.files d;
                   Db.chunks := filter (fun c => ~ here c) (Db.chunks d)
                                ++ [stored buffer att d];
                   Db.seq := Db.seq d + 1 |}.
Proof.
  intros Hu f i.
  destruct (decide (f = fileId /\ i = chunkIndex)) as [[-> ->]|Hne].
  - rewrite chunks_at_after. simpl. lia.
  - unfold Db.chunks_at. simpl. rewrite filter_app, length_app.
    rewrite filter_cons_False
      by (intros [H1 H2]; simpl in H1, H2; apply Hne; split; congruence).
    simpl. rewrite Nat.add_0_r.
    etransitivity; [apply filter_filter_length|]. apply Hu.
Qed.

Lemma is_pending_files d d' :
  Db.files d' = Db.files d -> Db.is_pending d' fileId = Db.is_pending d fileId.
Proof. unfold Db.is_pending. intros ->. reflexivity. Qed.

(** One step of [Upload.uploads] on a pending file. *)
Lemma uploads_cons buffer att rest d :
  Db.is_pending d fileId = true -> buffer <> [] ->
  let during :=
    {| Db.files := Db.files d;
       Db.chunks := filter (fun c => ~ here c) (Db.chunks d);
       Db.seq := Db.seq d |} in
  let d' :=
    {| Db.files := Db.files d;
       Db.chunks := filter (fun c => ~ here c) (Db.chunks d)
                    ++ [stored buffer att d];
       Db.seq := Db.seq d + 1 |} in
  Upload.uploads fileId chunkIndex channelId ((buffer, att) :: rest) d
  = (during,
     {| reply := success (messageId (Upload.att_id att));
        db := d';
        tasks :=
          match Db.chunks_at d fileId chunkIndex with
          | existingChunk :: _ =>
              [bulkDeleteFromDiscord [Chunk.message_id existingChunk]]
          | [] => []
          end |})
    :: Upload.uploads fileId chunkIndex channelId rest d'.
Proof.
  intros Hp Hne during d'. cbn [Upload.uploads].
  rewrite (chunk_begin_pending d buffer Hp Hne).
  rewrite (chunk_ok d buffer att Hp Hne). reflexivity.
Qed.

Lemma uploads_facts calls d :
  Db.is_pending d fileId = true ->
  Forall (fun call => call.1 <> []) calls ->
  let trace := Upload.uploads fileId chunkIndex channelId calls d in
  map (fun s => reply s.2) trace
  = map (fun call => success (messageId (Upload.att_id call.2))) calls
  /\ (forall buffer att, last calls = Some (buffer, att) ->
      exists s row,
        last trace = Some s
        /\ Db.chunks_at (db s.2) fileId chunkIndex = [row]
        /\ Chunk.size row = Z.of_nat (length buffer)
        /\ Chunk.message_id row = Upload.att_id att)
  /\ (forall k call s,
      calls !! k = Some call -> trace !! S k = Some s ->
      tasks s.2 = [bulkDeleteFromDiscord [Upload.att_id call.2]])
  /\ (Db.unique_idx d ->
      Forall (fun s => Db.unique_idx s.1 /\ Db.unique_idx (db s.2)) trace).
Proof.
  revert d. induction calls as [|[buffer att] rest IH]; intros d Hp Hall.
  - simpl. repeat split; [discriminate | intros k call s Hk; discriminate
                         | constructor].
  - inversion Hall as [|? ? Hne Hrest]; subst. simpl in Hne.
    cbv zeta. rewrite (uploads_cons buffer att rest d Hp Hne).
    set (d' := {| Db.files := Db.files d;
                  Db.chunks := filter (fun c => ~ here c) (Db.chunks d)
                               ++ [stored buffer att d];
                  Db.seq := Db.seq d + 1 |}).
    assert (Hp' : Db.is_pending d' fileId = true)
      by (rewrite (is_pending_files d d' eq_refl); exact Hp).
    assert (Hat : Db.chunks_at d' fileId chunkIndex = [stored buffer att d])
      by apply chunks_at_after.
    destruct (IH d' Hp' Hrest) as (IHr & IHl & IHt & IHu).
    split; [|split; [|split]].
    + simpl. f_equal. exact IHr.
    + intros b a Hlast. destruct rest as [|call' rest'].
      * simpl in Hlast. injection Hlast as <- <-.
        eexists _, (stored buffer att d). split; [reflexivity|].
        split; [exact Hat|]. split; reflexivity.
      * destruct (IHl b a Hlast) as (s & row & Hs & Hrow).
        exists s, row. split; [|exact Hrow].
        destruct call' as [b' a'].
        rewrite (uploads_cons b' a' rest' d' Hp') in Hs |- *
          by (inversion Hrest; assumption).
        exact Hs.
    + intros k call s Hk Hs. destruct k as [|k].
      * simpl in Hk. injection Hk as <-. simpl in Hs.
        destruct rest as [|[b' a'] rest']; [discriminate|].
        rewrite (uploads_cons b' a' rest' d' Hp') in Hs
          by (inversion Hrest; assumption).
        simpl in Hs. injection Hs as <-. simpl. rewrite Hat. reflexivity.
      * simpl in Hk, Hs. exact (IHt k call s Hk Hs).
    + intros Hu. constructor.
      * simpl. split; [apply unique_idx_during | apply unique_idx_after];
          exact Hu.
      * apply IHu. apply unique_idx_after. exact Hu.
Qed.

(** C3.  [N >= 1] uploads at the same [(fileId, chunkIndex)] of a pending
    file, one after the other, each with a body that is not empty and an
    external upload that succeeds: every call answers with the id of its
    message; after the last exactly one chunk row exists for the pair,
    with the size of the last body; every call after the first hands the
    message of the call before it to the bulk delete; and if the pair
    named at most one row at the start, it does so in every index met on
    the way, in flight or settled. *)
Theorem repeated_upload_keeps_one_chunk
    (calls : list (list Byte.byte * Upload.DiscordAttachment)) d :
  calls <> [] ->
  Db.is_pending d fileId = true ->
  Forall (fun call => call.1 <> []) calls ->
  let trace := Upload.uploads fileId chunkIndex channelId calls d in
  map (fun s => reply s.2) trace
  = map (fun call => success (messageId (Upload.att_id call.2))) calls
  /\ (exists buffer att s row,
        last calls = Some (buffer, att)
        /\ last trace = Some s
        /\ Db.chunks_at (db s.2) fileId chunkIndex = [row]
        /\ Chunk.size row = Z.of_nat (length buffer)
        /\ Chunk.message_id row = Upload.att_id att)
  /\ (forall k call s,
      calls !! k = Some call -> trace !! S k = Some s ->
      tasks s.2 = [bulkDeleteFromDiscord [Upload.att_id call.2]])
  /\ (Db.unique_idx d ->
      Forall (fun s => Db.unique_idx s.1 /\ Db.unique_idx (db s.2)) trace).
Proof.
  intros Hne Hp Hall trace.
  destruct (uploads_facts calls d Hp Hall) as (Hr & Hl & Ht & Hu).
  split; [exact Hr|]. split; [|split; [exact Ht | exact Hu]].
  destruct (last calls) as [[buffer att]|] eqn:Hlast.
  - destruct (Hl buffer att eq_refl) as (s & row & Hs & Hrow).
    exists buffer, att, s, row. split; [reflexivity|]. split; assumption.
  - apply last_None in Hlast. contradiction.
Qed.

(** C2.  A chunk upload whose external upload has succeeded and which
    finds, at its second check, no pending row for the file: it answers
    404, leaves the index as it found it, and hands the message it has
    just created to the bulk delete.  When the row went away through an
    [abort] that ran while the upload was in flight, no chunk row for
    the pair is left. *)
Theorem chunk_end_after_abort buffer att d :
  (Db.is_pending d fileId = false ->
   Upload.chunk_end fileId chunkIndex buffer channelId (Some att) d
   = {| reply := error "Upload aborted during transfer" 404;
        db := d;
        tasks := [bulkDeleteFromDiscord [Upload.att_id att]] |})
  /\ (Db.is_pending d fileId = true -> buffer <> [] ->
      exists d1 t1,
        Upload.chunk_begin fileId chunkIndex buffer d = inr (d1, t1)
        /\ let d2 := db (Upload.abort fileId d1) in
           let o :=
             Upload.chunk_end fileId chunkIndex buffer channelId (Some att) d2
           in
           status_of (reply o) = 404
           /\ db o = d2
           /\ Db.chunks_at (db o) fileId chunkIndex = []
           /\ tasks o = [bulkDeleteFromDiscord [Upload.att_id att]]).
Proof.
  assert (Hgen : forall d0, Db.is_pending d0 fileId = false ->
    Upload.chunk_end fileId chunkIndex buffer channelId (Some att) d0
    = {| reply := error "Upload aborted during transfer" 404;
         db := d0;
         tasks := [bulkDeleteFromDiscord [Upload.att_id att]] |}).
  { intros d0 H. unfold Upload.chunk_end. rewrite H. reflexivity. }
  split; [apply Hgen|].
  intros Hp Hne. eexists _, _. split; [apply chunk_begin_pending; assumption|].
  set (d1 := {| Db.files := Db.files d;
                Db.chunks := filter (fun c => ~ here c) (Db.chunks d);
                Db.seq := Db.seq d |}).
  assert (Hp1 : Db.is_pending d1 fileId = true)
    by (rewrite (is_pending_files d d1 eq_refl); exact Hp).
  destruct (abort_pending_then_again d1 fileId Hp1) as (Hgone & Hnc & _).
  cbv zeta. rewrite Hgen.
  - cbn [reply db tasks status_of]. repeat split.
    unfold Db.chunks_at. rewrite Hnc. apply filter_here_not_here.
  - unfold Db.is_pending. unfold Db.get_file in Hgone. rewrite Hgone.
    reflexivity.
Qed.

End ChunkProperties.

(** ** The properties at work on a small index *)

Lemma init_by_status_witness :
  (let o := Upload.init Sample.body_a 1700000001
              (Sample.one_file File.pending) in
   reply o = success null
   /\ (exists r,
         Db.get_file (db o) "a" = Some r
         /\ File.status r = File.pending
         /\ File.name r = "t.txt"
         /\ File.size r = 14
         /\ File.created_at r = 1700000001)
   /\ Db.chunks (db o) = Db.chunks (Sample.one_file File.pending))
  /\ Upload.init Sample.body_a 1700000001 (Sample.one_file File.active)
     = {| reply := error "File ID already exists and is active" 409;
          db := Sample.one_file File.active; tasks := [] |}.
Proof.
  split.
  - destruct (init_by_status Sample.body_a 1700000001
                (Sample.one_file File.pending) "a" "t.txt" 14
                eq_refl ltac:(discriminate) eq_refl ltac:(discriminate)
                eq_refl) as [_ H].
    destruct H as (Hrep & _ & (r & Hget & Hst & Hnm & Hsz & _ & _ & _ & Hnow)
                   & _ & Hch & _).
    { intros existing Hget. vm_compute in Hget. injection Hget as <-.
      discriminate. }
    split; [exact Hrep|]. split; [|exact Hch].
    exists r. repeat split; assumption.
  - destruct (init_by_status Sample.body_a 1700000001
                (Sample.one_file File.active) "a" "t.txt" 14
                eq_refl ltac:(discriminate) eq_refl ltac:(discriminate)
                eq_refl) as [H _].
    exact (H _ eq_refl eq_refl).
Defined.

Lemma finalize_unconditional_witness :
  exists r',
    Db.get_file (db (Upload.finalize "a" false (Sample.one_file File.trashed)))
                "a" = Some r'
    /\ File.status r' = File.active
    /\ File.name r' = "t.txt".
Proof.
  destruct (finalize_unconditional "a" false (Sample.one_file File.trashed))
    as (_ & _ & _ & H).
  change (Db.get_file (Sample.one_file File.trashed) "a")
    with (Some (Sample.row "t.txt" 14 File.trashed)) in H.
  destruct H as (r' & Hget & Hst & Hnm & _).
  exists r'. split; [exact Hget|]. split; [exact Hst | exact Hnm].
Defined.

Lemma file_removal_leaves_chunk_rows_witness :
  (Db.get_file (db (Upload.abort "a" (Sample.one_file File.pending))) "a" = None
   /\ Db.chunks_of (db (Upload.abort "a" (Sample.one_file File.pending))) "a"
      = [Sample.chunk 1 "a" 0 "m1" 14 (Some Sample.fresh)])
  /\ (Db.get_file (db (Files.delete "a" (Sample.one_file File.trashed))) "a"
      = None
      /\ Db.chunks_of (db (Files.delete "a" (Sample.one_file File.trashed))) "a"
         = [Sample.chunk 1 "a" 0 "m1" 14 (Some Sample.fresh)])
  /\ Db.chunks_of
       (db (Upload.init Sample.body_a 1700000001
              (Sample.one_file File.pending))) "a"
     = [Sample.chunk 1 "a" 0 "m1" 14 (Some Sample.fresh)]
  /\ Db.chunks_of (db (Files.empty_trash (Sample.one_file File.trashed))) "a"
     = []
  /\ Db.chunks_of (db (Upload.purge_pending (Sample.one_file File.pending))) "a"
     = [].
Proof.
  pose proof (file_removal_leaves_chunk_rows (Sample.one_file File.pending)
                "a" _ eq_refl) as (Ha & _ & Hi & _ & Hp).
  pose proof (file_removal_leaves_chunk_rows (Sample.one_file File.trashed)
                "a" _ eq_refl) as (_ & Hd & _ & He & _).
  split; [exact (Ha eq_refl)|].
  split; [exact (Hd ltac:(discriminate))|].
  split.
  { exact (proj2 (Hi ltac:(discriminate) Sample.body_a 1700000001 "t.txt" 14
                    eq_refl ltac:(discriminate) eq_refl ltac:(discriminate)
                    eq_refl)). }
  split; [exact (proj2 (He eq_refl)) | exact (proj2 (Hp eq_refl))].
Defined.

Lemma repeated_upload_keeps_one_chunk_witness :
  (exists s row,
     last (Upload.uploads "a" 0 "chan" SampleCalls.two
             (Sample.one_file File.pending)) = Some s
     /\ Db.chunks_at (db s.2) "a" 0 = [row]
     /\ Chunk.size row = 1
     /\ Chunk.message_id row = "m3")
  /\ (forall s,
        Upload.uploads "a" 0 "chan" SampleCalls.two
          (Sample.one_file File.pending) !! 1%nat = Some s ->
        tasks s.2 = [bulkDeleteFromDiscord ["m2"]])
  /\ Forall (fun s => Db.unique_idx s.1 /\ Db.unique_idx (db s.2))
        (Upload.uploads "a" 0 "chan" SampleCalls.two
           (Sample.one_file File.pending)).
Proof.
  destruct (repeated_upload_keeps_one_chunk "a" 0 "chan" SampleCalls.two
              (Sample.one_file File.pending)
              ltac:(discriminate) eq_refl
              ltac:(repeat constructor; discriminate))
    as (_ & (buffer & att & s & row & Hlast & Hs & Hrow & Hsize & Hmid)
        & Htasks & Hunique).
  split; [|split].
  - injection Hlast as <- <-.
    exists s, row. repeat split; assumption.
  - intros s1 Hs1.
    exact (Htasks 0%nat (Sample.hello, Sample.att "m2") s1 eq_refl Hs1).
  - apply Hunique. intros f i.
    apply (length_filter (Db.at_index f i)
             [Sample.chunk 1 "a" 0 "m1" 14 (Some Sample.fresh)]).
Defined.

Lemma chunk_end_after_abort_witness :
  Upload.chunk_end "a" 0 Sample.hello "chan" (Some (Sample.att "m2"))
    (db (Upload.abort "a" (Sample.one_file File.pending)))
  = {| reply := error "Upload aborted during transfer" 404;
       db := db (Upload.abort "a" (Sample.one_file File.pending));
       tasks := [bulkDeleteFromDiscord ["m2"]] |}
  /\ exists d1 t1,
       Upload.chunk_begin "a" 0 Sample.hello (Sample.one_file File.pending)
       = inr (d1, t1)
       /\ Db.chunks_at
            (db (Upload.chunk_end "a" 0 Sample.hello "chan"
                   (Some (Sample.att "m2")) (db (Upload.abort "a" d1))))
            "a" 0 = [].
Proof.
  split.
  - exact (proj1 (chunk_end_after_abort "a" 0 "chan" Sample.hello
                    (Sample.att "m2")
                    (db (Upload.abort "a" (Sample.one_file File.pending))))
                 eq_refl).
  - destruct (proj2 (chunk_end_after_abort "a" 0 "chan" Sample.hello
                       (Sample.att "m2") (Sample.one_file File.pending))
                    eq_refl ltac:(discriminate))
      as (d1 & t1 & Hbegin & _ & _ & Hnone & _).
    exists d1, t1. split; [exact Hbegin | exact Hnone].
Defined.

(** ** The range stream *)

Section RangeProperties.

Implicit Types (l chunks : list Chunk.row) (s e off : Z).

Lemma substring_all (t : string) : String.substring 0 (String.length t) t = t.
Proof. induction t as [|c t IH]; [reflexivity|]. simpl. rewrite IH. reflexivity. Qed.

Lemma remove_first_bytes (rest : string) :
  JS.remove_first "bytes=" ("bytes=" +:+ rest) = rest.
Proof.
  change ("bytes=" +:+ rest)
    with (String "b" (String "y" (String "t" (String "e" (String "s"
            (String "=" rest)))))).
  unfold JS.remove_first. simpl String.prefix.
  replace (String.prefix EmptyString rest) with true by (destruct rest; reflexivity).
  simpl. rewrite Nat.sub_0_r. apply substring_all.
Qed.

Lemma split_digits (a : string) :
  JS.is_digits a = true -> JS.split "-" a = [a].
Proof.
  induction a as [|c a IH]; intros Ha; [reflexivity|].
  simpl in Ha. apply andb_prop in Ha as [Hc Ha].
  destruct (digit_not_special c Hc) as (_ & Hm & _).
  simpl. rewrite Hm, (IH Ha). reflexivity.
Qed.

Lemma split_digits_dash (a b : string) :
  JS.is_digits a = true ->
  JS.split "-" (a +:+ String "-" b) = a :: JS.split "-" b.
Proof.
  induction a as [|c a IH]; intros Ha; [reflexivity|].
  simpl in Ha. apply andb_prop in Ha as [Hc Ha].
  destruct (digit_not_special c Hc) as (_ & Hm & _).
  rewrite append_cons. simpl. rewrite Hm, (IH Ha). reflexivity.
Qed.

(** The header [bytes=s-e] is read back as [s] and [e]. *)
Lemma parse_range_header s e fileSize :
  0 <= s -> 0 <= e ->
  Stream.parse_range (Some (range_header s e)) fileSize = (JS.Int s, JS.Int e).
Proof.
  intros Hs He. unfold range_header.
  change ("bytes=" +:+ pretty s +:+ "-" +:+ pretty e)
    with (String "b" ("ytes=" +:+ pretty s +:+ "-" +:+ pretty e)).
  unfold Stream.parse_range.
  change (String "b" ("ytes=" +:+ pretty s +:+ "-" +:+ pretty e))
    with ("bytes=" +:+ (pretty s +:+ String "-" (pretty e))).
  rewrite remove_first_bytes.
  rewrite split_digits_dash by (apply is_digits_pretty; exact Hs).
  rewrite split_digits by (apply is_digits_pretty; exact He).
  simpl List.nth. simpl lookup.
  replace (JS.truthy (Some (pretty e))) with true.
  - rewrite !parseInt_pretty by auto. reflexivity.
  - pose proof (pretty_nonempty e He). destruct (pretty e); [congruence|reflexivity].
Qed.

Lemma sizes_sum_cons c l : sizes_sum (c :: l) = Chunk.size c + sizes_sum l.
Proof. reflexivity. Qed.

Lemma sizes_sum_nonneg l :
  Forall (fun c => 0 <= Chunk.size c) l -> 0 <= sizes_sum l.
Proof.
  induction 1 as [|c l Hc _ IH]; [reflexivity|].
  rewrite sizes_sum_cons. lia.
Qed.

Lemma offset_of_S l k c :
  l !! k = Some c -> offset_of l (S k) = offset_of l k + Chunk.size c.
Proof.
  unfold offset_of. revert k. induction l as [|x l IH]; intros k Hk;
    [discriminate|].
  destruct k as [|k].
  - simpl in Hk. injection Hk as ->. simpl. lia.
  - simpl in Hk. change (take (S (S k)) (x :: l)) with (x :: take (S k) l).
    change (take (S k) (x :: l)) with (x :: take k l).
    rewrite !sizes_sum_cons, (IH k Hk). lia.
Qed.

Lemma offset_of_mono l k1 k2 :
  Forall (fun c => 0 <= Chunk.size c) l ->
  (k1 <= k2)%nat -> offset_of l k1 <= offset_of l k2.
Proof.
  intros Hl. unfold offset_of. revert k1 k2.
  induction Hl as [|c l Hc Hl IH]; intros k1 k2 Hk.
  - rewrite !take_nil. reflexivity.
  - destruct k1 as [|k1].
    + simpl take at 1. apply (sizes_sum_nonneg (take k2 (c :: l))).
      apply Forall_take. constructor; assumption.
    + destruct k2 as [|k2]; [lia|].
      change (take (S k1) (c :: l)) with (c :: take k1 l).
      change (take (S k2) (c :: l)) with (c :: take k2 l).
      rewrite !sizes_sum_cons. specialize (IH k1 k2 ltac:(lia)). lia.
Qed.

(** The walk of step 3 finds the chunk whose bytes include [s]. *)
Lemma locate_spec chunks off s :
  Forall (fun c => 0 <= Chunk.size c) chunks ->
  off <= s < off + sizes_sum chunks ->
  exists k chunk,
    chunks !! k = Some chunk
    /\ Stream.locate (JS.Int s) off chunks
       = Some (chunk, off + offset_of chunks k)
    /\ off + offset_of chunks k <= s
       < off + offset_of chunks k + Chunk.size chunk.
Proof.
  intros Hl. revert off.
  induction Hl as [|c l Hc Hl IH]; intros off Hs.
  - simpl in Hs. lia.
  - rewrite sizes_sum_cons in Hs. simpl Stream.locate.
    destruct (decide (s < off + Chunk.size c)) as [Hin|Hout].
    + exists 0%nat, c. unfold offset_of. simpl.
      replace (off <=? s) with true by (symmetry; apply Z.leb_le; lia).
      replace (s <? off + Chunk.size c) with true
        by (symmetry; apply Z.ltb_lt; lia).
      simpl. rewrite Z.add_0_r. repeat split; lia.
    + destruct (IH (off + Chunk.size c) ltac:(lia)) as (k & chunk & Hk & Hloc & Hb).
      exists (S k), chunk. split; [exact Hk|].
      replace (s <? off + Chunk.size c) with false
        by (symmetry; apply Z.ltb_ge; lia).
      rewrite andb_false_r.
      assert (Hoff : offset_of (c :: l) (S k) = Chunk.size c + offset_of l k)
        by reflexivity.
      rewrite Hoff. split.
      * rewrite Hloc. f_equal. f_equal. lia.
      * lia.
Qed.

(** Only one chunk includes a given byte. *)
Lemma containing_chunk_unique chunks s k1 c1 k2 c2 :
  Forall (fun c => 0 <= Chunk.size c) chunks ->
  chunks !! k1 = Some c1 -> chunks !! k2 = Some c2 ->
  offset_of chunks k1 <= s < offset_of chunks k1 + Chunk.size c1 ->
  offset_of chunks k2 <= s < offset_of chunks k2 + Chunk.size c2 ->
  k1 = k2.
Proof.
  intros Hl H1 H2 B1 B2.
  destruct (Nat.lt_trichotomy k1 k2) as [Hlt|[Heq|Hgt]]; [|exact Heq|].
  - pose proof (offset_of_mono chunks (S k1) k2 Hl ltac:(lia)) as Hm.
    rewrite (offset_of_S chunks k1 c1 H1) in Hm. lia.
  - pose proof (offset_of_mono chunks (S k2) k1 Hl ltac:(lia)) as Hm.
    rewrite (offset_of_S chunks k2 c2 H2) in Hm. lia.
Qed.

(** The address that step 5 keeps is defined when the row had one. *)
Lemma fresh_url_defined env c :
  is_Some (Chunk.url c) -> is_Some (Stream.fresh_url env c).1.
Proof.
  intros [u Hu]. unfold Stream.fresh_url. rewrite Hu.
  destruct (Stream.isExpired (Net.Date_now env 0) (Some u)
            && JS.truthy (Some (Chunk.message_id c))); [|simpl; eauto].
  set (cdnUrl1 :=
         if JS.truthy (Some u) then
           match Net.refreshDiscordUrls env 0 (Some u) with
           | Some r0 => if JS.truthy r0 then r0 else Some u
           | None => Some u
           end
         else Some u).
  assert (H1 : is_Some cdnUrl1).
  { unfold cdnUrl1. destruct (JS.truthy (Some u)); [|eauto].
    destruct (Net.refreshDiscordUrls env 0 (Some u)) as [r0|]; [|eauto].
    destruct r0 as [[|a r]|]; simpl; eauto. }
  destruct (negb (JS.truthy cdnUrl1)
            || Stream.isExpired (Net.Date_now env 1) cdnUrl1); [|exact H1].
  destruct (Net.getDiscordCDNUrl env 0 (Chunk.message_id c)); [simpl; eauto|].
  destruct (JS.truthy (Net.BACKUP_CHANNEL env)); [|exact H1].
  destruct (Net.getDiscordCDNUrl env 1 (Chunk.message_id c)); [simpl; eauto|].
  exact H1.
Qed.

(** C1.  A file whose chunk sizes add up to its size [S], a request
    [Range: bytes=s-e] with [0 <= s <= e < S], and an external store that
    answers the request made to it: the walk over the running offsets
    finds the one chunk that includes byte [s]; the store is asked for
    the bytes of that chunk from [s] to [g = min e (last byte of the
    chunk)]; and the answer is 206 with [Content-Range: bytes s-g/S] and
    [Content-Length: g-s+1]. *)
Theorem range_stream_serves_containing_chunk env d fileId file s e :
  Db.get_file d fileId = Some file ->
  Forall (fun c => 0 <= Chunk.size c) (Db.chunks_ordered d fileId) ->
  sizes_sum (Db.chunks_ordered d fileId) = File.size file ->
  0 <= s -> s <= e -> e < File.size file ->
  Forall (fun c => is_Some (Chunk.url c)) (Db.chunks_ordered d fileId) ->
  (forall k u rg, exists r, Net.fetch env k u rg = Some r /\ Net.ok r = true) ->
  exists k chunk u r ws,
    let chunks := Db.chunks_ordered d fileId in
    let off := offset_of chunks k in
    let g := Z.min e (off + Chunk.size chunk - 1) in
    chunks !! k = Some chunk
    /\ off <= s < off + Chunk.size chunk
    /\ (forall k' c',
          chunks !! k' = Some c' ->
          offset_of chunks k' <= s < offset_of chunks k' + Chunk.size c' ->
          k' = k)
    /\ Net.fetch env 0 u (Some (range_header (s - off) (g - off))) = Some r
    /\ Stream.get env d fileId (Some (range_header s e))
       = ({| status := 206;
             headers :=
               [("Content-Range",
                 "bytes " +:+ pretty s +:+ "-" +:+ pretty g +:+ "/"
                 +:+ pretty (File.size file));
                ("Accept-Ranges", "bytes");
                ("Content-Length", pretty (g - s + 1));
                ("Content-Type",
                 JS.or_else (File.type file) "application/octet-stream")];
             body := Bytes (Net.body r) |}, ws).
Proof.
  intros Hfile Hsizes Hsum Hs Hse He Hurls Hup.
  destruct (locate_spec (Db.chunks_ordered d fileId) 0 s Hsizes ltac:(lia))
    as (k & chunk & Hk & Hloc & Hb).
  rewrite !Z.add_0_l in Hloc, Hb.
  assert (Hu : is_Some (Stream.fresh_url env chunk).1).
  { apply fresh_url_defined.
    rewrite Forall_forall in Hurls. apply Hurls.
    apply list_elem_of_lookup. exists k. exact Hk. }
  destruct (Stream.fresh_url env chunk) as [cdnUrl ws] eqn:Hfresh.
  destruct Hu as [u Hu]. simpl in Hu. subst cdnUrl.
  set (off := offset_of (Db.chunks_ordered d fileId) k) in *.
  set (g := Z.min e (off + Chunk.size chunk - 1)).
  destruct (Hup 0%nat u (Some (range_header (s - off) (g - off))))
    as (r & Hr & Hok).
  exists k, chunk, u, r, ws. cbv zeta. fold off. fold g.
  split; [exact Hk|]. split; [exact Hb|]. split.
  { intros k' c' Hk' Hb'.
    exact (containing_chunk_unique _ s k' c' k chunk Hsizes Hk' Hk Hb' Hb). }
  split; [exact Hr|].
  unfold Stream.get. rewrite Hfile.
  rewrite (parse_range_header s e (File.size file)) by lia.
  rewrite Hloc. fold off. rewrite Hfresh. cbn [JS.sub JS.add JS.Math_min JS.toString].
  replace (Z.min (e - s + 1) (Chunk.size chunk - (s - off))) with (g - s + 1)
    by (unfold g; lia).
  replace (s - off + (g - s + 1) - 1) with (g - off) by lia.
  replace (s + (g - s + 1) - 1) with g by lia.
  unfold Net.fetch_url. fold (range_header (s - off) (g - off)).
  rewrite Hr, Hok. reflexivity.
Qed.

End RangeProperties.

(** ** The full download *)

Section WindowProperties.

Variables (env : Net.Env) (filteredChunks : list Chunk.row).

Implicit Types (i j : nat) (slots : list Download.Slot)
  (st : list Download.Slot * list UrlWrite).

Local Abbreviation window_ok := (Download.window_ok env filteredChunks).

Lemma start_fetch_slots j st :
  (Download.start_fetch env filteredChunks j st).1
  = match filteredChunks !! j with
    | Some ch => <[j := Some (Download.fetchChunkData env ch).1]> st.1
    | None => st.1
    end.
Proof.
  unfold Download.start_fetch.
  destruct (filteredChunks !! j) as [ch|]; [|reflexivity].
  destruct (Download.fetchChunkData env ch). reflexivity.
Qed.

Lemma start_fetch_length j st :
  length (Download.start_fetch env filteredChunks j st).1 = length st.1.
Proof.
  rewrite start_fetch_slots.
  destruct (filteredChunks !! j); [apply length_insert | reflexivity].
Qed.

Lemma first_tasks_started m :
  (m <= length filteredChunks)%nat ->
  let st :=
    fold_left (fun st i => Download.start_fetch env filteredChunks i st)
              (seq 0 m) (replicate (length filteredChunks) None, []) in
  length st.1 = length filteredChunks
  /\ forall j ch,
       (j < m)%nat -> filteredChunks !! j = Some ch ->
       st.1 !! j = Some (Some (Download.fetchChunkData env ch).1).
Proof.
  induction m as [|m IH]; intros Hm.
  - simpl. split; [apply length_replicate | intros; lia].
  - destruct (IH ltac:(lia)) as [Hlen Hslots].
    cbv zeta. rewrite seq_S, fold_left_app.
    set (st0 := fold_left
                  (fun st i => Download.start_fetch env filteredChunks i st)
                  (seq 0 m) (replicate (length filteredChunks) None, []))
      in *.
    cbn [fold_left Nat.add].
    split.
    + rewrite start_fetch_length. exact Hlen.
    + intros j ch Hj Hch. rewrite start_fetch_slots.
      destruct (filteredChunks !! m) as [chm|] eqn:Hchm.
      * destruct (decide (j = m)) as [->|Hne].
        -- rewrite list_lookup_insert_eq by lia.
           rewrite Hch in Hchm. injection Hchm as ->. reflexivity.
        -- rewrite list_lookup_insert_ne by congruence.
           apply Hslots; [lia | exact Hch].
      * apply Hslots; [|exact Hch].
        destruct (decide (j = m)) as [->|Hne]; [congruence|lia].
Qed.

Lemma initial_window_ok :
  window_ok 0%nat (Download.initial_window env filteredChunks).1.
Proof.
  unfold Download.initial_window.
  destruct (first_tasks_started
              (Nat.min Download.WINDOW_SIZE (length filteredChunks))
              (Nat.le_min_r _ _)) as [Hlen Hslots].
  split; [exact Hlen|].
  intros j ch Hj Hch. apply Hslots; [|exact Hch].
  apply lookup_lt_Some in Hch. lia.
Qed.

(** The window keeps its property when it moves on by one. *)
Lemma window_shift i st ch :
  window_ok i st.1 ->
  filteredChunks !! i = Some ch ->
  let st1 := (<[i := None]> st.1, st.2) in
  let st2 :=
    if (i + Download.WINDOW_SIZE <? length filteredChunks)%nat
    then Download.start_fetch env filteredChunks
           (i + Download.WINDOW_SIZE) st1
    else st1 in
  window_ok (S i) st2.1.
Proof.
  intros [Hlen Hslots] Hch st1 st2.
  assert (Hlen1 : length st1.1 = length filteredChunks)
    by (simpl; rewrite length_insert; exact Hlen).
  assert (Hold : forall j c,
            (S i <= j < i + Download.WINDOW_SIZE)%nat ->
            filteredChunks !! j = Some c ->
            st1.1 !! j = Some (Some (Download.fetchChunkData env c).1)).
  { intros j c Hj Hc. simpl. rewrite list_lookup_insert_ne by lia.
    apply Hslots; [lia | exact Hc]. }
  unfold st2.
  destruct (i + Download.WINDOW_SIZE <? length filteredChunks)%nat eqn:Hla.
  - split; [rewrite start_fetch_length; exact Hlen1|].
    intros j c Hj Hc. rewrite start_fetch_slots.
    apply Nat.ltb_lt in Hla.
    destruct (filteredChunks !! (i + Download.WINDOW_SIZE)%nat)
      as [cla|] eqn:Hcla.
    + destruct (decide (j = (i + Download.WINDOW_SIZE)%nat)) as [->|Hne].
      * rewrite list_lookup_insert_eq by lia.
        rewrite Hc in Hcla. injection Hcla as ->. reflexivity.
      * rewrite list_lookup_insert_ne by congruence.
        apply Hold; [lia | exact Hc].
    + apply lookup_ge_None in Hcla. lia.
  - split; [exact Hlen1|].
    intros j c Hj Hc. apply Nat.ltb_ge in Hla.
    apply lookup_lt_Some in Hc as Hlt. apply Hold; [lia | exact Hc].
Qed.

(** The loop with the window writes what the loop without it writes. *)
Lemma pump_sequential remaining i st written :
  (i + remaining = length filteredChunks)%nat ->
  window_ok i st.1 ->
  (Download.pump env filteredChunks remaining i st written).1
  = Download.sequential env i (drop i filteredChunks) written.
Proof.
  revert i st written.
  induction remaining as [|remaining IH]; intros i st written Hn Hw.
  - rewrite drop_ge by lia. reflexivity.
  - destruct (filteredChunks !! i) as [ch|] eqn:Hch.
    2:{ apply lookup_ge_None in Hch. lia. }
    rewrite (drop_S _ _ _ Hch). simpl.
    destruct (Net.aborted env (Net.LoopTop i)); [reflexivity|].
    destruct Hw as [Hlen Hslots].
    rewrite (Hslots i ch ltac:(unfold Download.WINDOW_SIZE; lia) Hch).
    unfold Download.fetched_body.
    destruct (Download.fetchChunkData env ch).1 as [b|msg]; [|reflexivity].
    destruct (Net.aborted env (Net.BeforeWrite i)); [reflexivity|].
    apply IH; [lia|].
    apply (window_shift i st ch); [split; assumption | exact Hch].
Qed.

(** What the loop without the window writes is, in order, the bodies of
    the first chunks, up to the first that fails or to the moment the
    client goes; the stream is closed only after the last. *)
Lemma sequential_prefix i todo written :
  exists n ws closed,
    Download.sequential env i todo written = Stream (written ++ ws) closed
    /\ map Some ws = map (Download.fetched_body env) (take n todo)
    /\ (closed = true -> n = length todo).
Proof.
  revert i written. induction todo as [|ch rest IH]; intros i written.
  - exists 0%nat, [], true. rewrite app_nil_r. repeat split.
  - simpl.
    assert (Hstop : exists n ws closed,
              Stream written false = Stream (written ++ ws) closed
              /\ map Some ws
                 = map (Download.fetched_body env) (take n (ch :: rest))
              /\ (closed = true -> n = length (ch :: rest))).
    { exists 0%nat, [], false. rewrite app_nil_r.
      repeat split. discriminate. }
    destruct (Net.aborted env (Net.LoopTop i)); [exact Hstop|].
    destruct (Download.fetched_body env ch) as [b|] eqn:Hb; [|exact Hstop].
    destruct (Net.aborted env (Net.BeforeWrite i)); [exact Hstop|].
    destruct (IH (S i) (written ++ [b])%list)
      as (n & ws & closed & Heq & Hws & Hc).
    exists (S n), (b :: ws), closed. rewrite Heq, <- app_assoc.
    split; [reflexivity|]. split.
    + simpl. rewrite Hb, Hws. reflexivity.
    + intros Hcl. simpl. rewrite (Hc Hcl). reflexivity.
Qed.

(** With a client that stays and chunks that are all fetched, every
    body is written and the stream is closed. *)
Lemma sequential_complete (data : Chunk.row -> list Byte.byte) i todo written :
  (forall p, Net.aborted env p = false) ->
  (forall ch, ch ∈ todo -> Download.fetched_body env ch = Some (data ch)) ->
  Download.sequential env i todo written
  = Stream (written ++ map data todo) true.
Proof.
  intros Hab. revert i written.
  induction todo as [|ch rest IH]; intros i written Hall.
  - simpl. rewrite app_nil_r. reflexivity.
  - simpl. rewrite !Hab, (Hall ch ltac:(left)).
    rewrite IH by (intros c Hc; apply Hall; right; exact Hc).
    rewrite <- app_assoc. reflexivity.
Qed.

End WindowProperties.

Section DownloadProperties.

Implicit Types (d : Db.t) (l : list Chunk.row).

Lemma full_body env fileId file chunks start_chunk inline :
  body (Download.full env fileId file chunks start_chunk inline).1
  = Download.sequential env 0
      (filter (fun ch =>
                 JS.ge (JS.Int (Chunk.idx ch))
                       (JS.parseInt (JS.or_else start_chunk "0") (Some 10))
                 = true) chunks) [].
Proof.
  unfold Download.full.
  set (filteredChunks := filter _ chunks).
  pose proof (pump_sequential env filteredChunks (length filteredChunks) 0
                (Download.initial_window env filteredChunks) []
                eq_refl (initial_window_ok env filteredChunks)) as Hp.
  destruct (Download.pump env filteredChunks (length filteredChunks) 0
              (Download.initial_window env filteredChunks) []) as [readable ws].
  simpl in Hp |- *. exact Hp.
Qed.

(** [start_chunk=K] keeps the chunks from index [K] on; without the
    parameter all are kept from index 0 on. *)
Lemma filtered_from (K : option Z) l :
  filter (fun ch =>
            JS.ge (JS.Int (Chunk.idx ch))
                  (JS.parseInt (JS.or_else (pretty <$> K) "0") (Some 10))
            = true) l
  = filter (fun ch => default 0 K <= Chunk.idx ch) l.
Proof.
  assert (Hk : JS.parseInt (JS.or_else (pretty <$> K) "0") (Some 10)
               = JS.Int (default 0 K)).
  { destruct K as [k|]; [|reflexivity]. simpl.
    pose proof (pretty_Z_nonempty k) as Hne.
    rewrite <- (parseInt_pretty_Z k). unfold JS.or_else.
    destruct (pretty k); [congruence|reflexivity]. }
  rewrite Hk. apply list_filter_iff. intros ch. simpl. apply Z.leb_le.
Qed.

Lemma StronglySorted_filter {A} (R : relation A) (P : A -> Prop)
    `{forall x, Decision (P x)} (l : list A) :
  StronglySorted R l -> StronglySorted R (filter P l).
Proof.
  induction 1 as [|x l Hl IH Hx]; [constructor|].
  rewrite filter_cons. destruct (decide (P x)); [|exact IH].
  constructor; [exact IH|].
  apply Forall_forall. intros y Hy. apply list_elem_of_filter in Hy as [_ Hy].
  rewrite Forall_forall in Hx. exact (Hx y Hy).
Qed.

Global Instance idx_le_trans : Transitive Db.idx_le.
Proof. intros a b c. unfold Db.idx_le. lia. Qed.

Global Instance idx_le_total : Total Db.idx_le.
Proof. intros a b. unfold Db.idx_le. lia. Qed.

Lemma chunks_ordered_sorted d fileId :
  StronglySorted Db.idx_le (Db.chunks_ordered d fileId).
Proof. apply StronglySorted_merge_sort; apply _. Qed.

(** Rows sorted by [idx], no two of which have the same [idx], are in
    strictly ascending order. *)
Lemma sorted_strict l :
  StronglySorted Db.idx_le l ->
  (forall i, (length (filter (fun c => Chunk.idx c = i) l) <= 1)%nat) ->
  StronglySorted Db.idx_lt l.
Proof.
  induction 1 as [|x l Hl IH Hx]; intros Hu; [constructor|].
  constructor.
  - apply IH. intros i. specialize (Hu i). rewrite filter_cons in Hu.
    destruct (decide (Chunk.idx x = i)); simpl in Hu; lia.
  - apply Forall_forall. intros y Hy.
    rewrite Forall_forall in Hx. specialize (Hx y Hy).
    unfold Db.idx_le in Hx. unfold Db.idx_lt.
    destruct (decide (Chunk.idx x = Chunk.idx y)) as [He|Hne]; [|lia].
    exfalso. specialize (Hu (Chunk.idx x)).
    rewrite filter_cons_True in Hu by reflexivity. simpl in Hu.
    assert (Hin : y ∈ filter (fun c => Chunk.idx c = Chunk.idx x) l)
      by (apply list_elem_of_filter; split; [congruence | exact Hy]).
    destruct (filter (fun c => Chunk.idx c = Chunk.idx x) l);
      [inversion Hin | simpl in Hu; lia].
Qed.

Lemma chunks_ordered_unique d fileId i :
  Db.unique_idx d ->
  (length (filter (fun c => Chunk.idx c = i) (Db.chunks_ordered d fileId)) <= 1)%nat.
Proof.
  intros Hu. unfold Db.chunks_ordered.
  rewrite (merge_sort_Permutation Db.idx_le (Db.chunks_of d fileId)).
  unfold Db.chunks_of. rewrite list_filter_filter.
  specialize (Hu fileId i). unfold Db.chunks_at in Hu.
  erewrite list_filter_iff; [exact Hu|].
  intros c. unfold Db.at_index. tauto.
Qed.

Lemma get_full env d fileId file start_chunk inline :
  Db.get_file d fileId = Some file ->
  Db.chunks_ordered d fileId <> [] ->
  Download.get env d fileId None start_chunk inline
  = Download.full env fileId file (Db.chunks_ordered d fileId)
      start_chunk inline.
Proof.
  intros Hfile Hne. unfold Download.get. rewrite Hfile.
  rewrite decide_False; [reflexivity|].
  intros Hlen. apply Hne. apply length_zero_iff_nil. exact Hlen.
Qed.

(** C4.  The full download of a file from start chunk [K] (0 when the
    parameter is absent).  A file that has no chunk row is answered 404
    with the text "File has no chunks", whatever the parameters.  For a
    file that has at least one, the chunks with [idx >= K] are taken in
    ascending [idx] order, strictly ascending when [(fileId, idx)]
    names one row at most.  Whatever the store answers, what is written
    to the client is, in that order, the bodies of the first [n] of
    them, and the stream is closed only when [n] is their number.  When
    the client stays and every chunk is fetched, all the bodies are
    written and the stream is closed. *)
Theorem full_download_in_order env d fileId file (K : option Z)
    (inline : option string) (data : Chunk.row -> list Byte.byte) :
  Db.get_file d fileId = Some file ->
  let wanted :=
    filter (fun ch => default 0 K <= Chunk.idx ch)
           (Db.chunks_ordered d fileId) in
  let response :=
    (Download.get env d fileId None (pretty <$> K) inline).1 in
  (Db.chunks_ordered d fileId = [] ->
   forall start_chunk,
     Download.get env d fileId None start_chunk inline
     = (c_text "File has no chunks" 404, []))
  /\ StronglySorted Db.idx_le wanted
  /\ (Db.unique_idx d -> StronglySorted Db.idx_lt wanted)
  /\ (Db.chunks_ordered d fileId <> [] ->
      (exists n ws closed,
         body response = Stream ws closed
         /\ map Some ws = map (Download.fetched_body env) (take n wanted)
         /\ (closed = true -> n = length wanted))
      /\ ((forall p, Net.aborted env p = false) ->
          (forall ch, ch ∈ wanted ->
                      Download.fetched_body env ch = Some (data ch)) ->
          body response = Stream (map data wanted) true)).
Proof.
  intros Hfile wanted response.
  assert (Hsorted : StronglySorted Db.idx_le wanted)
    by (apply StronglySorted_filter, chunks_ordered_sorted).
  split.
  { intros Hnil start_chunk. unfold Download.get. rewrite Hfile, Hnil.
    reflexivity. }
  split; [exact Hsorted|]. split.
  { intros Hu. apply sorted_strict; [exact Hsorted|].
    intros i. unfold wanted.
    etransitivity; [apply filter_filter_length|].
    apply chunks_ordered_unique. exact Hu. }
  intros Hne.
  assert (Hbody : body response = Download.sequential env 0 wanted []).
  { unfold response. rewrite (get_full env d fileId file _ _ Hfile Hne).
    rewrite full_body, filtered_from. reflexivity. }
  split.
  - rewrite Hbody.
    destruct (sequential_prefix env 0 wanted [])
      as (n & ws & closed & Heq & Hws & Hc).
    exists n, ws, closed. split; [exact Heq|]. split; assumption.
  - intros Hab Hall. rewrite Hbody.
    apply (sequential_complete env data 0 wanted [] Hab Hall).
Qed.

(** A file without chunks is answered 404 with a text, not with the
    empty stream that the concatenation of its chunks would be. *)
Lemma full_download_without_chunks :
  Db.get_file Sample.no_chunk "a"
  = Some (Sample.row "empty.txt" 0 File.active)
  /\ Download.get Sample.env Sample.no_chunk "a" None None None
     = (c_text "File has no chunks" 404, [])
  /\ ~ (exists ws closed,
          body (Download.get Sample.env Sample.no_chunk "a" None None None).1
          = Stream ws closed
          /\ mjoin ws
             = mjoin (map (fun _ => Sample.body0)
                          (filter (fun ch => 0 <= Chunk.idx ch)
                                  (Db.chunks_ordered Sample.no_chunk "a")))).
Proof.
  split; [reflexivity|]. split; [reflexivity|].
  intros (ws & closed & Hbody & _). discriminate Hbody.
Qed.

Lemma content_length_of_full env fileId file chunks start_chunk inline :
  (headers (Download.full env fileId file chunks start_chunk inline).1)
    !! 0%nat
  = Some ("Content-Length", pretty (sizes_sum chunks)).
Proof.
  unfold Download.full.
  destruct (Download.pump _ _ _ _ _ _) as [readable ws]. simpl.
  do 3 f_equal. unfold sizes_sum.
  assert (Hgen : forall acc,
            foldl (fun a ch => a + Chunk.size ch) acc chunks
            = acc + foldr (fun c a => Chunk.size c + a) 0 chunks).
  { induction chunks as [|c l IH]; intros acc; simpl; [lia|].
    rewrite IH. lia. }
  rewrite Hgen. lia.
Qed.

(** C5.  The full download of a file of two chunks, of 5 and 7 bytes,
    from start chunk 1: the body is the second chunk alone, 7 bytes, and
    [Content-Length] is 12, the sum over both chunks. *)
Theorem full_download_content_length_counts_all_chunks :
  let response :=
    (Download.get Sample.env Sample.two_chunks "a" None (Some "1") None).1 in
  headers response !! 0%nat = Some ("Content-Length", "12")
  /\ body response = Stream [Sample.body1] true
  /\ length Sample.body1 = 7%nat
  /\ sizes_sum (filter (fun ch => 1 <= Chunk.idx ch)
                       (Db.chunks_ordered Sample.two_chunks "a")) = 7.
Proof. vm_compute. repeat split. Qed.

End DownloadProperties.

(** ** Expiry of stored addresses *)

Section ExpiryProperties.

Implicit Types (env : Net.Env) (c : Chunk.row) (u ex : string) (now n : Z).

Lemma stream_isExpired_no_ex now u :
  JS.URL_searchParams_get u "ex" = Some None ->
  Stream.isExpired now (Some u) = true.
Proof.
  intros H. unfold Stream.isExpired. destruct u as [|a s]; [reflexivity|].
  rewrite H. reflexivity.
Qed.

Lemma stream_isExpired_ex now u ex n :
  u <> EmptyString -> ex <> EmptyString ->
  JS.URL_searchParams_get u "ex" = Some (Some ex) ->
  JS.parseInt ex (Some 16) = JS.Int n ->
  Stream.isExpired now (Some u) = (n <? now / 1000 + 300).
Proof.
  intros Hu Hex Hget Hn. unfold Stream.isExpired.
  destruct u as [|a s]; [congruence|]. rewrite Hget.
  destruct ex as [|b e]; [congruence|]. rewrite Hn. reflexivity.
Qed.

Lemma download_isExpired_no_ex_text now u :
  u <> EmptyString -> JS.includes u "ex=" = false ->
  Download.isExpired now (Some u) = Some false.
Proof.
  intros Hu Hinc. unfold Download.isExpired.
  destruct u as [|a s]; [congruence|]. rewrite Hinc. reflexivity.
Qed.

Lemma download_isExpired_ex now u ex n :
  u <> EmptyString -> ex <> EmptyString ->
  JS.includes u "ex=" = true ->
  JS.URL_searchParams_get u "ex" = Some (Some ex) ->
  JS.parseInt ex (Some 16) = JS.Int n ->
  Download.isExpired now (Some u) = Some (n * 1000 <? now).
Proof.
  intros Hu Hex Hinc Hget Hn. unfold Download.isExpired.
  destruct u as [|a s]; [congruence|]. rewrite Hinc, Hget.
  destruct ex as [|b e]; [congruence|]. simpl JS.or_else.
  rewrite Hn. reflexivity.
Qed.

(** The range stream keeps an address that is not stale as it is. *)
Lemma stream_keeps_fresh env c :
  Stream.isExpired (Net.Date_now env 0) (Chunk.url c) = false ->
  Stream.fresh_url env c = (Chunk.url c, []).
Proof. intros H. unfold Stream.fresh_url. rewrite H. reflexivity. Qed.

(** The range stream replaces a stale address by the one the bulk
    refresh answers, when that one is not stale, and stores it. *)
Lemma stream_refreshes_stale env c u u' :
  Chunk.url c = Some u -> u <> EmptyString -> u' <> EmptyString ->
  Chunk.message_id c <> EmptyString ->
  Stream.isExpired (Net.Date_now env 0) (Some u) = true ->
  Net.refreshDiscordUrls env 0 (Some u) = Some (Some u') ->
  Stream.isExpired (Net.Date_now env 1) (Some u') = false ->
  Stream.fresh_url env c = (Some u', [(Chunk.message_id c, Some u')]).
Proof.
  intros Hc Hu Hu' Hmid Hexp Hr Hfresh. unfold Stream.fresh_url.
  rewrite Hc, Hexp, Hr.
  destruct (Chunk.message_id c) as [|m mid]; [congruence|].
  destruct u as [|a s]; [congruence|].
  destruct u' as [|a' s']; [congruence|].
  simpl JS.truthy. cbv iota. simpl negb. simpl andb. cbv iota.
  rewrite Hfresh. reflexivity.
Qed.

(** [fetchChunkData], first attempt: an address that the test finds
    not expired is fetched as it is, and no row is updated. *)
Lemma fetchChunkData_keeps env c r :
  (forall p, Net.aborted env p = false) ->
  Download.isExpired (Net.Date_now env 1) (Chunk.url c) = Some false ->
  Net.fetch_url env 1 (Chunk.url c) None = Some r -> Net.ok r = true ->
  Download.fetchChunkData env c = (Download.buffer (Net.body r), []).
Proof.
  intros Hab Hexp Hr Hok. unfold Download.fetchChunkData.
  rewrite Hab. simpl. rewrite Hexp. simpl. rewrite Hab, Hr, Hok. reflexivity.
Qed.

(** [fetchChunkData], first attempt: an address that the test finds
    expired goes through the refresh block before the fetch. *)
Lemma fetchChunkData_refreshes env c r :
  (forall p, Net.aborted env p = false) ->
  Download.isExpired (Net.Date_now env 1) (Chunk.url c) = Some true ->
  Net.fetch_url env 1
    (Download.refresh env 1 (Chunk.url c) (Chunk.message_id c)).1 None
  = Some r ->
  Net.ok r = true ->
  Download.fetchChunkData env c
  = (Download.buffer (Net.body r),
     (Download.refresh env 1 (Chunk.url c) (Chunk.message_id c)).2).
Proof.
  intros Hab Hexp Hr Hok. unfold Download.fetchChunkData.
  rewrite Hab. simpl. rewrite Hexp. simpl.
  destruct (Download.refresh env 1 (Chunk.url c) (Chunk.message_id c))
    as [cdnUrl ws].
  simpl in Hr |- *. rewrite Hab, Hr, Hok. reflexivity.
Qed.

(** The proxy: an address that the test finds not expired is fetched as
    it is, and no row is updated. *)
Lemma proxy_keeps env chunks c r :
  List.find (fun ch => Z.eqb (Chunk.idx ch) (Chunk.idx c)) chunks = Some c ->
  Download.isExpired (Net.Date_now env 0) (Chunk.url c) = Some false ->
  Net.fetch_url env 0 (Chunk.url c) None = Some r -> Net.ok r = true ->
  Download.proxy env chunks (pretty (Chunk.idx c))
  = (Download.proxied c r, []).
Proof.
  intros Hfind Hexp Hr Hok. unfold Download.proxy.
  rewrite parseInt_pretty_Z. simpl JS.strict_eq.
  rewrite Hfind, Hexp, Hr, Hok. reflexivity.
Qed.

(** The proxy: an address that the test finds expired goes through the
    refresh block before the fetch. *)
Lemma proxy_refreshes env chunks c r :
  List.find (fun ch => Z.eqb (Chunk.idx ch) (Chunk.idx c)) chunks = Some c ->
  Download.isExpired (Net.Date_now env 0) (Chunk.url c) = Some true ->
  Net.fetch_url env 0
    (Download.refresh env 0 (Chunk.url c) (Chunk.message_id c)).1 None
  = Some r ->
  Net.ok r = true ->
  Download.proxy env chunks (pretty (Chunk.idx c))
  = (Download.proxied c r,
     (Download.refresh env 0 (Chunk.url c) (Chunk.message_id c)).2).
Proof.
  intros Hfind Hexp Hr Hok. unfold Download.proxy.
  rewrite parseInt_pretty_Z. simpl JS.strict_eq.
  rewrite Hfind, Hexp.
  destruct (Download.refresh env 0 (Chunk.url c) (Chunk.message_id c))
    as [cdnUrl ws].
  simpl in Hr |- *. rewrite Hr, Hok. reflexivity.
Qed.

(** C9.  The expiry test of each fetch site, and what the site does
    with it.  A missing address is expired everywhere.  The range stream
    takes an address without [ex] for expired, and one with [ex] when
    fewer than 300 seconds are left.  The two sites of the download
    route (the proxy and [fetchChunkData]) take an address that does not
    contain the text [ex=] for valid, and one that does for expired when
    its [ex] is in the past.  An [ex] in the past is expired at all
    three.  At each site an address that is not expired is fetched as it
    is and nothing is stored; an expired one is first refreshed (at the
    range stream, when the row has a message id). *)
Theorem url_expiry_by_site env c now :
  (Stream.isExpired now None = true
   /\ Download.isExpired now None = Some true)
  /\ (forall u, JS.URL_searchParams_get u "ex" = Some None ->
               Stream.isExpired now (Some u) = true)
  /\ (forall u, u <> EmptyString -> JS.includes u "ex=" = false ->
               Download.isExpired now (Some u) = Some false)
  /\ (forall u ex n,
        u <> EmptyString -> ex <> EmptyString ->
        JS.URL_searchParams_get u "ex" = Some (Some ex) ->
        JS.parseInt ex (Some 16) = JS.Int n ->
        Stream.isExpired now (Some u) = (n <? now / 1000 + 300)
        /\ (JS.includes u "ex=" = true ->
            Download.isExpired now (Some u) = Some (n * 1000 <? now))
        /\ (n * 1000 < now ->
            Stream.isExpired now (Some u) = true
            /\ (JS.includes u "ex=" = true ->
                Download.isExpired now (Some u) = Some true)))
  /\ (Stream.isExpired (Net.Date_now env 0) (Chunk.url c) = false ->
      Stream.fresh_url env c = (Chunk.url c, []))
  /\ (forall u u',
        Chunk.url c = Some u -> u <> EmptyString -> u' <> EmptyString ->
        Chunk.message_id c <> EmptyString ->
        Stream.isExpired (Net.Date_now env 0) (Some u) = true ->
        Net.refreshDiscordUrls env 0 (Some u) = Some (Some u') ->
        Stream.isExpired (Net.Date_now env 1) (Some u') = false ->
        Stream.fresh_url env c = (Some u', [(Chunk.message_id c, Some u')]))
  /\ (forall r,
        (forall p, Net.aborted env p = false) ->
        Net.ok r = true ->
        (Download.isExpired (Net.Date_now env 1) (Chunk.url c) = Some false ->
         Net.fetch_url env 1 (Chunk.url c) None = Some r ->
         Download.fetchChunkData env c = (Download.buffer (Net.body r), []))
        /\ (Download.isExpired (Net.Date_now env 1) (Chunk.url c) = Some true ->
            Net.fetch_url env 1
              (Download.refresh env 1 (Chunk.url c) (Chunk.message_id c)).1
              None = Some r ->
            Download.fetchChunkData env c
            = (Download.buffer (Net.body r),
               (Download.refresh env 1 (Chunk.url c)
                  (Chunk.message_id c)).2)))
  /\ (forall chunks r,
        List.find (fun ch => Z.eqb (Chunk.idx ch) (Chunk.idx c)) chunks
        = Some c ->
        Net.ok r = true ->
        (Download.isExpired (Net.Date_now env 0) (Chunk.url c) = Some false ->
         Net.fetch_url env 0 (Chunk.url c) None = Some r ->
         Download.proxy env chunks (pretty (Chunk.idx c))
         = (Download.proxied c r, []))
        /\ (Download.isExpired (Net.Date_now env 0) (Chunk.url c) = Some true ->
            Net.fetch_url env 0
              (Download.refresh env 0 (Chunk.url c) (Chunk.message_id c)).1
              None = Some r ->
            Download.proxy env chunks (pretty (Chunk.idx c))
            = (Download.proxied c r,
               (Download.refresh env 0 (Chunk.url c)
                  (Chunk.message_id c)).2))).
Proof.
  split; [split; reflexivity|].
  split; [intros u; apply stream_isExpired_no_ex|].
  split; [intros u; apply download_isExpired_no_ex_text|].
  split.
  { intros u ex n Hu Hex Hget Hn.
    pose proof (stream_isExpired_ex now u ex n Hu Hex Hget Hn) as Hs.
    pose proof (fun Hinc =>
                  download_isExpired_ex now u ex n Hu Hex Hinc Hget Hn) as Hd.
    split; [exact Hs|]. split; [exact Hd|].
    intros Hpast. split.
    - rewrite Hs. apply Z.ltb_lt.
      assert (n <= now / 1000) by (apply Z.div_le_lower_bound; lia). lia.
    - intros Hinc. rewrite (Hd Hinc). f_equal. apply Z.ltb_lt. exact Hpast. }
  split; [apply stream_keeps_fresh|].
  split; [intros u u'; apply stream_refreshes_stale|].
  split.
  { intros r Hab Hok. split.
    - intros Hexp Hr. apply fetchChunkData_keeps; assumption.
    - intros Hexp Hr. apply fetchChunkData_refreshes; assumption. }
  intros chunks r Hfind Hok. split.
  - intros Hexp Hr. apply proxy_keeps; assumption.
  - intros Hexp Hr. apply proxy_refreshes; assumption.
Qed.

(** An address without [ex] in the download route: the test says it is
    not expired, and the proxy serves the bytes found at that address
    and stores nothing, though the bulk refresh had another address to
    give; the range stream takes the same address for expired. *)
Lemma download_keeps_url_without_ex :
  JS.URL_searchParams_get Sample.plain "ex" = Some None
  /\ Download.isExpired 1700000000000 (Some Sample.plain) = Some false
  /\ Stream.isExpired 1700000000000 (Some Sample.plain) = true
  /\ Download.get Sample.refreshing Sample.plain_file "a" (Some "0") None None
     = (Download.proxied Sample.plain_chunk
          {| Net.status := 200; Net.body := Sample.body0 |}, [])
  /\ ~ (forall now url,
          JS.URL_searchParams_get url "ex" = Some None ->
          Download.isExpired now (Some url) = Some true).
Proof.
  split; [reflexivity|]. split; [reflexivity|]. split; [reflexivity|].
  split; [vm_compute; reflexivity|].
  intros H. specialize (H 1700000000000 Sample.plain eq_refl).
  vm_compute in H. discriminate H.
Qed.

End ExpiryProperties.

(** ** The download and stream properties at work on a small index *)

Lemma range_stream_serves_containing_chunk_witness :
  (Stream.get Sample.env Sample.two_chunks "a" (Some (range_header 3 10))).1
  = {| status := 206;
       headers :=
         [("Content-Range", "bytes 3-4/12");
          ("Accept-Ranges", "bytes");
          ("Content-Length", "2");
          ("Content-Type", "text/plain")];
       body := Bytes Sample.body0 |}.
Proof.
  destruct (range_stream_serves_containing_chunk
              Sample.env Sample.two_chunks "a"
              (Sample.row "t.txt" 12 File.active) 3 10
              eq_refl
              ltac:(compute_done)
              eq_refl
              ltac:(lia) ltac:(lia) ltac:(simpl; lia)
              ltac:(compute_done)
              ltac:(intros; eexists; split; reflexivity))
    as (k & chunk & u & r & ws & Hk & Hb & Hunique & Hfetch & Hget).
  vm_compute. reflexivity.
Defined.

Lemma full_download_in_order_witness :
  body (Download.get Sample.env Sample.two_chunks "a" None (Some "1") None).1
  = Stream [Sample.body1] true
  /\ StronglySorted Db.idx_lt
       (filter (fun ch => 0 <= Chunk.idx ch)
               (Db.chunks_ordered Sample.two_chunks "a"))
  /\ Download.get Sample.env Sample.no_chunk "a" None (Some "1") None
     = (c_text "File has no chunks" 404, []).
Proof.
  destruct (full_download_in_order
              Sample.env Sample.two_chunks "a"
              (Sample.row "t.txt" 12 File.active) (Some 1) None
              SampleData.data eq_refl)
    as (_ & _ & _ & Hstream).
  destruct (Hstream ltac:(vm_compute; discriminate)) as [_ Hall].
  destruct (full_download_in_order
              Sample.env Sample.two_chunks "a"
              (Sample.row "t.txt" 12 File.active) None None
              SampleData.data eq_refl)
    as (_ & _ & Hstrict & _).
  destruct (full_download_in_order
              Sample.env Sample.no_chunk "a"
              (Sample.row "empty.txt" 0 File.active) None None
              SampleData.data eq_refl)
    as (Hnone & _).
  split; [|split].
  - apply Hall.
    + intros p. reflexivity.
    + intros ch Hch.
      change (ch ∈ [Sample.chunk 2 "a" 1 "m2" 7 (Some Sample.url1)]) in Hch.
      apply list_elem_of_singleton in Hch. subst ch. vm_compute. reflexivity.
  - apply Hstrict. intros f i. unfold Db.chunks_at, Sample.two_chunks.
    cbn [Db.chunks]. rewrite !filter_cons, filter_nil.
    repeat case_decide; cbn [length]; try lia.
    unfold Db.at_index, Sample.chunk in *. cbn [Chunk.idx] in *. lia.
  - apply Hnone. reflexivity.
Defined.

Lemma url_expiry_by_site_witness :
  Download.isExpired 1700000000000 (Some Sample.plain) = Some false
  /\ Stream.isExpired 1700000000000 (Some Sample.plain) = true
  /\ Stream.isExpired 1700000000000 (Some Sample.url0) = false
  /\ Download.isExpired 3000000000000 (Some Sample.url0) = Some true
  /\ Stream.fresh_url Sample.refreshing Sample.fresh_chunk
     = (Some Sample.url0, [])
  /\ Stream.fresh_url Sample.refreshing Sample.stale_chunk
     = (Some Sample.url1, [("m1", Some Sample.url1)])
  /\ Download.fetchChunkData Sample.refreshing Sample.plain_chunk
     = (Download.buffer Sample.body0, [])
  /\ Download.fetchChunkData Sample.refreshing Sample.stale_chunk
     = (Download.buffer Sample.body1, [("m1", Some Sample.url1)])
  /\ Download.proxy Sample.refreshing [Sample.plain_chunk] "0"
     = (Download.proxied Sample.plain_chunk
          {| Net.status := 200; Net.body := Sample.body0 |}, [])
  /\ Download.proxy Sample.refreshing [Sample.stale_chunk] "0"
     = (Download.proxied Sample.stale_chunk
          {| Net.status := 200; Net.body := Sample.body1 |},
        [("m1", Some Sample.url1)]).
Proof.
  pose proof (url_expiry_by_site Sample.refreshing Sample.plain_chunk
                1700000000000)
    as (_ & Hnoex & Hplain & Hex & _ & _ & Hfetch & Hproxy).
  pose proof (url_expiry_by_site Sample.refreshing Sample.fresh_chunk
                3000000000000)
    as (_ & _ & _ & Hpast & Hkeep & _).
  pose proof (url_expiry_by_site Sample.refreshing Sample.stale_chunk
                1700000000000)
    as (_ & _ & _ & _ & _ & Hrefresh & Hfetch' & Hproxy').
  split; [exact (Hplain Sample.plain ltac:(discriminate) eq_refl)|].
  split; [exact (Hnoex Sample.plain eq_refl)|].
  destruct (Hex Sample.url0 "7fffffff" 2147483647
              ltac:(discriminate) ltac:(discriminate) eq_refl eq_refl)
    as (Hstream & _).
  split; [exact Hstream|].
  destruct (Hpast Sample.url0 "7fffffff" 2147483647
              ltac:(discriminate) ltac:(discriminate) eq_refl eq_refl)
    as (_ & _ & Hp).
  split; [exact (proj2 (Hp ltac:(lia)) eq_refl)|].
  split; [exact (Hkeep eq_refl)|].
  split.
  { exact (Hrefresh Sample.stale Sample.url1 eq_refl ltac:(discriminate)
             ltac:(discriminate) ltac:(discriminate) eq_refl eq_refl
             eq_refl). }
  split.
  { exact (proj1 (Hfetch {| Net.status := 200; Net.body := Sample.body0 |}
                    (fun _ => eq_refl) eq_refl) eq_refl eq_refl). }
  split.
  { exact (proj2 (Hfetch' {| Net.status := 200; Net.body := Sample.body1 |}
                    (fun _ => eq_refl) eq_refl) eq_refl eq_refl). }
  split.
  { exact (proj1 (Hproxy [Sample.plain_chunk]
                    {| Net.status := 200; Net.body := Sample.body0 |}
                    eq_refl eq_refl) eq_refl eq_refl). }
  exact (proj2 (Hproxy' [Sample.stale_chunk]
                  {| Net.status := 200; Net.body := Sample.body1 |}
                  eq_refl eq_refl) eq_refl eq_refl).
Defined.

(** * Further properties of the engine *)

(** ** The index stays consistent *)

Section Soundness.

Implicit Types (d : Db.t) (c : Chunk.row) (fileId : string).

Lemma lookup_delete_files P d k :
  Db.files (Db.delete_files P d) !! k
  = match Db.files d !! k with
    | Some r => if P k r then None else Some r
    | None => None
    end.
Proof.
  simpl. destruct (Db.files d !! k) as [r|] eqn:Hk.
  - destruct (P k r) eqn:HP.
    + apply map_lookup_filter_None. right. intros x Hx. simpl.
      rewrite Hk in Hx. injection Hx as <-. rewrite HP. discriminate.
    + apply map_lookup_filter_Some. split; [exact Hk | exact HP].
  - apply map_lookup_filter_None. left. exact Hk.
Qed.

Lemma NoDup_map_filter {A B} (f : A -> B) (P : A -> Prop)
    `{forall x, Decision (P x)} (l : list A) :
  NoDup (map f l) -> NoDup (map f (filter P l)).
Proof.
  induction l as [|x l IH]; intros Hnd; [constructor|].
  simpl in Hnd. apply NoDup_cons in Hnd as [Hx Hnd].
  rewrite filter_cons. destruct (decide (P x)); [|apply IH; exact Hnd].
  simpl. apply NoDup_cons. split; [|apply IH; exact Hnd].
  intros Hin. apply Hx.
  apply list_elem_of_fmap in Hin as (y & Hy & Hiny).
  apply list_elem_of_fmap. exists y. split; [exact Hy|].
  apply list_elem_of_filter in Hiny as [_ Hiny]. exact Hiny.
Qed.

Lemma unique_idx_filter (P : Chunk.row -> Prop) `{forall x, Decision (P x)} d d' :
  Db.chunks d' = filter P (Db.chunks d) ->
  Db.unique_idx d -> Db.unique_idx d'.
Proof.
  intros Hc Hu f i. unfold Db.chunks_at. rewrite Hc.
  etransitivity; [apply filter_filter_length|]. apply Hu.
Qed.

Lemma sound_delete_files P d : sound d -> sound (Db.delete_files P d).
Proof. intros [Hsizes Hids Hrow Hu]. split; assumption. Qed.

Lemma sound_delete_chunks P d : sound d -> sound (Db.delete_chunks P d).
Proof.
  intros [Hsizes Hids Hrow Hu]. split.
  - intros c Hc. simpl in Hc. apply list_elem_of_filter in Hc as [_ Hc]. auto.
  - intros c Hc. simpl in Hc. apply list_elem_of_filter in Hc as [_ Hc].
    simpl. auto.
  - simpl. apply NoDup_map_filter. exact Hrow.
  - eapply unique_idx_filter; [reflexivity | exact Hu].
Qed.

Lemma sound_set_status fileId st d : sound d -> sound (Db.set_status fileId st d).
Proof. intros [Hsizes Hids Hrow Hu]. split; assumption. Qed.

Lemma sound_insert_file fileId r d d' :
  Db.insert_file fileId r d = Some d' -> sound d -> sound d'.
Proof.
  unfold Db.insert_file. destruct (Db.files d !! fileId) eqn:Hf; [discriminate|].
  intros [= <-] [Hsizes Hids Hrow Hu]. split; assumption.
Qed.

Lemma sound_insert_pending fileId nm sz body now d :
  sound d -> sound (db (Upload.insert_pending fileId nm sz body now d)).
Proof.
  intros Hs. unfold Upload.insert_pending.
  destruct (Db.insert_file _ _ d) as [d'|] eqn:Hi; simpl; [|exact Hs].
  eapply sound_insert_file; eauto.
Qed.

(** The index in which a chunk upload leaves a consistent index:
    unchanged, without the rows at the pair, or with the new row in
    their place. *)
Lemma chunk_result fileId chunkIndex buffer channelId attachment d :
  let d1 := {| Db.files := Db.files d;
               Db.chunks :=
                 filter (fun c => ~ Db.at_index fileId chunkIndex c)
                        (Db.chunks d);
               Db.seq := Db.seq d |} in
  db (Upload.chunk fileId chunkIndex buffer channelId attachment d) = d
  \/ (Db.is_pending d fileId = true
      /\ db (Upload.chunk fileId chunkIndex buffer channelId attachment d) = d1)
  \/ (exists att,
        attachment = Some att /\ buffer <> []
        /\ Db.is_pending d fileId = true
        /\ db (Upload.chunk fileId chunkIndex buffer channelId attachment d)
           = {| Db.files := Db.files d;
                Db.chunks :=
                  Db.chunks d1
                  ++ [Upload.stored fileId chunkIndex channelId buffer att d];
                Db.seq := Db.seq d + 1 |}).
Proof.
  intros d1.
  destruct (decide (buffer = [])) as [->|Hne].
  { left. reflexivity. }
  destruct (Db.is_pending d fileId) eqn:Hp.
  2:{ left. unfold Upload.chunk, Upload.chunk_begin.
      rewrite decide_False by (destruct buffer; [congruence|discriminate]).
      rewrite Hp. reflexivity. }
  destruct attachment as [att|].
  - right. right. exists att. repeat split; try assumption.
    rewrite (chunk_ok fileId chunkIndex channelId d buffer att Hp Hne).
    reflexivity.
  - right. left. split; [reflexivity|]. unfold Upload.chunk.
    rewrite (chunk_begin_pending fileId chunkIndex d buffer Hp Hne).
    reflexivity.
Qed.

Lemma sound_chunk fileId chunkIndex buffer channelId attachment d :
  sound d ->
  sound (db (Upload.chunk fileId chunkIndex buffer channelId attachment d)).
Proof.
  intros Hs.
  assert (Hs1 : sound {| Db.files := Db.files d;
                         Db.chunks :=
                           filter (fun c => ~ Db.at_index fileId chunkIndex c)
                                  (Db.chunks d);
                         Db.seq := Db.seq d |}).
  { destruct Hs as [Hsizes Hids Hrow Hu]. split; simpl.
    - intros c Hc. apply list_elem_of_filter in Hc as [_ Hc]. auto.
    - intros c Hc. apply list_elem_of_filter in Hc as [_ Hc]. auto.
    - apply NoDup_map_filter. exact Hrow.
    - apply unique_idx_during. exact Hu. }
  destruct (chunk_result fileId chunkIndex buffer channelId attachment d)
    as [-> | [[_ ->] | (att & -> & Hne & Hp & ->)]]; [exact Hs | exact Hs1 |].
  destruct Hs1 as [Hsizes Hids Hrow Hu1].
  destruct Hs as [_ _ _ Hu]. simpl in *.
  split; simpl.
  - intros c Hc. apply elem_of_app in Hc as [Hc|Hc]; [auto|].
    apply list_elem_of_singleton in Hc. subst c. simpl.
    destruct buffer; [congruence | simpl; lia].
  - intros c Hc. apply elem_of_app in Hc as [Hc|Hc].
    + specialize (Hids c Hc). lia.
    + apply list_elem_of_singleton in Hc. subst c. simpl. lia.
  - rewrite map_app. apply NoDup_app. split; [exact Hrow|].
    split; [|simpl; apply NoDup_singleton].
    intros x Hx Hx'. simpl in Hx'. apply list_elem_of_singleton in Hx'.
    apply list_elem_of_fmap in Hx as (c & -> & Hc).
    specialize (Hids c Hc). lia.
  - apply unique_idx_after. exact Hu.
Qed.

(** A chunk upload whose index is [NaN] leaves the index as it is. *)
Lemma chunk_NaN_db fileId buffer attachment d :
  db (ChunkIndex.chunk_NaN fileId buffer attachment d) = d.
Proof.
  unfold ChunkIndex.chunk_NaN. case_decide; [reflexivity|].
  destruct (negb (Db.is_pending d fileId)); [reflexivity|].
  destruct attachment; reflexivity.
Qed.

Lemma sound_chunk_at fileId n buffer channelId attachment d :
  sound d ->
  sound (db (ChunkIndex.chunk_at fileId n buffer channelId attachment d)).
Proof.
  intros Hs. destruct n as [|i]; cbn [ChunkIndex.chunk_at].
  - rewrite chunk_NaN_db. exact Hs.
  - apply sound_chunk, Hs.
Qed.


End Soundness.

Section Reachable.

Lemma sound_empty : sound Db.empty.
Proof.
  split; simpl.
  - intros c Hc. apply elem_of_nil in Hc. contradiction.
  - intros c Hc. apply elem_of_nil in Hc. contradiction.
  - constructor.
  - intros f i. simpl. lia.
Qed.

Lemma sound_handle r d : sound d -> sound (db (Api.handle r d)).
Proof.
  intros Hs.
  destruct r as [b now | fileId chunkIndex buffer channelId attachment
                | fileId skip | fileId | | fileId | | fileId]; simpl.
  - unfold Upload.init.
    destruct (Upload.id b) as [[|a i]|]; try exact Hs.
    destruct (Upload.name b) as [[|c n]|]; try exact Hs.
    destruct (Upload.size b) as [sz|]; try exact Hs.
    destruct (Db.get_file d (String a i)) as [existing|].
    + case_decide; [exact Hs|].
      apply sound_insert_pending, sound_delete_files, Hs.
    + apply sound_insert_pending, Hs.
  - apply sound_chunk_at, Hs.
  - apply sound_set_status, Hs.
  - apply sound_delete_files, Hs.
  - apply sound_delete_files, sound_delete_chunks, Hs.
  - unfold Files.restore. destruct (Db.get_file d fileId); [|exact Hs].
    case_decide; [|exact Hs]. apply sound_set_status, Hs.
  - unfold Files.empty_trash. case_decide; [exact Hs|].
    apply sound_delete_chunks, sound_delete_files, Hs.
  - unfold Files.delete. destruct (Db.get_file d fileId); [|exact Hs].
    case_decide; [apply sound_set_status, Hs | apply sound_delete_files, Hs].
Qed.

Lemma run_snoc rs r d :
  Api.run (rs ++ [r]) d = db (Api.handle r (Api.run rs d)).
Proof. unfold Api.run. rewrite fold_left_app. reflexivity. Qed.

Lemma sound_run rs : sound (Api.run rs Db.empty).
Proof.
  induction rs as [|r rs IH] using rev_ind; [exact sound_empty|].
  rewrite run_snoc. apply sound_handle, IH.
Qed.


End Reachable.

(** ** The life of a file row *)

Section Transitions.

Implicit Types (d : Db.t) (fileId k : string).

Lemma allowed_refl s : Api.allowed s s = true.
Proof. destruct s as [[]|]; reflexivity. Qed.

Lemma chunk_files fileId chunkIndex buffer channelId attachment d :
  Db.files (db (Upload.chunk fileId chunkIndex buffer channelId attachment d))
  = Db.files d.
Proof.
  destruct (chunk_result fileId chunkIndex buffer channelId attachment d)
    as [-> | [[_ ->] | (att & -> & _ & _ & ->)]]; reflexivity.
Qed.

Lemma chunk_at_files fileId n buffer channelId attachment d :
  Db.files (db (ChunkIndex.chunk_at fileId n buffer channelId attachment d))
  = Db.files d.
Proof.
  destruct n as [|i]; cbn [ChunkIndex.chunk_at].
  - rewrite chunk_NaN_db. reflexivity.
  - apply chunk_files.
Qed.

Lemma insert_pending_files fileId nm sz b now d k :
  k <> fileId ->
  Db.files (db (Upload.insert_pending fileId nm sz b now d)) !! k
  = Db.files d !! k.
Proof.
  intros Hk. unfold Upload.insert_pending, Db.insert_file.
  destruct (Db.files d !! fileId); simpl; [reflexivity|].
  apply lookup_insert_ne. congruence.
Qed.

Lemma insert_pending_chunks fileId nm sz b now d :
  Db.chunks (db (Upload.insert_pending fileId nm sz b now d)) = Db.chunks d.
Proof.
  unfold Upload.insert_pending, Db.insert_file.
  destruct (Db.files d !! fileId); reflexivity.
Qed.

Lemma in_trash_ids d k :
  k ∈ map fst (filter (fun kv => File.status kv.2 = File.trashed)
                      (map_to_list (Db.files d)))
  <-> Files.is_trashed d k = true.
Proof.
  split; [|apply trashed_in_ids].
  intros Hin. apply list_elem_of_fmap in Hin as ([k' r] & -> & Hin).
  apply list_elem_of_filter in Hin as [Hst Hin].
  apply elem_of_map_to_list in Hin. unfold Files.is_trashed. simpl in *.
  rewrite Hin. apply bool_decide_eq_true_2. exact Hst.
Qed.

Local Ltac unchanged := left; simpl; first [reflexivity | assumption].

(** The file rows after a request, row by row. *)
Lemma handle_files r d k :
  Db.files (db (Api.handle r d)) !! k = Db.files d !! k
  \/ (exists row, Db.files d !! k = Some row
        /\ File.status row <> File.active
        /\ (Db.files (db (Api.handle r d)) !! k = None
            \/ exists row', Db.files (db (Api.handle r d)) !! k = Some row'
                 /\ (File.status row' = File.pending
                     \/ row' = Db.with_status File.active row)))
  \/ (exists row, Db.files d !! k = Some row
        /\ File.status row = File.active
        /\ Db.files (db (Api.handle r d)) !! k
           = Some (Db.with_status File.trashed row))
  \/ (Db.files d !! k = None
      /\ exists row', Db.files (db (Api.handle r d)) !! k = Some row'
           /\ File.status row' = File.pending).
Proof.
  destruct r as [b now | fileId chunkIndex buffer channelId attachment
                | fileId skip | fileId | | fileId | | fileId];
    unfold Api.handle.
  - unfold Upload.init.
    destruct (Upload.id b) as [[|a i]|]; try (unchanged).
    destruct (Upload.name b) as [[|c n]|]; try (unchanged).
    destruct (Upload.size b) as [sz|]; try (unchanged).
    destruct (decide (k = String a i)) as [->|Hk].
    + unfold Db.get_file.
      destruct (Db.files d !! String a i) as [existing|] eqn:He.
      * case_decide as Hst; [unchanged|].
        right. left. exists existing. split; [reflexivity|].
        split; [exact Hst|]. right.
        rewrite insert_pending_fresh
          by (rewrite files_delete_same_id; apply lookup_delete_eq).
        simpl. rewrite lookup_insert_eq. eexists. split; [reflexivity|].
        left. reflexivity.
      * right. right. right. split; [reflexivity|].
        rewrite insert_pending_fresh by exact He. simpl.
        rewrite lookup_insert_eq. eexists. split; reflexivity.
    + left. destruct (Db.get_file d (String a i)) as [existing|].
      * case_decide; [reflexivity|].
        rewrite insert_pending_files by exact Hk.
        rewrite files_delete_same_id. apply lookup_delete_ne. congruence.
      * apply insert_pending_files. exact Hk.
  - left. rewrite chunk_at_files. reflexivity.
  - unfold Upload.finalize. cbn [db Db.set_status Db.files].
    rewrite lookup_alter. case_decide as Hk; [|unchanged]. subst k.
    destruct (Db.files d !! fileId) as [row|] eqn:Hr; [|unchanged].
    simpl. destruct (decide (File.status row = File.active)) as [Hst|Hst].
    + left. destruct row; simpl in *; subst; reflexivity.
    + right. left. exists row. split; [reflexivity|]. split; [exact Hst|].
      right. eexists. split; [reflexivity|]. right. reflexivity.
  - unfold Upload.abort. cbn [db].
    rewrite (lookup_delete_files (Upload.pending_with_id fileId) d k).
    destruct (Db.files d !! k) as [row|] eqn:Hr; [|unchanged].
    destruct (Upload.pending_with_id fileId k row) eqn:HP; [|unchanged].
    right. left. exists row. split; [reflexivity|].
    unfold Upload.pending_with_id in HP. apply andb_true_iff in HP as [_ HP].
    apply bool_decide_eq_true_1 in HP. split; [congruence|]. left. reflexivity.
  - unfold Upload.purge_pending. cbn [db].
    rewrite (lookup_delete_files Upload.is_pending_row _ k).
    cbn [Db.delete_chunks Db.files].
    destruct (Db.files d !! k) as [row|] eqn:Hr; [|unchanged].
    destruct (Upload.is_pending_row k row) eqn:HP; [|unchanged].
    right. left. exists row. split; [reflexivity|].
    apply bool_decide_eq_true_1 in HP. split; [congruence|]. left. reflexivity.
  - unfold Files.restore, Db.get_file.
    destruct (Db.files d !! fileId) as [file|] eqn:Hf; [|unchanged].
    case_decide as Hst; [|unchanged]. simpl.
    rewrite lookup_alter. case_decide as Hk; [|unchanged]. subst k.
    rewrite Hf. simpl. right. left. exists file. split; [reflexivity|].
    split; [congruence|]. right. eexists. split; [reflexivity|].
    right. reflexivity.
  - unfold Files.empty_trash. case_decide; [unchanged|].
    cbn [db]. unfold Db.delete_chunks. cbn [Db.files].
    match goal with
    | |- context [Db.delete_files ?P d] =>
        rewrite (lookup_delete_files P d k)
    end.
    destruct (Db.files d !! k) as [row|] eqn:Hr; [|unchanged].
    case_bool_decide as Hin; [|unchanged].
    apply in_trash_ids in Hin. unfold Files.is_trashed in Hin.
    rewrite Hr in Hin. apply bool_decide_eq_true_1 in Hin.
    right. left. exists row. split; [reflexivity|].
    split; [congruence|]. left. reflexivity.
  - unfold Files.delete, Db.get_file.
    destruct (Db.files d !! fileId) as [file|] eqn:Hf; [|unchanged].
    case_decide as Hst.
    + simpl. rewrite lookup_alter. case_decide as Hk; [|unchanged].
      subst k. rewrite Hf. simpl. right. right. left. exists file.
      repeat split; assumption.
    + cbn [db]. rewrite files_delete_same_id.
      destruct (decide (k = fileId)) as [->|Hk].
      * rewrite lookup_delete_eq, Hf. right. left. exists file.
        split; [reflexivity|]. split; [exact Hst|]. left. reflexivity.
      * left. apply lookup_delete_ne. congruence.
Qed.

(** X2. One request moves a file row along the life cycle only: a row
    is created pending; an active row stays active or goes to the trash,
    it is never removed, overwritten or made pending again in one step;
    a pending row never goes to the trash. *)
Theorem status_moves_along_life_cycle (r : Api.Request) (d : Db.t)
    (fileId : string) :
  Api.allowed (Api.status_of_id d fileId)
              (Api.status_of_id (db (Api.handle r d)) fileId) = true.
Proof.
  unfold Api.status_of_id.
  destruct (handle_files r d fileId)
    as [-> | [(row & -> & Hst & Hafter) | [(row & -> & Hst & ->)
       | (-> & row' & -> & Hst)]]].
  - apply allowed_refl.
  - simpl. destruct Hafter as [-> | (row' & -> & [Hp | ->])]; simpl.
    + destruct (File.status row); try reflexivity. congruence.
    + rewrite Hp. destruct (File.status row); try reflexivity. congruence.
    + destruct (File.status row); reflexivity.
  - simpl. rewrite Hst. reflexivity.
  - simpl. rewrite Hst. reflexivity.
Qed.

End Transitions.

Section ActiveFiles.

Implicit Types (d : Db.t) (fileId k : string).

Lemma filter_filter_keep {A} (P Q : A -> Prop)
    `{forall x, Decision (P x)} `{forall x, Decision (Q x)} (l : list A) :
  (forall x, x ∈ l -> P x -> Q x) ->
  filter P (filter Q l) = filter P l.
Proof.
  induction l as [|x l IH]; intros Himp; [reflexivity|].
  assert (Hl : forall y, y ∈ l -> P y -> Q y).
  { intros y Hy. apply Himp. right. exact Hy. }
  rewrite (filter_cons Q). destruct (decide (Q x)) as [Hq|Hq].
  - rewrite !filter_cons. destruct (decide (P x)); rewrite IH; auto.
  - rewrite filter_cons. destruct (decide (P x)) as [Hp|Hp].
    + exfalso. apply Hq, Himp; [left | exact Hp].
    + apply IH, Hl.
Qed.

Lemma chunks_of_delete_chunks_keep (Q : Chunk.row -> bool) d k :
  (forall c, Chunk.file_id c = k -> Q c = false) ->
  Db.chunks_of (Db.delete_chunks Q d) k = Db.chunks_of d k.
Proof.
  intros HQ. unfold Db.chunks_of. cbn [Db.delete_chunks Db.chunks].
  apply filter_filter_keep. intros c _ Hc. apply HQ, Hc.
Qed.

Lemma chunk_keeps_other fileId chunkIndex buffer channelId attachment d k :
  Db.is_pending d k = false ->
  Db.chunks_of
    (db (Upload.chunk fileId chunkIndex buffer channelId attachment d)) k
  = Db.chunks_of d k.
Proof.
  intros Hk.
  assert (Hd1 :
    Db.is_pending d fileId = true ->
    filter (fun c => Chunk.file_id c = k)
      (filter (fun c => ~ Db.at_index fileId chunkIndex c) (Db.chunks d))
    = filter (fun c => Chunk.file_id c = k) (Db.chunks d)).
  { intros Hp. apply filter_filter_keep. intros c _ Hc [Hf _].
    rewrite Hc in Hf. subst k. congruence. }
  destruct (chunk_result fileId chunkIndex buffer channelId attachment d)
    as [-> | [[Hp ->] | (att & -> & _ & Hp & ->)]]; [reflexivity | |].
  - unfold Db.chunks_of. simpl. apply Hd1, Hp.
  - unfold Db.chunks_of. cbn [Db.chunks]. rewrite filter_app, (Hd1 Hp).
    rewrite filter_cons, decide_False, filter_nil, app_nil_r; [reflexivity|].
    simpl. intros <-. congruence.
Qed.

Lemma active_not_pending d k row :
  Db.files d !! k = Some row -> File.status row = File.active ->
  Db.is_pending d k = false.
Proof.
  intros Hr Hst. unfold Db.is_pending. rewrite Hr.
  apply bool_decide_eq_false_2. congruence.
Qed.

Lemma handle_keeps_active_chunks r d k row :
  Db.files d !! k = Some row -> File.status row = File.active ->
  Db.chunks_of (db (Api.handle r d)) k = Db.chunks_of d k.
Proof.
  intros Hr Hst.
  destruct r as [b now | fileId chunkIndex buffer channelId attachment
                | fileId skip | fileId | | fileId | | fileId];
    unfold Api.handle.
  - unfold Upload.init.
    destruct (Upload.id b) as [[|a i]|]; try reflexivity.
    destruct (Upload.name b) as [[|c n]|]; try reflexivity.
    destruct (Upload.size b) as [sz|]; try reflexivity.
    unfold Db.chunks_of. unfold Db.get_file.
    destruct (Db.files d !! String a i) as [existing|] eqn:He.
    + case_decide as Hex; [reflexivity|].
      rewrite insert_pending_chunks. reflexivity.
    + rewrite insert_pending_chunks. reflexivity.
  - destruct chunkIndex as [|i]; cbn [ChunkIndex.chunk_at].
    + rewrite chunk_NaN_db. reflexivity.
    + apply chunk_keeps_other. eapply active_not_pending; eassumption.
  - reflexivity.
  - reflexivity.
  - unfold Upload.purge_pending. cbn [db].
    rewrite chunks_of_delete_files.
    apply chunks_of_delete_chunks_keep. intros c ->.
    eapply active_not_pending; eassumption.
  - unfold Files.restore. destruct (Db.get_file d fileId); [|reflexivity].
    case_decide; reflexivity.
  - unfold Files.empty_trash. case_decide; [reflexivity|]. cbn [db].
    assert (Hk : bool_decide
              (k ∈ map fst (filter (fun kv => File.status kv.2 = File.trashed)
                                   (map_to_list (Db.files d)))) = false).
    { apply bool_decide_eq_false_2. rewrite in_trash_ids.
      unfold Files.is_trashed. rewrite Hr, Hst.
      rewrite bool_decide_eq_false_2 by discriminate. discriminate. }
    rewrite chunks_of_delete_chunks_keep by (intros c ->; exact Hk).
    reflexivity.
  - unfold Files.delete, Db.get_file.
    destruct (Db.files d !! fileId) as [file|] eqn:Hf; [|reflexivity].
    case_decide as Hfst; reflexivity.
Qed.

(** The messages that a chunk upload hands to the clean-up: none, or
    that of a row of the pending file at the index. *)
Lemma chunk_tasks fileId chunkIndex buffer channelId attachment d :
  scheduled
    (tasks (Upload.chunk fileId chunkIndex buffer channelId attachment d)) = []
  \/ (Db.is_pending d fileId = true
      /\ exists c,
           c ∈ Db.chunks d /\ Db.at_index fileId chunkIndex c
           /\ scheduled
                (tasks (Upload.chunk fileId chunkIndex buffer channelId
                          attachment d))
              = [Chunk.message_id c]).
Proof.
  destruct (decide (buffer = [])) as [->|Hne]; [left; reflexivity|].
  destruct (Db.is_pending d fileId) eqn:Hp.
  2:{ left. unfold Upload.chunk, Upload.chunk_begin.
      rewrite decide_False by (destruct buffer; [congruence|discriminate]).
      rewrite Hp. reflexivity. }
  assert (Ht : tasks (Upload.chunk fileId chunkIndex buffer channelId
                        attachment d)
               = match Db.chunks_at d fileId chunkIndex with
                 | existingChunk :: _ =>
                     [bulkDeleteFromDiscord [Chunk.message_id existingChunk]]
                 | [] => []
                 end).
  { destruct attachment as [att|].
    - rewrite (chunk_ok fileId chunkIndex channelId d buffer att Hp Hne).
      reflexivity.
    - unfold Upload.chunk.
      rewrite (chunk_begin_pending fileId chunkIndex d buffer Hp Hne).
      cbn [Upload.chunk_end tasks]. apply app_nil_r. }
  rewrite Ht.
  destruct (Db.chunks_at d fileId chunkIndex) as [|c l] eqn:Hat;
    [left; reflexivity|].
  right. split; [reflexivity|]. exists c.
  assert (Hc : c ∈ Db.chunks_at d fileId chunkIndex) by (rewrite Hat; left).
  unfold Db.chunks_at in Hc. apply list_elem_of_filter in Hc as [Hidx Hc].
  split; [exact Hc|]. split; [exact Hidx | reflexivity].
Qed.

Lemma chunk_NaN_tasks fileId buffer attachment d :
  tasks (ChunkIndex.chunk_NaN fileId buffer attachment d) = [].
Proof.
  unfold ChunkIndex.chunk_NaN. case_decide; [reflexivity|].
  destruct (negb (Db.is_pending d fileId)); [reflexivity|].
  destruct attachment; reflexivity.
Qed.

Lemma scheduled_bulk (l : list string) :
  scheduled (if decide (0 < length l)%nat
             then [bulkDeleteFromDiscord l] else []) = l.
Proof.
  case_decide as Hlen; cbn [scheduled flat_map].
  - apply app_nil_r.
  - destruct l; [reflexivity | simpl in Hlen; lia].
Qed.

(** The messages that a request hands to the clean-up are those of
    chunk rows of the index; a row of an active file is among them only
    for an abort aimed at that file. *)
Lemma handle_scheduled r d k row mid :
  Db.files d !! k = Some row -> File.status row = File.active ->
  mid ∈ scheduled (tasks (Api.handle r d)) ->
  exists c,
    c ∈ Db.chunks d /\ Chunk.message_id c = mid
    /\ (Chunk.file_id c <> k \/ r = Api.Abort k).
Proof.
  intros Hr Hst.
  pose (none := fun (H : mid ∈ @nil string) => proj1 (elem_of_nil mid) H).
  assert (Hnp : Db.is_pending d k = false)
    by (eapply active_not_pending; eassumption).
  destruct r as [b now | fileId chunkIndex buffer channelId attachment
                | fileId skip | fileId | | fileId | | fileId];
    unfold Api.handle.
  - unfold Upload.init, Upload.insert_pending.
    destruct (Upload.id b) as [[|a i]|]; try (intros Hm; exact (False_ind _ (none Hm))).
    destruct (Upload.name b) as [[|c n]|]; try (intros Hm; exact (False_ind _ (none Hm))).
    destruct (Upload.size b) as [sz|]; try (intros Hm; exact (False_ind _ (none Hm))).
    destruct (Db.get_file d (String a i)) as [existing|].
    + case_decide; [intros Hm; exact (False_ind _ (none Hm))|].
      destruct (Db.insert_file _ _ _); intros Hm; exact (False_ind _ (none Hm)).
    + destruct (Db.insert_file _ _ _); intros Hm; exact (False_ind _ (none Hm)).
  - destruct chunkIndex as [|i]; cbn [ChunkIndex.chunk_at].
    + rewrite chunk_NaN_tasks. intros H. inversion H.
    + destruct (chunk_tasks fileId i buffer channelId attachment d)
        as [-> | (Hp & c & Hc & [Hf _] & ->)]; [intros Hm; exact (False_ind _ (none Hm))|].
      intros Hmid. apply list_elem_of_singleton in Hmid. subst mid.
      exists c. split; [exact Hc|]. split; [reflexivity|]. left.
      intros Hk. rewrite Hf in Hk. subst k. congruence.
  - unfold Upload.finalize. cbn [tasks].
    destruct skip; intros Hm; exact (False_ind _ (none Hm)).
  - unfold Upload.abort. cbn [tasks]. rewrite scheduled_bulk.
    intros Hmid. apply list_elem_of_fmap in Hmid as (c & -> & Hc).
    unfold Db.chunks_of in Hc. apply list_elem_of_filter in Hc as [Hf Hc].
    exists c. split; [exact Hc|]. split; [reflexivity|].
    destruct (decide (fileId = k)) as [->|Hne]; [right; reflexivity|].
    left. congruence.
  - unfold Upload.purge_pending. cbn [tasks]. rewrite scheduled_bulk.
    intros Hmid. apply list_elem_of_fmap in Hmid as (c & -> & Hc).
    apply list_elem_of_filter in Hc as [Hp Hc].
    exists c. split; [exact Hc|]. split; [reflexivity|]. left.
    intros Hk. rewrite Hk in Hp. congruence.
  - unfold Files.restore. destruct (Db.get_file d fileId); [|intros Hm; exact (False_ind _ (none Hm))].
    case_decide; intros Hm; exact (False_ind _ (none Hm)).
  - unfold Files.empty_trash. case_decide; [intros Hm; exact (False_ind _ (none Hm))|].
    cbn [tasks scheduled flat_map]. rewrite !app_nil_r.
    intros Hmid. apply list_elem_of_fmap in Hmid as (c & -> & Hc).
    apply list_elem_of_filter in Hc as [Hin Hc].
    exists c. split; [exact Hc|]. split; [reflexivity|]. left.
    intros Hk. apply bool_decide_eq_true_1 in Hin. rewrite Hk in Hin.
    apply in_trash_ids in Hin. unfold Files.is_trashed in Hin.
    rewrite Hr, Hst in Hin. rewrite bool_decide_eq_false_2 in Hin
      by discriminate. discriminate.
  - unfold Files.delete, Db.get_file.
    destruct (Db.files d !! fileId) as [file|] eqn:Hf; [|intros Hm; exact (False_ind _ (none Hm))].
    case_decide as Hfst; [intros Hm; exact (False_ind _ (none Hm))|].
    cbn [tasks scheduled flat_map]. rewrite !app_nil_r.
    intros Hmid. apply list_elem_of_fmap in Hmid as (c & -> & Hc).
    unfold Db.chunks_of in Hc. apply list_elem_of_filter in Hc as [Hfc Hc].
    exists c. split; [exact Hc|]. split; [reflexivity|]. left.
    intros Hk. rewrite Hfc in Hk. subst k. congruence.
Qed.

(** X3. What a single request does to an active file.  Its row is
    still there afterwards with the same name, size, type, iv, salt and
    creation time, active or in the trash, and its chunk rows are the
    same rows in the same order.  Every message that the request hands
    to the external clean-up is that of a chunk row of the index, and
    of a row of another file, with one exception: an abort aimed at the
    active file hands over the messages of all its chunks, while it
    keeps the rows. *)
Theorem active_file_is_kept (r : Api.Request) (d : Db.t) (fileId : string)
    (row : File.row) :
  Db.files d !! fileId = Some row ->
  File.status row = File.active ->
  (exists row',
     Db.files (db (Api.handle r d)) !! fileId = Some row'
     /\ same_content row row'
     /\ (File.status row' = File.active \/ File.status row' = File.trashed))
  /\ Db.chunks_of (db (Api.handle r d)) fileId = Db.chunks_of d fileId
  /\ (forall mid,
        mid ∈ scheduled (tasks (Api.handle r d)) ->
        exists c,
          c ∈ Db.chunks d /\ Chunk.message_id c = mid
          /\ (Chunk.file_id c <> fileId \/ r = Api.Abort fileId))
  /\ (r = Api.Abort fileId ->
      scheduled (tasks (Api.handle r d))
      = map Chunk.message_id (Db.chunks_of d fileId)).
Proof.
  intros Hr Hst.
  split; [|split; [eapply handle_keeps_active_chunks; eassumption|split]].
  - destruct (handle_files r d fileId)
      as [Hsame | [(row0 & Hr0 & Hst0 & _) | [(row0 & Hr0 & _ & Hafter)
         | (Hnone & _)]]].
    + exists row. rewrite Hsame. split; [exact Hr|]. split; [|left; exact Hst].
      unfold same_content. destruct row; reflexivity.
    + congruence.
    + assert (row0 = row) as -> by congruence.
      exists (Db.with_status File.trashed row). split; [exact Hafter|].
      split; [reflexivity | right; reflexivity].
    + congruence.
  - intros mid. eapply handle_scheduled; eassumption.
  - intros ->. unfold Api.handle, Upload.abort. cbn [tasks].
    apply scheduled_bulk.
Qed.

Lemma active_file_is_kept_witness :
  (exists row',
     Db.files (db (Api.handle (Api.Abort "a") Sample.two_chunks)) !! "a"
     = Some row'
     /\ same_content (Sample.row "t.txt" 12 File.active) row'
     /\ (File.status row' = File.active \/ File.status row' = File.trashed))
  /\ Db.chunks_of (db (Api.handle (Api.Abort "a") Sample.two_chunks)) "a"
     = Db.chunks_of Sample.two_chunks "a"
  /\ scheduled (tasks (Api.handle (Api.Abort "a") Sample.two_chunks))
     = ["m1"; "m2"].
Proof.
  destruct (active_file_is_kept (Api.Abort "a") Sample.two_chunks "a"
              (Sample.row "t.txt" 12 File.active) eq_refl eq_refl)
    as (Hrow & Hchunks & _ & Habort).
  split; [exact Hrow|]. split; [exact Hchunks|]. exact (Habort eq_refl).
Defined.

End ActiveFiles.

(** ** Index rows and external records *)

Section Accounting.

Implicit Types (d : Db.t) (fileId : string).

Lemma filter_bool_split {A} (Q : A -> bool) (l : list A) :
  l ≡ₚ filter (fun x => Q x = false) l ++ filter (fun x => Q x = true) l.
Proof.
  induction l as [|x l IH]; [reflexivity|].
  rewrite !filter_cons. destruct (Q x) eqn:HQ.
  - rewrite decide_False by discriminate. rewrite decide_True by reflexivity.
    rewrite <- Permutation_middle. constructor. exact IH.
  - rewrite decide_True by reflexivity. rewrite decide_False by discriminate.
    simpl. constructor. exact IH.
Qed.

Lemma accounts_filter (Q : Chunk.row -> bool) d o :
  Db.chunks (db o) = filter (fun c => Q c = false) (Db.chunks d) ->
  scheduled (tasks o)
  = map Chunk.message_id (filter (fun c => Q c = true) (Db.chunks d)) ->
  accounts d o.
Proof.
  intros Hc Ht. exists (filter (fun c => Q c = true) (Db.chunks d)).
  split; [|exact Ht]. rewrite Hc. apply filter_bool_split.
Qed.

Lemma accounts_nothing d o :
  Db.chunks (db o) = Db.chunks d -> scheduled (tasks o) = [] -> accounts d o.
Proof.
  intros Hc Ht. exists []. rewrite Hc, Ht, app_nil_r. split; reflexivity.
Qed.

Lemma filter_ext_in {A} (P Q : A -> Prop)
    `{forall x, Decision (P x)} `{forall x, Decision (Q x)} (l : list A) :
  (forall x, x ∈ l -> P x <-> Q x) -> filter P l = filter Q l.
Proof.
  induction l as [|x l IH]; intros Hpq; [reflexivity|].
  rewrite !filter_cons.
  assert (Hx : P x <-> Q x) by (apply Hpq; left).
  rewrite IH by (intros y Hy; apply Hpq; right; exact Hy).
  destruct (decide (P x)), (decide (Q x)); tauto || reflexivity.
Qed.

(** X4. The two clean-up routes, [DELETE /trash] and [DELETE
    /file/pending/all], take from the index exactly the chunk rows
    whose messages they hand to the external clean-up: every row they
    remove is scheduled, and no row that stays is.  [DELETE /:id] on a
    file that is not active does not: it hands the messages of all the
    chunks of the file to the clean-up and leaves every chunk row in
    the index. *)
Theorem clean_up_routes_account_for_chunks (d : Db.t) (fileId : string) :
  accounts d (Files.empty_trash d)
  /\ accounts d (Upload.purge_pending d)
  /\ (forall file,
        Db.get_file d fileId = Some file ->
        File.status file <> File.active ->
        Db.chunks (db (Files.delete fileId d)) = Db.chunks d
        /\ scheduled (tasks (Files.delete fileId d))
           = map Chunk.message_id (Db.chunks_of d fileId)).
Proof.
  split; [|split].
  - unfold Files.empty_trash.
    case_decide; [apply accounts_nothing; reflexivity|].
    match goal with
    | |- context [Db.delete_chunks ?Q _] => apply (accounts_filter Q)
    end.
    + reflexivity.
    + cbn [tasks scheduled flat_map]. rewrite !app_nil_r. reflexivity.
  - unfold Upload.purge_pending.
    apply (accounts_filter (fun c => Db.is_pending d (Chunk.file_id c))).
    + reflexivity.
    + cbn [tasks]. apply scheduled_bulk.
  - intros file Hf Hst. unfold Files.delete. rewrite Hf.
    rewrite decide_False by exact Hst. split; [reflexivity|].
    cbn [tasks scheduled flat_map]. rewrite !app_nil_r. reflexivity.
Qed.

End Accounting.

(** ** The client's pool of tasks *)

Section PoolProperties.

Import Client.
Local Open Scope list_scope.

Variables n concurrency : nat.

Lemma runNext_started s :
  aborted s = false -> (currentIndex s < n)%nat ->
  runNext n s
  = {| currentIndex := S (currentIndex s); running := S (running s);
       aborted := false; settled := settled s;
       in_flight := in_flight s ++ [currentIndex s];
       returned := returned s |}.
Proof.
  intros Ha Hlt. unfold runNext. rewrite Ha. simpl.
  destruct (Nat.leb_spec n (currentIndex s)); [lia | reflexivity].
Qed.

Lemma runNext_full s :
  (n <= currentIndex s)%nat -> runNext n s = s.
Proof.
  intros Hle. unfold runNext.
  destruct (Nat.leb_spec n (currentIndex s)); [|lia].
  rewrite orb_true_r. reflexivity.
Qed.

(** The loop that starts the first [k] tasks. *)
Lemma start_loop k :
  (k <= n)%nat ->
  Nat.iter k (runNext n) init
  = {| currentIndex := k; running := k; aborted := false; settled := None;
       in_flight := seq 0 k; returned := [] |}.
Proof.
  induction k as [|k IH]; intros Hk; [reflexivity|].
  change (Nat.iter (S k) (runNext n) init)
    with (runNext n (Nat.iter k (runNext n) init)).
  rewrite IH by lia. rewrite runNext_started by (simpl; lia || reflexivity).
  rewrite seq_S. reflexivity.
Qed.

Lemma start_eq :
  start n concurrency
  = {| currentIndex := Nat.min concurrency n; running := Nat.min concurrency n;
       aborted := false; settled := None;
       in_flight := seq 0 (Nat.min concurrency n); returned := [] |}.
Proof. unfold start. apply start_loop. lia. Qed.

Lemma inv_start : pool_inv n concurrency (start n concurrency).
Proof.
  rewrite start_eq. split; simpl.
  - lia.
  - intros i Hi. rewrite app_nil_r in Hi. apply elem_of_seq in Hi. lia.
  - rewrite app_nil_r. apply NoDup_seq.
  - rewrite length_seq. lia.
  - intros _. rewrite app_nil_r, length_seq. split; reflexivity.
  - split; discriminate.
  - discriminate.
  - intros _ Hn Hc Hnil. apply (f_equal length) in Hnil.
    rewrite length_seq in Hnil. simpl in Hnil. lia.
  - intros _ Hlt. rewrite length_seq. lia.
Qed.

Lemma filter_absent (i : nat) (l : list nat) :
  i ∉ l -> filter (fun j => j <> i) l = l.
Proof.
  induction l as [|x l IH]; intros Hi; [reflexivity|].
  rewrite not_elem_of_cons in Hi. destruct Hi as [Hne Hi].
  rewrite filter_cons, decide_True by congruence. rewrite IH by exact Hi.
  reflexivity.
Qed.

Lemma filter_remove (i : nat) (l : list nat) :
  NoDup l -> i ∈ l -> l ≡ₚ i :: filter (fun j => j <> i) l.
Proof.
  induction l as [|x l IH]; intros Hnd Hin.
  - apply elem_of_nil in Hin. contradiction.
  - apply NoDup_cons in Hnd as [Hx Hnd]. rewrite filter_cons.
    destruct (decide (x = i)) as [->|Hne].
    + rewrite decide_False by tauto. rewrite filter_absent by exact Hx.
      reflexivity.
    + rewrite decide_True by exact Hne.
      apply elem_of_cons in Hin as [->|Hin]; [congruence|].
      rewrite (IH Hnd Hin) at 1. apply perm_swap.
Qed.

Lemma inv_complete i ok s :
  pool_inv n concurrency s -> pool_inv n concurrency (complete n i ok s).
Proof.
  intros [Hidx Hst Honce Hbound Hall Hrej Hres Hprog Hfill].
  unfold complete. case_bool_decide as Hin;
    [|split; assumption].
  assert (Hnd : NoDup (in_flight s)) by (apply NoDup_app in Honce; tauto).
  pose proof (filter_remove i (in_flight s) Hnd Hin) as Hperm.
  set (rest := filter (fun j => j <> i) (in_flight s)) in *.
  assert (Hlen : length (in_flight s) = S (length rest))
    by (rewrite Hperm; reflexivity).
  assert (Hsub : forall j, j ∈ rest -> j ∈ in_flight s).
  { intros j Hj. unfold rest in Hj. apply list_elem_of_filter in Hj. tauto. }
  assert (Hp' : in_flight s ++ returned s ≡ₚ rest ++ returned s ++ [i]).
  { rewrite Hperm. simpl. rewrite Permutation_middle.
    apply Permutation_app_head. apply Permutation_cons_append. }
  assert (Honce' : NoDup (rest ++ returned s ++ [i]))
    by (rewrite <- Hp'; exact Honce).
  assert (Hst' : forall j, j ∈ rest ++ returned s ++ [i] ->
                           (j < currentIndex s)%nat).
  { intros j Hj. apply Hst. rewrite Hp'. exact Hj. }
  assert (Honce'' : NoDup (rest ++ returned s)).
  { apply NoDup_app in Honce as (_ & Hdisj & Hr).
    apply NoDup_app. split; [unfold rest; apply NoDup_filter, Hnd|].
    split; [|exact Hr]. intros j Hj. apply Hdisj, Hsub, Hj. }
  assert (Hst'' : forall j, j ∈ rest ++ returned s ->
                            (j < currentIndex s)%nat).
  { intros j Hj. apply Hst. apply elem_of_app in Hj as [Hj|Hj];
      apply elem_of_app; [left; apply Hsub, Hj | right; exact Hj]. }
  assert (Hin_res : settled s <> Some true).
  { intros Hs. apply Hres in Hs as [Hnil _]. rewrite Hnil in Hin.
    apply elem_of_nil in Hin. contradiction. }
  destruct Hrej as [Hab Hba].
  destruct (aborted s) eqn:Ha.
  - (* the pool has rejected already *)
    pose proof (Hab eq_refl) as Hsf.
    destruct ok; cbn [aborted];
      split; cbn [currentIndex running aborted settled in_flight returned].
    all: try exact Hidx; try exact Hst'; try exact Hst'';
      try exact Honce'; try exact Honce''; try lia; try discriminate;
      try (split; [intros _; exact Hsf | reflexivity]);
      rewrite Hsf; discriminate.
  - destruct (Hall eq_refl) as [Hperm_all Hrun].
    assert (Hnone : settled s = None).
    { destruct (settled s) as [[]|]; [congruence | | reflexivity].
      specialize (Hba eq_refl). discriminate. }
    destruct ok; cbn [aborted].
    + cbn [currentIndex].
      destruct (Nat.ltb_spec (currentIndex s) n) as [Hlt|Hge].
      * rewrite runNext_started by (simpl; first [reflexivity | assumption]).
        split; cbn [currentIndex running aborted settled in_flight returned].
        -- lia.
        -- intros j Hj. rewrite <- app_assoc in Hj.
           apply elem_of_app in Hj as [Hj|Hj].
           ++ specialize (Hst' j). rewrite elem_of_app in Hst'.
              specialize (Hst' (or_introl Hj)). lia.
           ++ apply elem_of_cons in Hj as [->|Hj]; [lia|].
              specialize (Hst' j). rewrite elem_of_app in Hst'.
              specialize (Hst' (or_intror Hj)). lia.
        -- assert (Hq : (rest ++ [currentIndex s]) ++ returned s ++ [i]
                        ≡ₚ currentIndex s :: rest ++ returned s ++ [i]).
           { rewrite <- app_assoc. simpl. rewrite <- Permutation_middle.
             reflexivity. }
           rewrite Hq. apply NoDup_cons. split; [|exact Honce'].
           intros Hc. apply Hst' in Hc. lia.
        -- rewrite length_app. simpl. specialize (Hfill eq_refl Hlt). lia.
        -- intros _. split.
           ++ rewrite seq_S. simpl. rewrite <- Hperm_all, Hp'.
              rewrite <- !app_assoc. apply Permutation_app_head.
              rewrite (app_assoc (returned s)).
              apply (Permutation_app_comm [currentIndex s]).
           ++ rewrite length_app. simpl. lia.
        -- split; [discriminate|]. rewrite Hnone. discriminate.
        -- rewrite Hnone. discriminate.
        -- intros _ _ _ Hnil. apply (f_equal length) in Hnil.
           rewrite length_app in Hnil. simpl in Hnil. lia.
        -- intros _ _. rewrite length_app. simpl.
           specialize (Hfill eq_refl Hlt). lia.
      * cbn [running].
        destruct (Nat.eqb_spec (pred (running s)) 0) as [Hz|Hnz].
        -- assert (Hrest : rest = []) by (apply length_zero_iff_nil; lia).
           unfold settle. rewrite Hnone.
           split; cbn [currentIndex running aborted settled in_flight returned].
           ++ exact Hidx.
           ++ exact Hst'.
           ++ exact Honce'.
           ++ lia.
           ++ intros _. split; [|lia]. rewrite <- Hp'. exact Hperm_all.
           ++ split; discriminate.
           ++ intros _. split; [exact Hrest | lia].
           ++ discriminate.
           ++ intros _ Hlt. lia.
        -- split; cbn [currentIndex running aborted settled in_flight returned].
           ++ exact Hidx.
           ++ exact Hst'.
           ++ exact Honce'.
           ++ lia.
           ++ intros _. split; [|lia]. rewrite <- Hp'. exact Hperm_all.
           ++ split; [discriminate|]. rewrite Hnone. discriminate.
           ++ rewrite Hnone. discriminate.
           ++ intros _ _ _ Hnil. rewrite Hnil in Hlen. simpl in Hlen. lia.
           ++ intros _ Hlt. lia.
    + unfold settle. rewrite Hnone.
      split; cbn [currentIndex running aborted settled in_flight returned].
      * exact Hidx.
      * exact Hst''.
      * exact Honce''.
      * lia.
      * discriminate.
      * split; reflexivity.
      * discriminate.
      * discriminate.
      * discriminate.
Qed.

Lemma inv_run events : pool_inv n concurrency (run n concurrency events).
Proof.
  unfold run. induction events as [|e events IH] using rev_ind.
  - apply inv_start.
  - rewrite fold_left_app. simpl. apply inv_complete, IH.
Qed.

End PoolProperties.

Section PoolTheorems.

Import Client.
Local Open Scope list_scope.

(** X5. [runWithConcurrency] never awaits more than [concurrency]
    tasks; it starts the tasks in the order of the array, none twice and
    none left out before a later one; and as long as no task has
    rejected, the tasks awaited and those returned are the tasks
    [0 .. currentIndex - 1]. *)
Theorem pool_respects_concurrency (n concurrency : nat)
    (events : list (nat * bool)) :
  let s := run n concurrency events in
  (length (in_flight s) <= concurrency)%nat
  /\ NoDup (in_flight s ++ returned s)
  /\ (currentIndex s <= n)%nat
  /\ (forall i, i ∈ in_flight s ++ returned s -> (i < currentIndex s)%nat)
  /\ (aborted s = false ->
      in_flight s ++ returned s ≡ₚ seq 0 (currentIndex s)).
Proof.
  intros s. destruct (inv_run n concurrency events)
    as [Hidx Hst Honce Hbound Hall _ _ _ _].
  repeat split; try assumption. intros Ha. apply Hall, Ha.
Qed.



Lemma empty_pool events concurrency : run 0 concurrency events = init.
Proof.
  unfold run, start. rewrite Nat.min_0_r. simpl.
  induction events as [|e events IH]; [reflexivity|].
  simpl. exact IH.
Qed.

End PoolTheorems.

(** ** The chunks the client cuts *)

Section Slicing.

Import Client.
Local Open Scope list_scope.

Variable cs : Z.
Hypothesis cs_pos : 0 < cs.

Implicit Types (file : list Byte.byte) (i : nat).

Lemma payload_take file i :
  payload cs file i = take (Z.to_nat cs) (drop (i * Z.to_nat cs) file).
Proof.
  unfold payload, slice. set (size := Z.of_nat (length file)).
  set (start := Z.of_nat i * cs).
  assert (Hstart : 0 <= start) by (unfold start; nia).
  assert (Hsize : 0 <= size) by (unfold size; lia).
  destruct (Z.ltb_spec start 0) as [?|_]; [lia|].
  destruct (Z.ltb_spec (Z.min (start + cs) size) 0) as [?|_]; [lia|].
  assert (Hk : (i * Z.to_nat cs)%nat = Z.to_nat start)
    by (unfold start; nia).
  rewrite Hk. destruct (Z.le_gt_cases start size) as [Hle|Hgt].
  - rewrite (Z.min_l start size) by lia.
    rewrite (Z.min_l _ size) by lia.
    set (rest := drop (Z.to_nat start) file).
    assert (Hrest : Z.of_nat (length rest) = size - start).
    { unfold rest. rewrite length_drop. unfold size. lia. }
    destruct (Z.le_gt_cases (start + cs) size) as [Hfull|Hlast].
    + rewrite (Z.min_l (start + cs)) by lia. f_equal. lia.
    + rewrite (Z.min_r (start + cs)) by lia.
      rewrite !take_ge by lia. reflexivity.
  - rewrite (Z.min_r start size) by lia.
    rewrite (Z.min_r (start + cs) size) by lia.
    rewrite (Z.min_l size size) by lia.
    replace (Z.to_nat (Z.max (size - size) 0)) with 0%nat by lia.
    rewrite (drop_ge file (Z.to_nat start)) by (unfold size in Hgt; lia).
    rewrite take_nil. reflexivity.
Qed.

Lemma payload_length file i :
  Z.of_nat (length (payload cs file i))
  = Z.max 0 (Z.min cs (Z.of_nat (length file) - Z.of_nat i * cs)).
Proof.
  rewrite payload_take, length_take, length_drop. nia.
Qed.

Lemma totalChunks_bounds file :
  Z.of_nat (length file) <= Z.of_nat (totalChunks cs file) * cs
  /\ Z.of_nat (totalChunks cs file) * cs < Z.of_nat (length file) + cs.
Proof.
  unfold totalChunks, Math_ceil_div.
  set (size := Z.of_nat (length file)).
  assert (Hsize : 0 <= size) by (unfold size; lia).
  pose proof (Z.div_mod (- size) cs ltac:(lia)) as Hdm.
  pose proof (Z.mod_pos_bound (- size) cs cs_pos) as Hmod.
  assert (Hq : (- size) / cs <= 0).
  { apply Z.div_le_upper_bound; lia. }
  rewrite Z2Nat.id by lia. nia.
Qed.

Lemma concat_slices (k n : nat) file :
  (0 < k)%nat -> (length file <= n * k)%nat ->
  concat (map (fun i => take k (drop (i * k) file)) (seq 0 n)) = file.
Proof.
  intros Hk. revert file. induction n as [|n IH]; intros file Hlen.
  - simpl. symmetry. apply length_zero_iff_nil. simpl in Hlen. lia.
  - change (seq 0 (S n)) with (0%nat :: seq 1 n).
    rewrite <- seq_shift. cbn [map concat]. rewrite map_map.
    transitivity (take k file ++ drop k file); [|apply take_drop].
    f_equal.
    etransitivity; [|apply (IH (drop k file)); rewrite length_drop; lia].
    f_equal. apply map_ext. intros i. rewrite drop_drop. reflexivity.
Qed.

Lemma payloads_concat file :
  concat (map (payload cs file) (seq 0 (totalChunks cs file))) = file.
Proof.
  etransitivity;
    [|apply (concat_slices (Z.to_nat cs) (totalChunks cs file) file)].
  - f_equal. apply map_ext. intros i. apply payload_take.
  - lia.
  - pose proof (totalChunks_bounds file). nia.
Qed.

Lemma payload_nonempty file i :
  (i < totalChunks cs file)%nat -> payload cs file i <> [].
Proof.
  intros Hi Hnil. apply (f_equal length) in Hnil.
  pose proof (payload_length file i) as Hl. rewrite Hnil in Hl.
  pose proof (totalChunks_bounds file). simpl in Hl. nia.
Qed.

End Slicing.

(** X7. The chunks that [processUpload] cuts, for any positive chunk
    size: there are [ceil(size / CHUNK_SIZE)] of them and none for an
    empty file, put one after the other in index order they are the
    file, every chunk but the last has exactly the chunk size, and the
    last has between one byte and the chunk size. *)
Theorem chunks_partition_the_file (cs : Z) (file : list Byte.byte) :
  0 < cs ->
  let n := Client.totalChunks cs file in
  concat (map (Client.payload cs file) (seq 0 n)) = file
  /\ (Z.of_nat (length file) <= Z.of_nat n * cs
      < Z.of_nat (length file) + cs)
  /\ (forall i, (S i < n)%nat ->
        Z.of_nat (length (Client.payload cs file i)) = cs)
  /\ (forall i, (i < n)%nat ->
        1 <= Z.of_nat (length (Client.payload cs file i)) <= cs).
Proof.
  intros Hcs n. split; [apply payloads_concat, Hcs|].
  pose proof (totalChunks_bounds cs Hcs file) as Hb. fold n in Hb.
  split; [exact Hb|]. split.
  - intros i Hi. rewrite (payload_length cs Hcs). nia.
  - intros i Hi. rewrite (payload_length cs Hcs). nia.
Qed.

Lemma chunks_partition_the_file_witness :
  let n := Client.totalChunks 2 Sample.hello in
  concat (map (Client.payload 2 Sample.hello) (seq 0 n)) = Sample.hello
  /\ (Z.of_nat (length Sample.hello) <= Z.of_nat n * 2
      < Z.of_nat (length Sample.hello) + 2)
  /\ (forall i, (S i < n)%nat ->
        Z.of_nat (length (Client.payload 2 Sample.hello i)) = 2)
  /\ (forall i, (i < n)%nat ->
        1 <= Z.of_nat (length (Client.payload 2 Sample.hello i)) <= 2).
Proof. apply (chunks_partition_the_file 2 Sample.hello). lia. Defined.

(** ** The chunk index of a request *)

Section IndexResolution.

Import ChunkIndex.

Lemma toString_nonempty (z : Z) :
  exists a h, JS.toString (JS.Int z) = String a h.
Proof.
  simpl. pose proof (pretty_Z_nonempty z) as Hne.
  destruct (pretty z) as [|a h]; [congruence | eauto].
Qed.

Lemma chunkIndex_of_chunk_header (i : nat) contentRange fileId d :
  chunkIndex (Some (Client.chunk_header i)) contentRange fileId d
  = number (JS.Int (Z.of_nat i)).
Proof.
  unfold chunkIndex, Client.chunk_header.
  destruct (toString_nonempty (Z.of_nat i + 1)) as (a & h & Hs).
  rewrite Hs. rewrite <- Hs. simpl JS.toString.
  rewrite parseInt_pretty by (auto; lia). simpl. do 2 f_equal. lia.
Qed.

(** X8. The client numbers its chunks from 1 in [X-Chunk-Number]; the
    handler takes the chunk index of task [i] to be [i], whatever
    [Content-Range] says and whatever the index holds. *)
Theorem chunk_number_header_names_the_chunk (i : nat)
    (contentRange : option string) (fileId : string) (d : Db.t) :
  chunkIndex (Some (Client.chunk_header i)) contentRange fileId d
  = number (JS.Int (Z.of_nat i)).
Proof. apply chunkIndex_of_chunk_header. Qed.

Lemma digits_span_digits (ds : string) (c : ascii) (rest : string) :
  JS.is_digits ds = true -> JS.is_digit c = false ->
  digits_span (ds +:+ String c rest) = (ds, String c rest).
Proof.
  intros Hds Hc. induction ds as [|x ds IH].
  - simpl. rewrite Hc. reflexivity.
  - simpl in Hds. apply andb_prop in Hds as [Hx Hds].
    rewrite append_cons. simpl. rewrite Hx, (IH Hds). reflexivity.
Qed.

Lemma digits_span_all (ds : string) :
  JS.is_digits ds = true -> digits_span ds = (ds, EmptyString).
Proof.
  intros Hds. induction ds as [|x ds IH]; [reflexivity|].
  simpl in Hds. apply andb_prop in Hds as [Hx Hds].
  simpl. rewrite Hx, (IH Hds). reflexivity.
Qed.

Lemma digits_then_pretty (sep : ascii) (z : Z) (rest : string) :
  0 <= z -> JS.is_digit sep = false ->
  digits_then sep (pretty z +:+ String sep rest) = Some (pretty z, rest).
Proof.
  intros Hz Hsep. unfold digits_then.
  rewrite digits_span_digits by (auto using is_digits_pretty).
  pose proof (pretty_nonempty z Hz) as Hne.
  destruct (pretty z) as [|a h]; [congruence|].
  rewrite Ascii.eqb_refl. reflexivity.
Qed.

Lemma regex_match_content_range (first last total : Z) :
  0 <= first -> 0 <= last -> 0 <= total ->
  regex_match (content_range first last total) = Some (pretty first).
Proof.
  intros Hf Hl Ht.
  assert (Hm : match_here (content_range first last total)
               = Some (pretty first)).
  { unfold content_range, match_here.
    change ("bytes " +:+ pretty first +:+ "-" +:+ pretty last +:+ "/"
            +:+ pretty total)
      with (String "b" (String "y" (String "t" (String "e" (String "s"
             (String " " (pretty first +:+ String "-"
                (pretty last +:+ String "/" (pretty total))))))))).
    cbn [strip_prefix Ascii.eqb Bool.eqb].
    rewrite digits_then_pretty by (auto).
    rewrite digits_then_pretty by (auto).
    rewrite digits_span_all by (apply is_digits_pretty, Ht).
    pose proof (pretty_nonempty total Ht) as Hne.
    destruct (pretty total); [congruence | reflexivity]. }
  unfold content_range in *.
  change ("bytes " +:+ pretty first +:+ "-" +:+ pretty last +:+ "/"
          +:+ pretty total)
    with (String "b" ("ytes " +:+ pretty first +:+ "-" +:+ pretty last
                      +:+ "/" +:+ pretty total)) in *.
  cbn [regex_match]. rewrite Hm. reflexivity.
Qed.

Lemma chunkIndex_content_range (first last total : Z) fileId d :
  0 <= first -> 0 <= last -> 0 <= total ->
  chunkIndex None (Some (content_range first last total)) fileId d
  = if first =? 0 then number (JS.Int 0)
    else match Db.chunks_at d fileId 0 with
         | chunk0 :: _ => Math_round_div first (Chunk.size chunk0)
         | [] => number (JS.Int 0)
         end.
Proof.
  intros Hf Hl Ht. unfold chunkIndex.
  pose proof (regex_match_content_range first last total Hf Hl Ht) as Hm.
  destruct (content_range first last total) as [|a r] eqn:Hcr;
    [discriminate|].
  rewrite Hm. rewrite parseInt_pretty by auto. reflexivity.
Qed.

(** X9. A request without [X-Chunk-Number] whose [Content-Range] is
    [bytes first-last/total]: when the file has no chunk at index 0 the
    index is 0 whatever the offset; when it has one of [size] bytes, the
    index is the multiple of [size] nearest to the offset, so [k] for an
    offset of [k] chunks of that size; and a stored size of 0 gives
    [Infinity] for a positive offset. *)
Theorem content_range_names_nearest_multiple (first last total : Z)
    (fileId : string) (d : Db.t) :
  0 <= first -> 0 <= last -> 0 <= total ->
  let resolved :=
    chunkIndex None (Some (content_range first last total)) fileId d in
  (Db.chunks_at d fileId 0 = [] -> resolved = number (JS.Int 0))
  /\ (forall chunk0 rest k r,
        Db.chunks_at d fileId 0 = chunk0 :: rest ->
        0 < Chunk.size chunk0 ->
        first = k * Chunk.size chunk0 + r ->
        - Chunk.size chunk0 <= 2 * r < Chunk.size chunk0 ->
        resolved = number (JS.Int k))
  /\ (forall chunk0 rest,
        Db.chunks_at d fileId 0 = chunk0 :: rest ->
        Chunk.size chunk0 = 0 -> 0 < first ->
        resolved = Infinity).
Proof.
  intros Hf Hl Ht resolved. unfold resolved.
  rewrite chunkIndex_content_range by assumption.
  split; [|split].
  - intros ->. destruct (first =? 0); reflexivity.
  - intros chunk0 rest k r -> Hsz Hfirst Hr.
    destruct (Z.eqb_spec first 0) as [H0|Hn0].
    + do 2 f_equal. nia.
    + unfold Math_round_div.
      destruct (Z.eqb_spec (Chunk.size chunk0) 0) as [?|_]; [lia|].
      do 2 f_equal. subst first.
      replace (2 * (k * Chunk.size chunk0 + r) + Chunk.size chunk0)
        with (k * (2 * Chunk.size chunk0) + (2 * r + Chunk.size chunk0))
        by lia.
      rewrite Z.div_add_l by lia. rewrite Z.div_small by lia. lia.
  - intros chunk0 rest -> Hsz Hpos.
    destruct (Z.eqb_spec first 0) as [?|_]; [lia|].
    unfold Math_round_div. rewrite Hsz. simpl.
    destruct (Z.ltb_spec 0 first); [reflexivity | lia].
Qed.

Lemma content_range_names_nearest_multiple_witness :
  let resolved :=
    chunkIndex None (Some (content_range 10 14 17)) "a" Sample.two_chunks in
  (Db.chunks_at Sample.two_chunks "a" 0 = [] -> resolved = number (JS.Int 0))
  /\ (forall chunk0 rest k r,
        Db.chunks_at Sample.two_chunks "a" 0 = chunk0 :: rest ->
        0 < Chunk.size chunk0 ->
        10 = k * Chunk.size chunk0 + r ->
        - Chunk.size chunk0 <= 2 * r < Chunk.size chunk0 ->
        resolved = number (JS.Int k))
  /\ (forall chunk0 rest,
        Db.chunks_at Sample.two_chunks "a" 0 = chunk0 :: rest ->
        Chunk.size chunk0 = 0 -> 0 < 10 ->
        resolved = Infinity).
Proof.
  apply (content_range_names_nearest_multiple 10 14 17 "a" Sample.two_chunks);
    lia.
Defined.

End IndexResolution.

(** ** An upload from its first request to its last *)

Lemma filter_none {A} (P : A -> Prop) `{forall x, Decision (P x)}
    (l : list A) :
  (forall x, x ∈ l -> ~ P x) -> filter P l = [].
Proof.
  induction l as [|x l IH]; intros Hnone; [reflexivity|].
  rewrite filter_cons, decide_False by (apply Hnone; left).
  apply IH. intros y Hy. apply Hnone. right. exact Hy.
Qed.

Section UploadSession.

Import Client.
Local Open Scope list_scope.

Variables (cs : Z) (fileId name type : string) (file : list Byte.byte)
  (channelId : string) (now : Z).
Hypothesis cs_pos : 0 < cs.

Local Abbreviation n := (totalChunks cs file).
Local Abbreviation body := (init_body fileId name type file).
Local Abbreviation row0 :=
  (Upload.pending_row name (Z.of_nat (length file)) body now).

Implicit Types (d : Db.t) (s : Session).

Lemma init_success_inputs d :
  is_success (reply (Upload.init body now d)) = true ->
  fileId <> EmptyString /\ name <> EmptyString
  /\ (forall existing, Db.get_file d fileId = Some existing ->
        File.status existing <> File.active).
Proof.
  unfold Upload.init. cbn [Upload.id Upload.name Upload.size init_body].
  destruct fileId as [|a i]; [discriminate|].
  destruct name as [|b m]; [discriminate|].
  intros Hok. split; [discriminate|]. split; [discriminate|].
  intros existing He. rewrite He in Hok.
  case_decide as Hst; [discriminate | exact Hst].
Qed.

Lemma init_fresh d :
  fileId <> EmptyString -> name <> EmptyString ->
  Db.get_file d fileId = None ->
  Upload.init body now d
  = {| reply := success null;
       db := {| Db.files := <[fileId := row0]> (Db.files d);
                Db.chunks := Db.chunks d;
                Db.seq := Db.seq d |};
       tasks := [] |}.
Proof.
  intros Hid Hnm He. unfold Upload.init.
  cbn [Upload.id Upload.name Upload.size init_body].
  destruct fileId as [|a i] eqn:Hf; [congruence|].
  destruct name as [|b m] eqn:Hm; [congruence|].
  rewrite He. apply insert_pending_fresh. exact He.
Qed.

(** [init] answers success only by writing the pending row; the
    chunk rows stay as they are. *)
Lemma init_success d :
  sound d ->
  is_success (reply (Upload.init body now d)) = true ->
  let d0 := db (Upload.init body now d) in
  Db.files d0 = <[fileId := row0]> (Db.files d)
  /\ Db.chunks d0 = Db.chunks d
  /\ sound d0.
Proof.
  intros Hs Hok d0.
  assert (Hsound0 : sound d0) by (apply (sound_handle (Api.Init body now)), Hs).
  destruct (init_success_inputs d Hok) as (Hid & Hnm & Hact).
  subst d0. revert Hsound0.
  destruct (Db.get_file d fileId) as [existing|] eqn:He.
  - rewrite (init_replaces body now d fileId name (Z.of_nat (length file))
               existing) by (try reflexivity; auto).
    cbn [db]. intros Hsound0. split; [reflexivity|]. split; [reflexivity|].
    exact Hsound0.
  - rewrite init_fresh by assumption. cbn [db].
    intros Hsound0. split; [reflexivity|]. split; [reflexivity|].
    exact Hsound0.
Qed.

Lemma returned_complete i ok (p : Pool) :
  i ∈ in_flight p ->
  returned (complete n i ok p)
  = if ok then returned p ++ [i] else returned p.
Proof.
  intros Hin. unfold complete. rewrite bool_decide_eq_true_2 by exact Hin.
  destruct ok.
  - cbn [aborted currentIndex running]. destruct (aborted p) eqn:Ha;
      [reflexivity|].
    destruct (currentIndex p <? n)%nat eqn:Hlt.
    + unfold runNext. cbn [aborted currentIndex]. simpl orb.
      destruct (n <=? currentIndex p)%nat; reflexivity.
    + destruct (pred (running p) =? 0)%nat; reflexivity.
  - cbn [aborted]. destruct (aborted p); reflexivity.
Qed.

Lemma chunks_at_absent d (i : Z) :
  i ∉ map Chunk.idx (Db.chunks_of d fileId) ->
  Db.chunks_at d fileId i = [].
Proof.
  intros Hi. unfold Db.chunks_at. apply filter_none.
  intros c Hc [Hf Hidx]. apply Hi. apply list_elem_of_fmap. exists c.
  split; [symmetry; exact Hidx|]. unfold Db.chunks_of.
  apply list_elem_of_filter. split; assumption.
Qed.

(** A chunk request on a pending file that has no row at the index. *)
Lemma chunk_at_free_index d (i : Z) buffer attachment :
  Db.is_pending d fileId = true -> buffer <> [] ->
  Db.chunks_at d fileId i = [] ->
  Upload.chunk fileId i buffer channelId attachment d
  = match attachment with
    | Some att =>
        {| reply := success (messageId (Upload.att_id att));
           db := {| Db.files := Db.files d;
                    Db.chunks :=
                      Db.chunks d
                      ++ [Upload.stored fileId i channelId buffer att d];
                    Db.seq := Db.seq d + 1 |};
           tasks := [] |}
    | None =>
        {| reply := error "Failed to upload chunk to storage" 500;
           db := d; tasks := [] |}
    end.
Proof.
  intros Hp Hne Hat.
  assert (Hf : filter (fun c => ~ Db.at_index fileId i c) (Db.chunks d)
               = Db.chunks d).
  { apply filter_not_here_id. exact Hat. }
  destruct attachment as [att|].
  - rewrite (chunk_ok fileId i channelId d buffer att Hp Hne).
    rewrite Hat, Hf. reflexivity.
  - unfold Upload.chunk.
    rewrite (chunk_begin_pending fileId i d buffer Hp Hne).
    rewrite Hat, Hf. unfold Upload.chunk_end. destruct d; reflexivity.
Qed.

Lemma session_step d0 e s :
  Db.is_pending d0 fileId = true ->
  session_inv cs fileId file d0 s ->
  session_inv cs fileId file d0
    (task_settles cs fileId file channelId
       (map Chunk.idx (Db.chunks_of d0 fileId)) n e s).
Proof.
  intros Hpend [Hpool Hfiles Hothers Hrows Hsizes Hsound].
  destruct e as [i attachment]. unfold task_settles.
  case_bool_decide as Hin; [|split; assumption].
  assert (Hret : forall ok,
            returned (complete n i ok (pool s))
            = if ok then returned (pool s) ++ [i] else returned (pool s))
    by (intros ok; apply returned_complete, Hin).
  case_bool_decide as Hex.
  { split; cbn [pool index]; try assumption.
    - apply inv_complete, Hpool.
    - rewrite Hret, filter_app, filter_cons, decide_False, filter_nil,
        app_nil_r by (intros Hn; apply Hn, Hex).
      exact Hrows. }
  unfold ChunkIndex.post_chunk.
  rewrite chunkIndex_of_chunk_header. cbn [ChunkIndex.chunk_at].
  assert (Hi : (i < n)%nat).
  { pose proof (inv_started _ _ _ Hpool i) as Hst.
    pose proof (inv_index _ _ _ Hpool).
    rewrite elem_of_app in Hst. specialize (Hst (or_introl Hin)). lia. }
  assert (Hnotret : i ∉ returned (pool s)).
  { pose proof (inv_once _ _ _ Hpool) as Hnd.
    apply NoDup_app in Hnd as (_ & Hdisj & _). apply Hdisj, Hin. }
  assert (Hp : Db.is_pending (index s) fileId = true).
  { unfold Db.is_pending in *. rewrite Hfiles. exact Hpend. }
  assert (Hfree : Db.chunks_at (index s) fileId (Z.of_nat i) = []).
  { apply chunks_at_absent. rewrite Hrows. intros Hc.
    apply elem_of_app in Hc as [Hc|Hc]; [contradiction|].
    apply list_elem_of_fmap in Hc as (j & Hj & Hjin).
    apply Nat2Z.inj in Hj. subst j.
    apply list_elem_of_filter in Hjin as [_ Hjin]. contradiction. }
  rewrite (chunk_at_free_index (index s) (Z.of_nat i) (payload cs file i)
             attachment Hp (payload_nonempty cs cs_pos file i Hi) Hfree).
  destruct attachment as [att|]; cbn [reply db is_success].
  - split; cbn [pool index].
    + apply inv_complete, Hpool.
    + exact Hfiles.
    + intros k Hk. rewrite <- (Hothers k Hk). unfold Db.chunks_of.
      cbn [Db.chunks]. rewrite filter_app, filter_cons, decide_False,
        filter_nil, app_nil_r; [reflexivity|]. simpl. congruence.
    + rewrite Hret, filter_app, filter_cons, decide_True, filter_nil
        by exact Hex.
      unfold Db.chunks_of at 1. cbn [Db.chunks].
      rewrite filter_app, filter_cons, decide_True, filter_nil by reflexivity.
      rewrite !map_app. fold (Db.chunks_of (index s) fileId).
      rewrite Hrows, <- app_assoc. reflexivity.
    + intros c Hc. unfold Db.chunks_of in Hc. cbn [Db.chunks] in Hc.
      rewrite filter_app, filter_cons, decide_True, filter_nil in Hc
        by reflexivity.
      apply elem_of_app in Hc as [Hc|Hc]; [apply Hsizes, Hc|].
      apply list_elem_of_singleton in Hc. subst c. unfold bytes_of. simpl.
      rewrite Nat2Z.id. split; [reflexivity | eauto].
    + pose proof (sound_chunk fileId (Z.of_nat i) (payload cs file i)
                    channelId (Some att) (index s) Hsound) as Hs'.
      rewrite (chunk_at_free_index (index s) (Z.of_nat i) (payload cs file i)
                 (Some att) Hp (payload_nonempty cs cs_pos file i Hi) Hfree)
        in Hs'.
      exact Hs'.
  - split; cbn [pool index]; try assumption.
    + apply inv_complete, Hpool.
    + rewrite Hret. exact Hrows.
Qed.

Lemma session_run d0 events s :
  Db.is_pending d0 fileId = true ->
  session_inv cs fileId file d0 s ->
  session_inv cs fileId file d0
    (fold_left
       (fun s e =>
          task_settles cs fileId file channelId
            (map Chunk.idx (Db.chunks_of d0 fileId)) n e s) events s).
Proof.
  intros Hpend. revert s. induction events as [|e events IH]; intros s Hs.
  - exact Hs.
  - simpl. apply IH. apply session_step; assumption.
Qed.

Lemma session_start d0 :
  rows_of_file cs fileId file d0 -> sound d0 ->
  session_inv cs fileId file d0
    {| pool := start n CONCURRENCY; index := d0 |}.
Proof.
  intros Hrows Hs. split; cbn [pool index].
  - apply inv_start.
  - reflexivity.
  - reflexivity.
  - rewrite start_eq. cbn [returned]. rewrite filter_nil. cbn [map].
    rewrite app_nil_r. reflexivity.
  - intros c Hc. destruct (Hrows c Hc) as (_ & Hsz & Hurl). split; assumption.
  - exact Hs.
Qed.

(** The file rows during a session are those that [init] left,
    whatever rows the index held for the file. *)
Lemma session_files existing events s :
  Db.files
    (index (fold_left
              (fun s e =>
                 task_settles cs fileId file channelId existing n e s)
              events s))
  = Db.files (index s).
Proof.
  revert s. induction events as [|[i attachment] events IH]; intros s;
    [reflexivity|].
  cbn [fold_left]. rewrite IH. unfold task_settles.
  case_bool_decide; [|reflexivity].
  case_bool_decide; [reflexivity|].
  unfold ChunkIndex.post_chunk. rewrite chunkIndex_of_chunk_header.
  cbn [index]. apply chunk_at_files.
Qed.

(** Where [(fileId, idx)] names one row at most, the indices of the
    rows of a file are all different. *)
Lemma unique_idx_NoDup d :
  Db.unique_idx d -> NoDup (map Chunk.idx (Db.chunks_of d fileId)).
Proof.
  intros Hu.
  assert (Hl : forall i,
            (length (filter (fun c => Chunk.idx c = i) (Db.chunks_of d fileId))
             <= 1)%nat).
  { intros i. specialize (Hu fileId i). unfold Db.chunks_at in Hu.
    unfold Db.chunks_of. rewrite list_filter_filter.
    erewrite list_filter_iff; [exact Hu|].
    intros c. unfold Db.at_index. tauto. }
  induction (Db.chunks_of d fileId) as [|c l IH]; [constructor|].
  cbn [map]. apply NoDup_cons. split.
  - intros Hin. apply list_elem_of_fmap in Hin as (c' & Hc' & Hin).
    specialize (Hl (Chunk.idx c)).
    rewrite filter_cons, decide_True in Hl by reflexivity.
    assert (Hc2 : c' ∈ filter (fun x => Chunk.idx x = Chunk.idx c) l)
      by (apply list_elem_of_filter; split; [symmetry; exact Hc' | exact Hin]).
    destruct (filter (fun x => Chunk.idx x = Chunk.idx c) l);
      [apply elem_of_nil in Hc2; contradiction | simpl in Hl; lia].
  - apply IH. intros i. specialize (Hl i). rewrite filter_cons in Hl.
    destruct (decide (Chunk.idx c = i)); simpl in Hl; lia.
Qed.

(** The indices reported by discovery and those of the tasks that were
    not skipped are, once every task has returned, all the indices. *)
Lemma resumed_indices (E : list Z) (L : list nat) (m : nat) :
  NoDup E -> (forall x, x ∈ E -> 0 <= x < Z.of_nat m) -> L ≡ₚ seq 0 m ->
  E ++ map Z.of_nat (filter (fun i => Z.of_nat i ∉ E) L)
  ≡ₚ map Z.of_nat (seq 0 m).
Proof.
  intros HE Hin HL.
  assert (HLn : NoDup L) by (rewrite HL; apply NoDup_seq).
  apply NoDup_Permutation.
  - apply NoDup_app. split; [exact HE|]. split.
    + intros x Hx Hx'. apply list_elem_of_fmap in Hx' as (i & -> & Hi).
      apply list_elem_of_filter in Hi as [Hni _]. contradiction.
    + apply NoDup_fmap_2; [intros a b; apply Nat2Z.inj|].
      apply NoDup_filter, HLn.
  - apply NoDup_fmap_2; [intros a b; apply Nat2Z.inj | apply NoDup_seq].
  - intros x. rewrite elem_of_app, !list_elem_of_fmap. split.
    + intros [Hx | (i & -> & Hi)].
      * specialize (Hin x Hx). exists (Z.to_nat x). split; [lia|].
        apply elem_of_seq. lia.
      * apply list_elem_of_filter in Hi as [_ Hi]. rewrite HL in Hi.
        exists i. split; [reflexivity | exact Hi].
    + intros (i & -> & Hi).
      destruct (decide (Z.of_nat i ∈ E)) as [He|He]; [left; exact He|].
      right. exists i. split; [reflexivity|].
      apply list_elem_of_filter. split; [exact He|]. rewrite HL. exact Hi.
Qed.

Lemma sorted_indices (k : nat) :
  StronglySorted Z.le (map Z.of_nat (seq 0 k)).
Proof.
  apply (StronglySorted_fmap Z.of_nat Nat.le); [intros x y; lia|].
  generalize 0%nat. induction k as [|k IH]; intros a; [constructor|].
  simpl. constructor; [apply IH|].
  apply Forall_forall. intros x Hx. apply elem_of_seq in Hx. lia.
Qed.

Lemma sizes_sum_bytes (l : list Chunk.row) :
  (forall c, c ∈ l -> Chunk.size c = Z.of_nat (length (bytes_of cs file c))) ->
  sizes_sum l = Z.of_nat (length (concat (map (bytes_of cs file) l))).
Proof.
  induction l as [|c l IH]; intros Hall; [reflexivity|].
  rewrite sizes_sum_cons. simpl. rewrite length_app, Nat2Z.inj_add.
  rewrite <- IH by (intros x Hx; apply Hall; right; exact Hx).
  rewrite (Hall c) by left. reflexivity.
Qed.

(** What an upload that has run to its end leaves in the index. *)
Lemma completed_upload (isLast : bool)
    (events : list (nat * option Upload.DiscordAttachment)) d d' :
  sound d ->
  rows_of_file cs fileId file d ->
  processUpload cs fileId name type file isLast channelId now events d
  = (Fulfilled, d') ->
  let chunks := Db.chunks_ordered d' fileId in
  Db.get_file d' fileId = Some (Db.with_status File.active row0)
  /\ map Chunk.idx chunks = map Z.of_nat (seq 0 n)
  /\ concat (map (bytes_of cs file) chunks) = file
  /\ Forall (fun c => Chunk.size c = Z.of_nat (length (bytes_of cs file c))
                      /\ 1 <= Chunk.size c /\ is_Some (Chunk.url c)) chunks
  /\ sizes_sum chunks = Z.of_nat (length file)
  /\ (forall k, k <> fileId ->
        Db.files d' !! k = Db.files d !! k
        /\ Db.chunks_of d' k = Db.chunks_of d k)
  /\ sound d'.
Proof.
  intros Hs Hrows0. unfold processUpload.
  destruct (is_success (reply (Upload.init body now d))) eqn:Hok;
    [|discriminate].
  destruct (init_success d Hs Hok) as (Hfiles0 & Hchunks0 & Hsound0).
  set (d0 := db (Upload.init body now d)) in *.
  assert (Hof : forall k, Db.chunks_of d0 k = Db.chunks_of d k)
    by (intros k; unfold Db.chunks_of; rewrite Hchunks0; reflexivity).
  assert (Hrows : rows_of_file cs fileId file d0).
  { intros c Hc. rewrite Hof in Hc. apply Hrows0, Hc. }
  unfold Upload.chunks. cbn [reply].
  assert (Hpend : Db.is_pending d0 fileId = true).
  { unfold Db.is_pending. rewrite Hfiles0, lookup_insert_eq. reflexivity. }
  pose proof (session_run d0 events _ Hpend (session_start d0 Hrows Hsound0))
    as Hinv.
  set (s := fold_left _ events _) in *.
  destruct (settled (pool s)) as [[]|] eqn:Hset; try discriminate.
  intros [= <-].
  set (chunks := Db.chunks_ordered _ fileId).
  destruct Hinv as [Hpool Hfiles Hothers Hidxs Hsizes Hsound].
  assert (Hch : Db.chunks_of (db (Upload.finalize fileId (negb isLast)
                                    (index s))) fileId
                = Db.chunks_of (index s) fileId) by reflexivity.
  assert (Hperm : chunks ≡ₚ Db.chunks_of (index s) fileId).
  { unfold chunks, Db.chunks_ordered. rewrite <- Hch.
    apply merge_sort_Permutation. }
  assert (Hret : returned (pool s) ≡ₚ seq 0 n).
  { destruct (inv_resolved _ _ _ Hpool Hset) as [Hnone Hcur].
    assert (Ha : aborted (pool s) = false).
    { destruct (aborted (pool s)) eqn:Ha; [|reflexivity].
      apply (inv_rejected _ _ _ Hpool) in Ha. congruence. }
    destruct (inv_all _ _ _ Hpool Ha) as [Hall _].
    rewrite Hnone, Hcur in Hall. exact Hall. }
  assert (Hidx : map Chunk.idx chunks = map Z.of_nat (seq 0 n)).
  { apply (StronglySorted_unique_strong Z.le).
    - intros; lia.
    - apply (StronglySorted_fmap Chunk.idx Db.idx_le); [auto|].
      apply chunks_ordered_sorted.
    - apply sorted_indices.
    - rewrite Hperm, Hidxs. apply resumed_indices; [| |exact Hret].
      + apply unique_idx_NoDup, (sound_unique _ Hsound0).
      + intros x Hx. apply list_elem_of_fmap in Hx as (c & -> & Hc).
        apply (Hrows c Hc). }
  assert (Hbytes : concat (map (bytes_of cs file) chunks) = file).
  { unfold bytes_of.
    rewrite <- (map_map Chunk.idx
                  (fun i => payload cs file (Z.to_nat i)) chunks).
    rewrite Hidx, map_map.
    rewrite <- (payloads_concat cs cs_pos file) at 2. f_equal.
    apply map_ext. intros i. rewrite Nat2Z.id. reflexivity. }
  assert (Hall : forall c, c ∈ chunks ->
            Chunk.size c = Z.of_nat (length (bytes_of cs file c))
            /\ is_Some (Chunk.url c)).
  { intros c Hc. apply Hsizes. rewrite <- Hperm. exact Hc. }
  split; [|split; [exact Hidx|split; [exact Hbytes|split; [|split; [|split]]]]].
  - unfold Db.get_file, Upload.finalize. cbn [db Db.set_status Db.files].
    rewrite lookup_alter, decide_True by reflexivity.
    rewrite Hfiles, Hfiles0, lookup_insert_eq. reflexivity.
  - apply Forall_forall. intros c Hc. destruct (Hall c Hc) as [Hsz Hurl].
    split; [exact Hsz|]. split; [|exact Hurl].
    apply (sound_sizes _ Hsound). rewrite Hperm in Hc.
    unfold Db.chunks_of in Hc. apply list_elem_of_filter in Hc. tauto.
  - rewrite sizes_sum_bytes by (intros c Hc; apply Hall, Hc).
    rewrite Hbytes. reflexivity.
  - intros k Hk. split.
    + unfold Upload.finalize. cbn [db Db.set_status Db.files].
      rewrite lookup_alter, decide_False by congruence.
      rewrite Hfiles, Hfiles0. apply lookup_insert_ne. congruence.
    + change (Db.chunks_of (index s) k = Db.chunks_of d k).
      rewrite (Hothers k Hk). apply Hof.
  - apply sound_set_status, Hsound.
Qed.

(** An upload that has run to its end leaves the file row active,
    whatever chunk rows the index held for the file. *)
Lemma fulfilled_active (isLast : bool)
    (events : list (nat * option Upload.DiscordAttachment)) d d' :
  processUpload cs fileId name type file isLast channelId now events d
  = (Fulfilled, d') ->
  Db.get_file d' fileId = Some (Db.with_status File.active row0).
Proof.
  unfold processUpload.
  destruct (is_success (reply (Upload.init body now d))) eqn:Hok;
    [|discriminate].
  destruct (init_success_inputs d Hok) as (Hid & Hnm & Hact).
  assert (Hfiles0 : Db.files (db (Upload.init body now d)) !! fileId
                    = Some row0).
  { destruct (Db.get_file d fileId) as [existing|] eqn:He.
    - rewrite (init_replaces body now d fileId name (Z.of_nat (length file))
                 existing) by (try reflexivity; auto).
      apply lookup_insert_eq.
    - rewrite init_fresh by assumption. apply lookup_insert_eq. }
  set (existing := match reply (Upload.chunks fileId _) with
                   | success (indices l) => l
                   | _ => []
                   end).
  pose proof (session_files existing events
                {| pool := start n CONCURRENCY;
                   index := db (Upload.init body now d) |}) as Hfiles.
  set (s := fold_left _ events _) in *.
  destruct (settled (pool s)) as [[]|]; try discriminate.
  intros [= <-].
  unfold Db.get_file, Upload.finalize. cbn [db Db.set_status Db.files].
  rewrite lookup_alter, decide_True by reflexivity.
  rewrite Hfiles. cbn [index]. rewrite Hfiles0. reflexivity.
Qed.

Lemma init_success_pending d :
  is_success (reply (Upload.init body now d)) = true ->
  Db.is_pending (db (Upload.init body now d)) fileId = true.
Proof.
  intros Hok. destruct (init_success_inputs d Hok) as (Hid & Hnm & Hact).
  destruct (Db.get_file d fileId) as [existing|] eqn:He.
  - rewrite (init_replaces body now d fileId name (Z.of_nat (length file))
               existing) by (try reflexivity; auto).
    unfold Db.is_pending. cbn [db Db.files]. rewrite lookup_insert_eq.
    reflexivity.
  - rewrite init_fresh by assumption.
    unfold Db.is_pending. cbn [db Db.files]. rewrite lookup_insert_eq.
    reflexivity.
Qed.

Lemma offset_full_chunks (l : list Chunk.row) (k : nat) :
  map Chunk.idx l = map Z.of_nat (seq 0 n) ->
  (forall c, c ∈ l -> Chunk.size c = Z.of_nat (length (bytes_of cs file c))) ->
  (k < n)%nat ->
  offset_of l k = Z.of_nat k * cs.
Proof.
  intros Hidx Hsz. induction k as [|k IH]; intros Hk; [reflexivity|].
  assert (Hlen : length l = n).
  { rewrite <- (length_map Chunk.idx l), Hidx, length_map, length_seq.
    reflexivity. }
  destruct (lookup_lt_is_Some_2 l k ltac:(lia)) as [c Hc].
  rewrite (offset_of_S l k c Hc), IH by lia.
  assert (Hci : Chunk.idx c = Z.of_nat k).
  { assert (H1 : map Chunk.idx l !! k = Some (Chunk.idx c))
      by (rewrite list_lookup_fmap, Hc; reflexivity).
    rewrite Hidx, list_lookup_fmap, lookup_seq_lt in H1 by lia.
    simpl in H1. congruence. }
  rewrite (Hsz c) by (apply list_elem_of_lookup; eauto).
  unfold bytes_of. rewrite Hci, Nat2Z.id.
  rewrite (payload_length cs cs_pos file k).
  pose proof (totalChunks_bounds cs cs_pos file). nia.
Qed.

End UploadSession.

(** The index of the upload that was given up is one that requests
    have built, and its one chunk row is chunk 0 of the file. *)
Lemma interrupted_sound : sound SampleUpload.interrupted.
Proof. apply sound_run. Qed.

Lemma interrupted_rows :
  rows_of_file 6 "f" SampleUpload.file SampleUpload.interrupted.
Proof.
  intros c Hc. vm_compute in Hc. apply list_elem_of_singleton in Hc. subst c.
  split; [|split].
  - vm_compute. split; [intros H; discriminate H | reflexivity].
  - vm_compute. reflexivity.
  - eexists. reflexivity.
Qed.

(** X10. An upload of a file that is not encrypted and that runs to
    its end, with any positive chunk size, in whatever order the chunk
    requests are served.  The index it starts on is consistent, and the
    chunk rows that it holds for the id, if any, are chunks of this
    file: [init] keeps them, discovery reports them and the client
    skips them, which is how an upload is resumed.  Then the file row
    is active with the name and the size sent; its chunk rows are the
    indices [0 .. totalChunks - 1], each once; the bytes they stand
    for, in index order, are the file; every row holds the length of
    its bytes, at least one, and an address; the sizes add up to the
    size of the file; the rows of other files are as before; and the
    index is consistent. *)
Theorem completed_upload_is_whole (cs : Z) (fileId name type : string)
    (file : list Byte.byte) (isLast : bool) (channelId : string) (now : Z)
    (events : list (nat * option Upload.DiscordAttachment)) (d d' : Db.t) :
  0 < cs ->
  sound d ->
  rows_of_file cs fileId file d ->
  Client.processUpload cs fileId name type file isLast channelId now events d
  = (Client.Fulfilled, d') ->
  let chunks := Db.chunks_ordered d' fileId in
  Db.get_file d' fileId
  = Some (Db.with_status File.active
            (Upload.pending_row name (Z.of_nat (length file))
               (Client.init_body fileId name type file) now))
  /\ map Chunk.idx chunks
     = map Z.of_nat (seq 0 (Client.totalChunks cs file))
  /\ concat (map (bytes_of cs file) chunks) = file
  /\ Forall (fun c => Chunk.size c = Z.of_nat (length (bytes_of cs file c))
                      /\ 1 <= Chunk.size c /\ is_Some (Chunk.url c)) chunks
  /\ sizes_sum chunks = Z.of_nat (length file)
  /\ (forall k, k <> fileId ->
        Db.files d' !! k = Db.files d !! k
        /\ Db.chunks_of d' k = Db.chunks_of d k)
  /\ sound d'.
Proof.
  intros Hcs Hs Hrows Hup.
  exact (completed_upload cs fileId name type file channelId now Hcs isLast
           events d d' Hs Hrows Hup).
Qed.

Lemma completed_upload_is_whole_witness :
  let chunks := Db.chunks_ordered SampleUpload.resumed "f" in
  Db.get_file SampleUpload.resumed "f"
  = Some (Db.with_status File.active
            (Upload.pending_row "t.txt"
               (Z.of_nat (length SampleUpload.file))
               (Client.init_body "f" "t.txt" "text/plain" SampleUpload.file)
               1700000100))
  /\ map Chunk.idx chunks
     = map Z.of_nat (seq 0 (Client.totalChunks 6 SampleUpload.file))
  /\ concat (map (bytes_of 6 SampleUpload.file) chunks) = SampleUpload.file
  /\ Forall (fun c =>
               Chunk.size c
               = Z.of_nat (length (bytes_of 6 SampleUpload.file c))
               /\ 1 <= Chunk.size c /\ is_Some (Chunk.url c)) chunks
  /\ sizes_sum chunks = Z.of_nat (length SampleUpload.file)
  /\ (forall k, k <> "f" ->
        Db.files SampleUpload.resumed !! k
        = Db.files SampleUpload.interrupted !! k
        /\ Db.chunks_of SampleUpload.resumed k
           = Db.chunks_of SampleUpload.interrupted k)
  /\ sound SampleUpload.resumed.
Proof.
  apply (completed_upload_is_whole 6 "f" "t.txt" "text/plain"
           SampleUpload.file true "chan" 1700000100
           [(0%nat, None); (1%nat, Some SampleUpload.att1)]
           SampleUpload.interrupted SampleUpload.resumed).
  - lia.
  - exact interrupted_sound.
  - exact interrupted_rows.
  - vm_compute. reflexivity.
Defined.

Lemma empty_upload_waits (cs : Z)
    (fileId name type : string) (isLast : bool) (channelId : string)
    (now : Z) (events : list (nat * option Upload.DiscordAttachment))
    (d : Db.t) :
  let o := Upload.init (Client.init_body fileId name type []) now d in
  Client.processUpload cs fileId name type [] isLast channelId now events d
  = (if Client.is_success (reply o) then Client.Waiting else Client.Rejected,
     db o)
  /\ (Client.is_success (reply o) = true ->
      Db.is_pending (db o) fileId = true).
Proof.
  intros o. split; [|apply init_success_pending].
  unfold Client.processUpload. fold o.
  destruct (Client.is_success (reply o)); [|reflexivity].
  assert (Hn : Client.totalChunks cs [] = 0%nat).
  { reflexivity. }
  rewrite Hn.
  set (existing := match reply (Upload.chunks fileId (db o)) with
                   | success (indices l) => l
                   | _ => []
                   end).
  assert (Hfold : forall s,
    Client.in_flight (Client.pool s) = [] ->
    fold_left (fun s e =>
                 Client.task_settles cs fileId [] channelId existing 0 e s)
              events s = s).
  { induction events as [|[i a] events IH]; intros s Hs; [reflexivity|].
    simpl. rewrite Hs.
    rewrite bool_decide_eq_false_2 by apply not_elem_of_nil.
    apply IH, Hs. }
  rewrite Hfold by reflexivity. reflexivity.
Qed.


Section AfterUpload.

Variables (cs : Z) (fileId name type : string) (file : list Byte.byte)
  (isLast : bool) (channelId : string) (now : Z)
  (events : list (nat * option Upload.DiscordAttachment)) (d d' : Db.t).
Hypothesis cs_pos : 0 < cs.
Hypothesis d_sound : sound d.
Hypothesis d_rows : rows_of_file cs fileId file d.
Hypothesis fulfilled :
  Client.processUpload cs fileId name type file isLast channelId now events d
  = (Client.Fulfilled, d').

Local Abbreviation chunks := (Db.chunks_ordered d' fileId).

Lemma uploaded_not_empty : file <> [].
Proof.
  intros ->.
  destruct (empty_upload_waits cs fileId name type isLast channelId now
              events d) as [Hw _].
  rewrite fulfilled in Hw.
  destruct (Client.is_success _); discriminate.
Qed.

Lemma uploaded_chunks_not_empty : chunks <> [].
Proof.
  intros Hnil.
  destruct (completed_upload cs fileId name type file channelId now cs_pos
              isLast events d d' d_sound d_rows fulfilled)
    as (_ & _ & Hbytes & _).
  rewrite Hnil in Hbytes. simpl in Hbytes.
  apply uploaded_not_empty. symmetry. exact Hbytes.
Qed.

Lemma uploaded_download env inline :
  (forall p, Net.aborted env p = false) ->
  Forall (fun ch => Download.fetched_body env ch = Some (bytes_of cs file ch))
         chunks ->
  exists ws,
    body (Download.get env d' fileId None None inline).1 = Stream ws true
    /\ concat ws = file.
Proof.
  intros Hab Hserved.
  destruct (completed_upload cs fileId name type file channelId now cs_pos
              isLast events d d' d_sound d_rows fulfilled)
    as (Hget & Hidx & Hbytes & _).
  exists (map (bytes_of cs file) chunks). split; [|exact Hbytes].
  rewrite (get_full env d' fileId _ None inline Hget
             uploaded_chunks_not_empty).
  rewrite full_body. rewrite (filtered_from None).
  rewrite filter_all.
  - rewrite (sequential_complete env (bytes_of cs file) 0 chunks [] Hab).
    + reflexivity.
    + intros ch Hch. rewrite Forall_forall in Hserved. apply Hserved, Hch.
  - intros ch Hch. simpl.
    assert (Hin : Chunk.idx ch ∈ map Chunk.idx chunks)
      by (apply list_elem_of_fmap; eauto).
    rewrite Hidx in Hin. apply list_elem_of_fmap in Hin as (i & -> & _). lia.
Qed.

Lemma uploaded_locate (s : Z) :
  0 <= s < Z.of_nat (length file) ->
  exists chunk,
    Stream.locate (JS.Int s) 0 chunks = Some (chunk, s / cs * cs)
    /\ Chunk.idx chunk = s / cs
    /\ bytes_of cs file chunk !! Z.to_nat (s mod cs) = file !! Z.to_nat s.
Proof.
  intros Hs.
  destruct (completed_upload cs fileId name type file channelId now cs_pos
              isLast events d d' d_sound d_rows fulfilled)
    as (_ & Hidx & _ & Hall & Hsum & _).
  rewrite Forall_forall in Hall.
  assert (Hnonneg : Forall (fun c => 0 <= Chunk.size c) chunks).
  { apply Forall_forall. intros c Hc. destruct (Hall c Hc) as (_ & H1 & _).
    lia. }
  destruct (locate_spec chunks 0 s Hnonneg ltac:(lia))
    as (k & chunk & Hk & Hloc & Hb).
  assert (Hlen : length chunks = Client.totalChunks cs file).
  { rewrite <- (length_map Chunk.idx chunks), Hidx, length_map, length_seq.
    reflexivity. }
  assert (Hkn : (k < Client.totalChunks cs file)%nat).
  { rewrite <- Hlen. apply lookup_lt_is_Some. eauto. }
  assert (Hci : Chunk.idx chunk = Z.of_nat k).
  { assert (H1 : map Chunk.idx chunks !! k = Some (Chunk.idx chunk))
      by (rewrite list_lookup_fmap, Hk; reflexivity).
    rewrite Hidx, list_lookup_fmap, lookup_seq_lt in H1 by lia.
    simpl in H1. congruence. }
  assert (Hoff : offset_of chunks k = Z.of_nat k * cs).
  { apply (offset_full_chunks cs file cs_pos); [exact Hidx| |exact Hkn].
    intros c Hc. apply Hall, Hc. }
  assert (Hin : chunk ∈ chunks) by (apply list_elem_of_lookup; eauto).
  destruct (Hall chunk Hin) as (Hsz & _ & _).
  unfold bytes_of in Hsz. rewrite Hci, Nat2Z.id in Hsz.
  rewrite (payload_length cs cs_pos file k) in Hsz.
  rewrite Hoff, Z.add_0_l in Hb, Hloc.
  assert (Hq : s / cs = Z.of_nat k).
  { symmetry. apply (Z.div_unique s cs (Z.of_nat k) (s - Z.of_nat k * cs));
      lia. }
  exists chunk. rewrite Hq. split; [exact Hloc|]. split; [exact Hci|].
  unfold bytes_of. rewrite Hci, Nat2Z.id.
  rewrite (payload_take cs cs_pos file k).
  assert (Hmod : s mod cs = s - Z.of_nat k * cs).
  { rewrite Z.mod_eq by lia. rewrite Hq. lia. }
  rewrite lookup_take_lt by lia. rewrite lookup_drop. f_equal. nia.
Qed.

End AfterUpload.

(** X12. Up and down again: after an upload that ran to its end (on
    a consistent index whose chunk rows for the id, if any, are chunks
    of this file), a full download from a store that serves for each
    chunk row the bytes that were sent for it, to a client that stays
    connected, streams the chunks in index order and closes the stream,
    and what it streams is the file. *)
Theorem uploaded_file_downloads_whole (cs : Z) (fileId name type : string)
    (file : list Byte.byte) (isLast : bool) (channelId : string) (now : Z)
    (events : list (nat * option Upload.DiscordAttachment)) (d d' : Db.t)
    (env : Net.Env) (inline : option string) :
  0 < cs ->
  sound d ->
  rows_of_file cs fileId file d ->
  Client.processUpload cs fileId name type file isLast channelId now events d
  = (Client.Fulfilled, d') ->
  (forall p, Net.aborted env p = false) ->
  Forall (fun ch => Download.fetched_body env ch = Some (bytes_of cs file ch))
         (Db.chunks_ordered d' fileId) ->
  exists ws,
    body (Download.get env d' fileId None None inline).1 = Stream ws true
    /\ concat ws = file.
Proof.
  intros Hcs Hs Hrows Hup. eapply uploaded_download; eassumption.
Qed.

Lemma uploaded_file_downloads_whole_witness :
  exists ws,
    body (Download.get SampleUpload.env SampleUpload.resumed "f" None None
            None).1
    = Stream ws true
    /\ concat ws = SampleUpload.file.
Proof.
  apply (uploaded_file_downloads_whole 6 "f" "t.txt" "text/plain"
           SampleUpload.file true "chan" 1700000100
           [(0%nat, None); (1%nat, Some SampleUpload.att1)]
           SampleUpload.interrupted SampleUpload.resumed SampleUpload.env None).
  - lia.
  - exact interrupted_sound.
  - exact interrupted_rows.
  - vm_compute. reflexivity.
  - reflexivity.
  - set (rows := Db.chunks_ordered SampleUpload.resumed "f").
    vm_compute in rows. subst rows.
    repeat (constructor; [vm_compute; reflexivity|]). constructor.
Defined.

(** X13. After an upload that ran to its end (on a consistent index
    whose chunk rows for the id, if any, are chunks of this file), the
    walk of the range engine over the running offsets finds for byte
    [s] of the file the chunk that the client cut as number
    [s / CHUNK_SIZE], which starts at offset
    [(s / CHUNK_SIZE) * CHUNK_SIZE]; byte [s] of the file is byte
    [s mod CHUNK_SIZE] of what was sent for that chunk. *)
Theorem uploaded_offsets_match_the_walk (cs : Z) (fileId name type : string)
    (file : list Byte.byte) (isLast : bool) (channelId : string) (now : Z)
    (events : list (nat * option Upload.DiscordAttachment)) (d d' : Db.t)
    (s : Z) :
  0 < cs ->
  sound d ->
  rows_of_file cs fileId file d ->
  Client.processUpload cs fileId name type file isLast channelId now events d
  = (Client.Fulfilled, d') ->
  0 <= s < Z.of_nat (length file) ->
  exists chunk,
    Stream.locate (JS.Int s) 0 (Db.chunks_ordered d' fileId)
    = Some (chunk, s / cs * cs)
    /\ Chunk.idx chunk = s / cs
    /\ bytes_of cs file chunk !! Z.to_nat (s mod cs) = file !! Z.to_nat s.
Proof.
  intros Hcs Hs Hrows Hup. eapply uploaded_locate; eassumption.
Qed.

Lemma uploaded_offsets_match_the_walk_witness :
  exists chunk,
    Stream.locate (JS.Int 8) 0 (Db.chunks_ordered SampleUpload.resumed "f")
    = Some (chunk, 8 / 6 * 6)
    /\ Chunk.idx chunk = 8 / 6
    /\ bytes_of 6 SampleUpload.file chunk !! Z.to_nat (8 mod 6)
       = SampleUpload.file !! Z.to_nat 8.
Proof.
  apply (uploaded_offsets_match_the_walk 6 "f" "t.txt" "text/plain"
           SampleUpload.file true "chan" 1700000100
           [(0%nat, None); (1%nat, Some SampleUpload.att1)]
           SampleUpload.interrupted SampleUpload.resumed 8).
  - lia.
  - exact interrupted_sound.
  - exact interrupted_rows.
  - vm_compute. reflexivity.
  - vm_compute. split; [intros H; discriminate H | reflexivity].
Defined.

(** ** Reads and the status of a file *)

Section ReadsAndStatus.

Lemma get_file_set_status d fileId st :
  Db.get_file (Db.set_status fileId st d) fileId
  = Db.with_status st <$> Db.get_file d fileId.
Proof.
  unfold Db.get_file, Db.set_status. cbn [Db.files].
  rewrite lookup_alter, decide_True by reflexivity. reflexivity.
Qed.

(** X14. The two read routes never look at the status of a file: a
    file that is pending or in the trash is streamed and downloaded with
    the same answer and the same row updates as when it is active. *)
Theorem reads_ignore_status (env : Net.Env) (d : Db.t) (fileId : string)
    (st : File.Status) (rangeHeader index start_chunk inline : option string) :
  Stream.get env (Db.set_status fileId st d) fileId rangeHeader
  = Stream.get env d fileId rangeHeader
  /\ Download.get env (Db.set_status fileId st d) fileId index start_chunk
       inline
     = Download.get env d fileId index start_chunk inline.
Proof.
  split.
  - unfold Stream.get. rewrite get_file_set_status.
    destruct (Db.get_file d fileId) as [file|]; reflexivity.
  - unfold Download.get. rewrite get_file_set_status.
    destruct (Db.get_file d fileId) as [file|]; reflexivity.
Qed.

End ReadsAndStatus.

(** ** Round trips of the life cycle *)

Section RoundTrips.

Lemma db_eq (d1 d2 : Db.t) :
  Db.files d1 = Db.files d2 -> Db.chunks d1 = Db.chunks d2 ->
  Db.seq d1 = Db.seq d2 -> d1 = d2.
Proof. destruct d1, d2. simpl. intros -> -> ->. reflexivity. Qed.

(** X15. Trash and restore: deleting an active file and restoring it
    gives back the index as it was, with every chunk row; both requests
    are answered 200 and neither schedules the deletion of a message. *)
Theorem delete_then_restore_is_identity (d : Db.t) (fileId : string)
    (row : File.row) :
  Db.get_file d fileId = Some row ->
  File.status row = File.active ->
  let o1 := Files.delete fileId d in
  let o2 := Files.restore fileId (db o1) in
  db o2 = d
  /\ status_of (reply o1) = 200 /\ status_of (reply o2) = 200
  /\ scheduled (tasks o1 ++ tasks o2) = []
  /\ Api.status_of_id (db o1) fileId = Some File.trashed.
Proof.
  intros Hr Hst o1 o2.
  assert (H1 : o1 = {| reply := success (message "File moved to trash");
                       db := Db.set_status fileId File.trashed d;
                       tasks := [backupDatabase] |}).
  { unfold o1, Files.delete. rewrite Hr, decide_True by exact Hst.
    reflexivity. }
  assert (Hget : Db.get_file (db o1) fileId
                 = Some (Db.with_status File.trashed row)).
  { rewrite H1. cbn [db]. rewrite get_file_set_status, Hr. reflexivity. }
  assert (H2 : o2 = {| reply := success (message "File restored");
                       db := Db.set_status fileId File.active (db o1);
                       tasks := [backupDatabase] |}).
  { unfold o2, Files.restore. rewrite Hget.
    rewrite decide_True by reflexivity. reflexivity. }
  split; [|split; [|split; [|split]]].
  - rewrite H2, H1. cbn [db]. apply db_eq; try reflexivity.
    cbn [Db.set_status Db.files]. apply map_eq. intros k.
    rewrite !lookup_alter. destruct (decide (k = fileId)) as [->|Hk].
    + rewrite !decide_True by reflexivity.
      unfold Db.get_file in Hr. rewrite Hr. simpl.
      destruct row; simpl in *; subst; reflexivity.
    + rewrite !decide_False by congruence. reflexivity.
  - rewrite H1. reflexivity.
  - rewrite H2. reflexivity.
  - rewrite H1, H2. reflexivity.
  - unfold Api.status_of_id. unfold Db.get_file in Hget. rewrite Hget.
    reflexivity.
Qed.

Lemma delete_then_restore_is_identity_witness :
  let o1 := Files.delete "a" Sample.two_chunks in
  let o2 := Files.restore "a" (db o1) in
  db o2 = Sample.two_chunks
  /\ status_of (reply o1) = 200 /\ status_of (reply o2) = 200
  /\ scheduled (tasks o1 ++ tasks o2) = []
  /\ Api.status_of_id (db o1) "a" = Some File.trashed.
Proof.
  apply (delete_then_restore_is_identity Sample.two_chunks "a"
           (Sample.row "t.txt" 12 File.active)); reflexivity.
Defined.

(** X16. An upload that is opened and aborted at once leaves no
    trace: on an index that has neither a row nor a chunk row for the id,
    [init] followed by [abort] gives back the index as it was and
    schedules nothing. *)
Theorem init_then_abort_leaves_no_trace (d : Db.t) (body : Upload.InitBody)
    (now : Z) (fileId name : string) (size : Z) :
  Upload.id body = Some fileId -> fileId <> EmptyString ->
  Upload.name body = Some name -> name <> EmptyString ->
  Upload.size body = Some size ->
  Db.get_file d fileId = None ->
  Db.chunks_of d fileId = [] ->
  let o1 := Upload.init body now d in
  let o2 := Upload.abort fileId (db o1) in
  db o2 = d
  /\ Db.is_pending (db o1) fileId = true
  /\ tasks o1 = [] /\ tasks o2 = [].
Proof.
  intros Hid Hne Hnm Hnne Hsz Hget Hnil o1 o2.
  assert (H1 : o1 = {| reply := success null;
                       db := {| Db.files :=
                                  <[fileId := Upload.pending_row name size
                                                body now]> (Db.files d);
                                Db.chunks := Db.chunks d;
                                Db.seq := Db.seq d |};
                       tasks := [] |}).
  { unfold o1, Upload.init. rewrite Hid, Hnm, Hsz.
    destruct fileId as [|a i]; [congruence|].
    destruct name as [|b m]; [congruence|].
    rewrite Hget. apply insert_pending_fresh. exact Hget. }
  split; [|split; [|split]].
  - unfold o2, Upload.abort. cbn [db]. rewrite H1. cbn [db].
    apply db_eq; cbn [Db.delete_files Db.files Db.chunks Db.seq].
    + apply map_eq. intros k. rewrite map_lookup_filter.
      destruct (decide (k = fileId)) as [->|Hk].
      * rewrite lookup_insert_eq. simpl.
        unfold Db.get_file in Hget. rewrite Hget.
        rewrite option_guard_False; [reflexivity|].
        unfold Upload.pending_with_id. simpl.
        rewrite !bool_decide_eq_true_2 by reflexivity. discriminate.
      * rewrite lookup_insert_ne by congruence.
        destruct (Db.files d !! k) as [r|]; [|reflexivity]. simpl.
        rewrite option_guard_True; [reflexivity|].
        unfold Upload.pending_with_id. simpl.
        rewrite (bool_decide_eq_false_2 (k = fileId)) by exact Hk.
        reflexivity.
    + reflexivity.
    + reflexivity.
  - rewrite H1. unfold Db.is_pending. cbn [db Db.files].
    rewrite lookup_insert_eq. reflexivity.
  - rewrite H1. reflexivity.
  - unfold o2, Upload.abort. cbn [tasks]. rewrite H1. cbn [db].
    unfold Db.chunks_of in *. cbn [Db.chunks]. rewrite Hnil. reflexivity.
Qed.

Lemma init_then_abort_leaves_no_trace_witness :
  let o1 := Upload.init Sample.body_a 1700000000 Db.empty in
  let o2 := Upload.abort "a" (db o1) in
  db o2 = Db.empty
  /\ Db.is_pending (db o1) "a" = true
  /\ tasks o1 = [] /\ tasks o2 = [].
Proof.
  apply (init_then_abort_leaves_no_trace Db.empty Sample.body_a 1700000000
           "a" "t.txt" 14); try reflexivity; discriminate.
Defined.

End RoundTrips.

(** ** Two uploads of one chunk at the same time *)

Section Overlap.

Variables (fileId : string) (i : Z) (channelId : string).

Lemma chunk_begin_free d buffer :
  Db.is_pending d fileId = true -> buffer <> [] ->
  Db.chunks_at d fileId i = [] ->
  Upload.chunk_begin fileId i buffer d = inr (d, []).
Proof.
  intros Hp Hne Hat. unfold Upload.chunk_begin.
  rewrite decide_False by (destruct buffer; [congruence|discriminate]).
  rewrite Hp, Hat. reflexivity.
Qed.

Lemma chunk_end_stores d buffer att :
  Db.is_pending d fileId = true ->
  Upload.chunk_end fileId i buffer channelId (Some att) d
  = {| reply := success (messageId (Upload.att_id att));
       db := {| Db.files := Db.files d;
                Db.chunks :=
                  (Db.chunks d
                   ++ [Upload.stored fileId i channelId buffer att d])%list;
                Db.seq := Db.seq d + 1 |};
       tasks := [] |}.
Proof.
  intros Hp. unfold Upload.chunk_end, Db.insert_chunk. rewrite Hp.
  unfold Db.is_pending in Hp.
  destruct (Db.files d !! fileId); [reflexivity | discriminate].
Qed.

(** X17. The handler drops the row of a chunk before it awaits the
    store and inserts the new row after, without looking again.  When a
    second upload of the same chunk starts before the first has stored its
    row, both find no row to drop, both insert, and nothing is scheduled
    for deletion: the file has two rows at that index, and [(fileId,
    idx)] names one row no more. *)
Theorem overlapping_uploads_leave_two_rows (d : Db.t)
    (b1 b2 : list Byte.byte) (a1 a2 : Upload.DiscordAttachment) :
  Db.is_pending d fileId = true -> b1 <> [] -> b2 <> [] ->
  Db.chunks_at d fileId i = [] ->
  exists d1 d2,
    Upload.chunk_begin fileId i b1 d = inr (d1, [])
    /\ Upload.chunk_begin fileId i b2 d1 = inr (d2, [])
    /\ let o1 := Upload.chunk_end fileId i b1 channelId (Some a1) d2 in
       let o2 := Upload.chunk_end fileId i b2 channelId (Some a2) (db o1) in
       status_of (reply o1) = 200 /\ status_of (reply o2) = 200
       /\ tasks o1 = [] /\ tasks o2 = []
       /\ map Chunk.message_id (Db.chunks_at (db o2) fileId i)
          = [Upload.att_id a1; Upload.att_id a2]
       /\ ~ Db.unique_idx (db o2).
Proof.
  intros Hp Hb1 Hb2 Hat. exists d, d.
  split; [apply chunk_begin_free; assumption|].
  split; [apply chunk_begin_free; assumption|].
  rewrite (chunk_end_stores d b1 a1 Hp). cbn [db].
  rewrite chunk_end_stores by exact Hp. cbn [reply db tasks status_of].
  assert (Hrows : forall r1 r2 sq,
    Chunk.file_id r1 = fileId -> Chunk.idx r1 = i ->
    Chunk.file_id r2 = fileId -> Chunk.idx r2 = i ->
    Db.chunks_at {| Db.files := Db.files d;
                    Db.chunks := ((Db.chunks d ++ [r1]) ++ [r2])%list;
                    Db.seq := sq |} fileId i
    = [r1; r2]).
  { intros r1 r2 sq Hf1 Hi1 Hf2 Hi2. unfold Db.chunks_at in *.
    cbn [Db.chunks]. rewrite !filter_app, Hat.
    rewrite !filter_cons_True by (split; assumption). reflexivity. }
  cbn [Db.files Db.chunks Db.seq].
  repeat split; try reflexivity.
  - rewrite Hrows by reflexivity. reflexivity.
  - intros Hu. specialize (Hu fileId i).
    rewrite Hrows in Hu by reflexivity. simpl in Hu. lia.
Qed.

End Overlap.

Lemma overlapping_uploads_leave_two_rows_witness :
  exists d1 d2,
    Upload.chunk_begin "a" 1 Sample.hello (Sample.one_file File.pending)
    = inr (d1, [])
    /\ Upload.chunk_begin "a" 1 [Byte.x21] d1 = inr (d2, [])
    /\ let o1 := Upload.chunk_end "a" 1 Sample.hello "chan"
                   (Some (Sample.att "m2")) d2 in
       let o2 := Upload.chunk_end "a" 1 [Byte.x21] "chan"
                   (Some (Sample.att "m3")) (db o1) in
       status_of (reply o1) = 200 /\ status_of (reply o2) = 200
       /\ tasks o1 = [] /\ tasks o2 = []
       /\ map Chunk.message_id (Db.chunks_at (db o2) "a" 1)
          = [Upload.att_id (Sample.att "m2"); Upload.att_id (Sample.att "m3")]
       /\ ~ Db.unique_idx (db o2).
Proof.
  apply (overlapping_uploads_leave_two_rows "a" 1 "chan"
           (Sample.one_file File.pending) Sample.hello [Byte.x21]
           (Sample.att "m2") (Sample.att "m3"));
    first [reflexivity | discriminate].
Defined.

(** ** Ranges at the edges *)

Section RangeEdges.

Lemma locate_NaN off chunks : Stream.locate JS.NaN off chunks = None.
Proof.
  revert off. induction chunks as [|c l IH]; intros off; [reflexivity|].
  simpl. apply IH.
Qed.

Lemma locate_beyond s off chunks :
  Forall (fun c => 0 <= Chunk.size c) chunks ->
  off + sizes_sum chunks <= s ->
  Stream.locate (JS.Int s) off chunks = None.
Proof.
  intros Hl. revert off. induction Hl as [|c l Hc Hl IH]; intros off Hs;
    [reflexivity|].
  rewrite sizes_sum_cons in Hs. pose proof (sizes_sum_nonneg l Hl).
  simpl. replace (s <? off + Chunk.size c) with false
    by (symmetry; apply Z.ltb_ge; lia).
  rewrite andb_false_r. apply IH. lia.
Qed.

Lemma locate_before s off chunks :
  Forall (fun c => 0 <= Chunk.size c) chunks ->
  s < off -> Stream.locate (JS.Int s) off chunks = None.
Proof.
  intros Hl. revert off. induction Hl as [|c l Hc Hl IH]; intros off Hs;
    [reflexivity|].
  simpl. replace (off <=? s) with false by (symmetry; apply Z.leb_gt; lia).
  simpl. apply IH. lia.
Qed.

Lemma parse_range_suffix (rest : string) fileSize :
  (Stream.parse_range (Some ("bytes=-" +:+ rest)) fileSize).1 = JS.NaN.
Proof.
  change ("bytes=-" +:+ rest) with ("bytes=" +:+ String "-" rest).
  change ("bytes=" +:+ String "-" rest)
    with (String "b" ("ytes=" +:+ String "-" rest)).
  unfold Stream.parse_range.
  change (String "b" ("ytes=" +:+ String "-" rest))
    with ("bytes=" +:+ String "-" rest).
  rewrite remove_first_bytes.
  change (JS.split "-" (String "-" rest))
    with (EmptyString :: JS.split "-" rest).
  reflexivity.
Qed.

Lemma parse_range_open (s : Z) fileSize :
  0 <= s ->
  Stream.parse_range (Some ("bytes=" +:+ pretty s +:+ "-")) fileSize
  = (JS.Int s, JS.Int (fileSize - 1)).
Proof.
  intros Hs.
  change ("bytes=" +:+ pretty s +:+ "-")
    with (String "b" ("ytes=" +:+ pretty s +:+ "-")).
  unfold Stream.parse_range.
  change (String "b" ("ytes=" +:+ pretty s +:+ "-"))
    with ("bytes=" +:+ (pretty s +:+ "-")).
  rewrite remove_first_bytes.
  change (pretty s +:+ "-") with (pretty s +:+ String "-" EmptyString).
  rewrite split_digits_dash by (apply is_digits_pretty, Hs).
  cbn [JS.split List.nth lookup list_lookup JS.truthy].
  rewrite parseInt_pretty by auto. reflexivity.
Qed.

(** X18. Ranges the stream route refuses.  For a file whose chunk
    sizes are not negative, the answer is 416, and no address is
    refreshed, when the first byte asked for lies at or after the sum of
    the chunk sizes; when the header starts with [bytes=-], as the
    suffix range [bytes=-n] does, which asks for the last [n] bytes; and,
    whatever the header, when the file has no chunk. *)
Theorem stream_refuses_ranges_outside (env : Net.Env) (d : Db.t)
    (fileId : string) (file : File.row) :
  Db.get_file d fileId = Some file ->
  Forall (fun c => 0 <= Chunk.size c) (Db.chunks_ordered d fileId) ->
  let refused := (c_text "Range Not Satisfiable" 416, []) in
  (forall s e,
     sizes_sum (Db.chunks_ordered d fileId) <= s -> 0 <= e ->
     Stream.get env d fileId (Some (range_header s e)) = refused)
  /\ (forall rest,
        Stream.get env d fileId (Some ("bytes=-" +:+ rest)) = refused)
  /\ (Db.chunks_ordered d fileId = [] ->
      forall rangeHeader, Stream.get env d fileId rangeHeader = refused).
Proof.
  intros Hfile Hsizes refused. split; [|split].
  - intros s e Hs He. unfold Stream.get. rewrite Hfile.
    pose proof (sizes_sum_nonneg _ Hsizes).
    rewrite parse_range_header by lia.
    rewrite locate_beyond by (auto; lia). reflexivity.
  - intros rest. unfold Stream.get. rewrite Hfile.
    pose proof (parse_range_suffix rest (File.size file)) as Hp.
    destruct (Stream.parse_range _ _) as [start end_]. simpl in Hp. subst.
    rewrite locate_NaN. reflexivity.
  - intros Hnil rangeHeader. unfold Stream.get. rewrite Hfile, Hnil.
    destruct (Stream.parse_range _ _) as [start end_]. reflexivity.
Qed.

Lemma stream_refuses_ranges_outside_witness :
  let refused := (c_text "Range Not Satisfiable" 416, []) in
  (forall s e,
     sizes_sum (Db.chunks_ordered Sample.two_chunks "a") <= s -> 0 <= e ->
     Stream.get Sample.env Sample.two_chunks "a" (Some (range_header s e))
     = refused)
  /\ (forall rest,
        Stream.get Sample.env Sample.two_chunks "a"
          (Some ("bytes=-" +:+ rest)) = refused)
  /\ (Db.chunks_ordered Sample.two_chunks "a" = [] ->
      forall rangeHeader,
        Stream.get Sample.env Sample.two_chunks "a" rangeHeader = refused).
Proof.
  apply (stream_refuses_ranges_outside Sample.env Sample.two_chunks "a"
           (Sample.row "t.txt" 12 File.active)).
  - reflexivity.
  - vm_compute. repeat constructor; discriminate.
Defined.

End RangeEdges.

Section OpenRanges.

Lemma offset_of_all l : offset_of l (length l) = sizes_sum l.
Proof. unfold offset_of. rewrite firstn_all. reflexivity. Qed.

Lemma parse_range_of_open (start : option Z) fileSize :
  0 <= default 0 start ->
  Stream.parse_range (open_range start) fileSize
  = (JS.Int (default 0 start), JS.Int (fileSize - 1)).
Proof.
  intros Hs. destruct start as [s|]; [|reflexivity].
  apply parse_range_open. exact Hs.
Qed.

(** X19. A request without a [Range] header, or with the open range
    [bytes=s-]: on a file whose chunk sizes add up to its size, with
    [s] inside the file and a store that answers, the reply is 206 and
    carries the bytes from [s] to the end of the chunk that holds [s],
    not to the end of the file: [Content-Range] ends at the last byte of
    that chunk and [Content-Length] is what is left of the chunk. *)
Theorem open_range_is_served_to_the_end_of_one_chunk (env : Net.Env)
    (d : Db.t) (fileId : string) (file : File.row) (start : option Z) :
  Db.get_file d fileId = Some file ->
  Forall (fun c => 0 <= Chunk.size c) (Db.chunks_ordered d fileId) ->
  sizes_sum (Db.chunks_ordered d fileId) = File.size file ->
  0 <= default 0 start < File.size file ->
  Forall (fun c => is_Some (Chunk.url c)) (Db.chunks_ordered d fileId) ->
  (forall k u rg, exists r, Net.fetch env k u rg = Some r /\ Net.ok r = true) ->
  exists k chunk u r ws,
    let s := default 0 start in
    let chunks := Db.chunks_ordered d fileId in
    let off := offset_of chunks k in
    let g := off + Chunk.size chunk - 1 in
    chunks !! k = Some chunk
    /\ off <= s <= g /\ g < File.size file
    /\ Net.fetch env 0 u (Some (range_header (s - off) (g - off))) = Some r
    /\ Stream.get env d fileId (open_range start)
       = ({| status := 206;
             headers :=
               [("Content-Range",
                 "bytes " +:+ pretty s +:+ "-" +:+ pretty g +:+ "/"
                 +:+ pretty (File.size file));
                ("Accept-Ranges", "bytes");
                ("Content-Length", pretty (g - s + 1));
                ("Content-Type",
                 JS.or_else (File.type file) "application/octet-stream")];
             body := Bytes (Net.body r) |}, ws).
Proof.
  intros Hfile Hsizes Hsum Hs Hurls Hup.
  set (s := default 0 start) in *.
  destruct (locate_spec (Db.chunks_ordered d fileId) 0 s Hsizes ltac:(lia))
    as (k & chunk & Hk & Hloc & Hb).
  rewrite !Z.add_0_l in Hloc, Hb.
  assert (Hu : is_Some (Stream.fresh_url env chunk).1).
  { apply fresh_url_defined.
    rewrite Forall_forall in Hurls. apply Hurls.
    apply list_elem_of_lookup. exists k. exact Hk. }
  destruct (Stream.fresh_url env chunk) as [cdnUrl ws] eqn:Hfresh.
  destruct Hu as [u Hu]. simpl in Hu. subst cdnUrl.
  set (off := offset_of (Db.chunks_ordered d fileId) k) in *.
  set (g := off + Chunk.size chunk - 1).
  assert (Hg : g < File.size file).
  { pose proof (offset_of_S _ k chunk Hk) as HS. fold off in HS.
    pose proof (offset_of_mono (Db.chunks_ordered d fileId) (S k)
                  (length (Db.chunks_ordered d fileId)) Hsizes) as Hm.
    rewrite offset_of_all, Hsum, HS in Hm.
    assert (k < length (Db.chunks_ordered d fileId))%nat
      by (apply lookup_lt_is_Some; eauto).
    unfold g. specialize (Hm ltac:(lia)). lia. }
  destruct (Hup 0%nat u (Some (range_header (s - off) (g - off))))
    as (r & Hr & Hok).
  exists k, chunk, u, r, ws. cbv zeta. fold s. fold off. fold g.
  split; [exact Hk|]. split; [unfold g; lia|]. split; [exact Hg|].
  split; [exact Hr|].
  unfold Stream.get. rewrite Hfile.
  rewrite parse_range_of_open by (fold s; lia). fold s.
  rewrite Hloc. fold off. rewrite Hfresh.
  cbn [JS.sub JS.add JS.Math_min JS.toString].
  replace (Z.min (File.size file - 1 - s + 1) (Chunk.size chunk - (s - off)))
    with (g - s + 1) by (unfold g; lia).
  replace (s - off + (g - s + 1) - 1) with (g - off) by lia.
  replace (s + (g - s + 1) - 1) with g by lia.
  unfold Net.fetch_url. fold (range_header (s - off) (g - off)).
  rewrite Hr, Hok. reflexivity.
Qed.

Lemma open_range_is_served_to_the_end_of_one_chunk_witness :
  exists k chunk u r ws,
    let s := default 0 (Some 2) in
    let chunks := Db.chunks_ordered Sample.two_chunks "a" in
    let off := offset_of chunks k in
    let g := off + Chunk.size chunk - 1 in
    chunks !! k = Some chunk
    /\ off <= s <= g /\ g < File.size (Sample.row "t.txt" 12 File.active)
    /\ Net.fetch Sample.env 0 u (Some (range_header (s - off) (g - off)))
       = Some r
    /\ Stream.get Sample.env Sample.two_chunks "a" (open_range (Some 2))
       = ({| status := 206;
             headers :=
               [("Content-Range",
                 "bytes " +:+ pretty s +:+ "-" +:+ pretty g +:+ "/"
                 +:+ pretty (File.size (Sample.row "t.txt" 12 File.active)));
                ("Accept-Ranges", "bytes");
                ("Content-Length", pretty (g - s + 1));
                ("Content-Type",
                 JS.or_else (File.type (Sample.row "t.txt" 12 File.active))
                   "application/octet-stream")];
             body := Bytes (Net.body r) |}, ws).
Proof.
  apply (open_range_is_served_to_the_end_of_one_chunk Sample.env
           Sample.two_chunks "a" (Sample.row "t.txt" 12 File.active)
           (Some 2)).
  - reflexivity.
  - vm_compute. repeat constructor; discriminate.
  - reflexivity.
  - simpl. lia.
  - vm_compute. repeat constructor; eexists; reflexivity.
  - intros k u rg. eexists. split; reflexivity.
Defined.

End OpenRanges.

(** ** Deleting messages from the store *)

Section BulkDelete.

Import Discord.
Local Open Scope list_scope.

Lemma concat_take_drop {A} (k n : nat) (l : list A) :
  (0 < k)%nat -> (length l <= n * k)%nat ->
  concat (map (fun j => take k (drop (j * k) l)) (seq 0 n)) = l.
Proof.
  intros Hk. revert l. induction n as [|n IH]; intros l Hlen.
  - simpl. symmetry. apply length_zero_iff_nil. simpl in Hlen. lia.
  - change (seq 0 (S n)) with (0%nat :: seq 1 n).
    rewrite <- seq_shift. cbn [map concat]. rewrite map_map.
    transitivity (take k l ++ drop k l); [|apply take_drop].
    f_equal.
    etransitivity; [|apply (IH (drop k l)); rewrite length_drop; lia].
    f_equal. apply map_ext. intros i. rewrite drop_drop. reflexivity.
Qed.

Lemma slices_count {A} (k : nat) (l : list A) :
  (0 < k)%nat ->
  let n := ((length l + k - 1) / k)%nat in
  (length l <= n * k)%nat /\ (n * k < length l + k)%nat.
Proof.
  intros Hk n. subst n.
  pose proof (Nat.div_mod_eq (length l + k - 1) k) as Hdm.
  pose proof (Nat.mod_upper_bound (length l + k - 1) k ltac:(lia)) as Hm.
  nia.
Qed.

Lemma concat_slices_all {A} (k : nat) (l : list A) :
  (0 < k)%nat -> concat (slices k l) = l.
Proof.
  intros Hk. unfold slices. apply concat_take_drop; [exact Hk|].
  apply (slices_count k l Hk).
Qed.

Lemma slices_lengths {A} (k : nat) (l : list A) :
  (0 < k)%nat ->
  Forall (fun b => (1 <= length b <= k)%nat) (slices k l).
Proof.
  intros Hk. unfold slices. apply Forall_forall. intros b Hb.
  apply list_elem_of_fmap in Hb as (j & -> & Hj).
  apply elem_of_seq in Hj. rewrite length_take, length_drop.
  pose proof (slices_count k l Hk) as Hc. simpl in Hc. nia.
Qed.

Lemma fallback_waves batch :
  Forall well_formed (fallback batch)
  /\ flat_map named (concat (fallback batch)) = batch
  /\ flat_map posted (concat (fallback batch)) = []
  /\ flat_map deleted_singly (concat (fallback batch)) = batch.
Proof.
  unfold fallback.
  assert (Hids : forall l : list string,
            flat_map named (map DELETE_message l) = l
            /\ flat_map posted (map DELETE_message l) = []
            /\ flat_map deleted_singly (map DELETE_message l) = l).
  { induction l as [|x l (IH1 & IH2 & IH3)]; [repeat split|].
    simpl. rewrite IH1, IH2, IH3. repeat split. }
  assert (Hcat : concat (map (map DELETE_message) (slices 5 batch))
                 = map DELETE_message batch).
  { rewrite <- (concat_slices_all 5 batch) at 2 by lia.
    generalize (slices 5 batch). intros ll.
    induction ll as [|x ll IH]; [reflexivity|].
    simpl. rewrite IH, map_app. reflexivity. }
  rewrite Hcat. destruct (Hids batch) as (H1 & H2 & H3).
  split; [|repeat split; assumption].
  apply Forall_forall. intros w Hw.
  apply list_elem_of_fmap in Hw as (b & -> & Hb).
  pose proof (slices_lengths 5 batch ltac:(lia)) as Hl.
  rewrite Forall_forall in Hl. specialize (Hl b Hb). right.
  rewrite length_map. split; [exact Hl|].
  apply Forall_forall. intros c Hc.
  apply list_elem_of_fmap in Hc as (x & -> & _). reflexivity.
Qed.

Lemma bulk_waves answer j batches :
  Forall (fun b => (1 <= length b <= 100)%nat) batches ->
  Forall well_formed (bulk answer j batches)
  /\ flat_map posted (concat (bulk answer j batches)) = concat batches
  /\ (forall id, id ∈ flat_map named (concat (bulk answer j batches)) ->
                 id ∈ concat batches)
  /\ ((forall i, answer i = response false) ->
      flat_map deleted_singly (concat (bulk answer j batches))
      = concat batches).
Proof.
  intros Hb. revert j. induction Hb as [|b bs Hlen Hbs IH]; intros j.
  - simpl. repeat split; auto.
  - destruct (IH (S j)) as (IH1 & IH2 & IH3 & IH4).
    destruct (fallback_waves b) as (F1 & F2 & F3 & F4).
    cbn [bulk].
    set (fb := match answer j with
               | response false => fallback b
               | _ => []
               end).
    assert (Hfb : Forall well_formed fb
                  /\ flat_map posted (concat fb) = []
                  /\ (forall id, id ∈ flat_map named (concat fb) -> id ∈ b)).
    { unfold fb. destruct (answer j) as [[]|].
      - repeat split; auto. intros id Hid. simpl in Hid.
        apply elem_of_nil in Hid. contradiction.
      - split; [exact F1|]. split; [exact F3|]. intros id. rewrite F2. auto.
      - repeat split; auto. intros id Hid. simpl in Hid.
        apply elem_of_nil in Hid. contradiction. }
    destruct Hfb as (G1 & G2 & G3).
    assert (Hc : concat (([POST_bulk_delete b] :: fb)
                         ++ bulk answer (S j) bs)
                 = POST_bulk_delete b
                   :: concat fb ++ concat (bulk answer (S j) bs)).
    { rewrite <- app_comm_cons, concat_cons, concat_app. reflexivity. }
    rewrite Hc. cbn [flat_map posted named deleted_singly concat].
    rewrite !flat_map_app.
    split; [|split; [|split]].
    + rewrite <- app_comm_cons.
      constructor; [left; exists b; split; [reflexivity | exact Hlen]|].
      apply Forall_app. split; assumption.
    + rewrite G2, IH2. reflexivity.
    + intros id Hid. rewrite !elem_of_app in Hid. rewrite elem_of_app.
      destruct Hid as [Hid|[Hid|Hid]]; [left; exact Hid | left; auto
                                       | right; auto].
    + intros Hall. rewrite (IH4 Hall). unfold fb. rewrite Hall.
      rewrite F4. reflexivity.
Qed.

(** X20. [bulkDeleteFromDiscord] on two ids or more: every request is
    one bulk call of 1 to 100 ids or a wave of at most 5 single
    deletions; the bulk calls carry the ids given, each once and in
    order; no id is named that was not given; and when every bulk call is
    refused, the single deletions of the fallback name the ids given,
    each once and in order.  A list of one id is deleted by one single
    request, and an empty list makes no request. *)
Theorem bulk_delete_names_the_ids_given (answer : nat -> Answer)
    (messageIds : list string) :
  let waves := bulkDeleteFromDiscord answer messageIds in
  Forall well_formed waves
  /\ (forall id, id ∈ flat_map named (concat waves) -> id ∈ messageIds)
  /\ ((2 <= length messageIds)%nat ->
      flat_map posted (concat waves) = messageIds
      /\ ((forall i, answer i = response false) ->
          flat_map deleted_singly (concat waves) = messageIds))
  /\ (forall id, messageIds = [id] -> waves = [[DELETE_message id]])
  /\ (messageIds = [] -> waves = []).
Proof.
  intros waves. subst waves.
  destruct messageIds as [|a [|b rest]].
  - simpl. repeat split; auto; try (intros; simpl in *; lia).
    intros id Hid. discriminate Hid.
  - simpl. split; [|split; [|split; [|split]]].
    + constructor; [|constructor]. right. simpl. split; [lia|].
      constructor; [reflexivity | constructor].
    + intros id Hid. exact Hid.
    + simpl. lia.
    + intros id [= <-]. reflexivity.
    + discriminate.
  - set (ids := a :: b :: rest).
    change (bulkDeleteFromDiscord answer ids)
      with (bulk answer 0 (slices 100 ids)).
    destruct (bulk_waves answer 0 (slices 100 ids)
                (slices_lengths 100 ids ltac:(lia)))
      as (H1 & H2 & H3 & H4).
    rewrite (concat_slices_all 100 ids) in H2, H3, H4 by lia.
    split; [exact H1|]. split; [exact H3|]. split; [|split].
    + intros _. split; [exact H2 | exact H4].
    + intros id Hid. discriminate Hid.
    + discriminate.
Qed.

End BulkDelete.

(** ** The iv and the salt as text *)

Section HexText.

Import Hex.

Lemma byte_hex (b : Byte.byte) :
  exists c1 c2,
    padStart2 (toString16 (value b)) = String c1 (String c2 EmptyString)
    /\ is_line_terminator c1 = false /\ is_line_terminator c2 = false
    /\ is_hex_char c1 = true /\ is_hex_char c2 = true
    /\ to_Uint8 (JS.parseInt (String c1 (String c2 EmptyString)) (Some 16)) = b
    /\ Ascii.eqb c1 "0" && Ascii.eqb c2 "0" = Byte.eqb b Byte.x00.
Proof.
  destruct b; eexists _, _; (split; [vm_compute; reflexivity|]);
    vm_compute; repeat split; reflexivity.
Qed.

Lemma pairs_g (a : list Byte.byte) :
  pairs (g a) = map (fun b => padStart2 (toString16 (value b))) a.
Proof.
  induction a as [|b a IH]; [reflexivity|].
  cbn [g map]. destruct (byte_hex b) as (c1 & c2 & -> & H1 & H2 & _).
  rewrite !append_cons. cbn [pairs]. rewrite H1, H2.
  change (EmptyString +:+ g a) with (g a). rewrite IH. reflexivity.
Qed.

Lemma buffer_of_g (a : list Byte.byte) :
  a <> [] -> buffer_of (g a) = Some a.
Proof.
  intros Hne. unfold buffer_of. rewrite pairs_g.
  destruct a as [|b a]; [congruence|]. cbn [map].
  change (Some (to_Uint8 (JS.parseInt (padStart2 (toString16 (value b)))
                            (Some 16))
                :: map (fun p => to_Uint8 (JS.parseInt p (Some 16)))
                     (map (fun b => padStart2 (toString16 (value b))) a))
          = Some (b :: a)).
  f_equal. rewrite map_map.
  assert (Hb : forall x,
            to_Uint8 (JS.parseInt (padStart2 (toString16 (value x)))
                        (Some 16)) = x).
  { intros x. destruct (byte_hex x) as (c1 & c2 & -> & _ & _ & _ & _ & H & _).
    exact H. }
  rewrite Hb. f_equal. induction a as [|y a IH]; [reflexivity|].
  simpl. rewrite Hb. f_equal. apply IH. discriminate.
Qed.

Lemma g_chars (a : list Byte.byte) :
  String.length (g a) = (2 * length a)%nat
  /\ all_chars is_hex_char (g a) = true
  /\ all_chars (fun c => Ascii.eqb c "0") (g a) = all_zero a.
Proof.
  induction a as [|b a (IH1 & IH2 & IH3)]; [repeat split|].
  cbn [g]. destruct (byte_hex b) as (c1 & c2 & -> & _ & _ & H1 & H2 & _ & Hz).
  rewrite !append_cons. change (EmptyString +:+ g a) with (g a).
  cbn [String.length all_chars all_zero forallb length].
  rewrite IH1, IH2, IH3, H1, H2, <- Hz. split; [lia|]. split; [reflexivity|].
  fold (all_zero a). rewrite andb_assoc. reflexivity.
Qed.

Lemma isAllZeros_g (a : list Byte.byte) :
  a <> [] -> isAllZeros (g a) = all_zero a.
Proof.
  intros Hne. destruct (g_chars a) as (Hlen & _ & Hz).
  unfold isAllZeros. destruct (g a) as [|c s] eqn:Hg; [|exact Hz].
  destruct a; [congruence|]. simpl in Hlen. lia.
Qed.

(** X21. The iv and the salt travel as text.  For the 16 bytes of an
    iv and the 32 bytes of a salt that the client has drawn, the worker
    reads back from the text exactly the bytes drawn; and the text is
    taken for that of an encrypted file exactly when neither the iv nor
    the salt is made of zero bytes only.  The empty texts that [init]
    stores for an upload that is not encrypted are not taken for those
    of an encrypted file. *)
Theorem iv_and_salt_survive_as_text (iv salt : list Byte.byte)
    (fileId name type : string) (file : list Byte.byte) (now : Z) :
  length iv = 16%nat -> length salt = 32%nat ->
  buffer_of (g iv) = Some iv
  /\ buffer_of (g salt) = Some salt
  /\ isFileEncrypted (Some (g iv)) (Some (g salt))
     = negb (all_zero salt) && negb (all_zero iv)
  /\ let row :=
       Upload.pending_row name (Z.of_nat (length file))
         (Client.init_body fileId name type file) now in
     isFileEncrypted (Some (File.iv row)) (Some (File.salt row)) = false.
Proof.
  intros Hiv Hsalt.
  assert (Hne1 : iv <> []) by (intros ->; discriminate).
  assert (Hne2 : salt <> []) by (intros ->; discriminate).
  split; [apply buffer_of_g, Hne1|]. split; [apply buffer_of_g, Hne2|].
  split; [|reflexivity].
  destruct (g_chars iv) as (Hl1 & Hh1 & _).
  destruct (g_chars salt) as (Hl2 & Hh2 & _).
  unfold isFileEncrypted.
  assert (Ht : forall a, a <> [] -> JS.truthy (Some (g a)) = true).
  { intros a Ha. destruct (g_chars a) as (Hl & _).
    destruct (g a); [|reflexivity]. destruct a; [congruence|].
    simpl in Hl. lia. }
  rewrite (Ht iv Hne1), (Ht salt Hne2). cbn [negb orb default].
  unfold isHex, id. rewrite Hl1, Hl2, Hh1, Hh2, Hiv, Hsalt.
  rewrite !isAllZeros_g by assumption.
  destruct (all_zero salt), (all_zero iv); reflexivity.
Qed.

Lemma iv_and_salt_survive_as_text_witness :
  buffer_of (g (replicate 16 Byte.x0a)) = Some (replicate 16 Byte.x0a)
  /\ buffer_of (g (replicate 32 Byte.xff)) = Some (replicate 32 Byte.xff)
  /\ isFileEncrypted (Some (g (replicate 16 Byte.x0a)))
       (Some (g (replicate 32 Byte.xff)))
     = negb (all_zero (replicate 32 Byte.xff))
       && negb (all_zero (replicate 16 Byte.x0a))
  /\ let row :=
       Upload.pending_row "t.txt" (Z.of_nat (length Sample.hello))
         (Client.init_body "f" "t.txt" "text/plain" Sample.hello)
         1700000000 in
     isFileEncrypted (Some (File.iv row)) (Some (File.salt row)) = false.
Proof.
  apply (iv_and_salt_survive_as_text (replicate 16 Byte.x0a)
           (replicate 32 Byte.xff) "f" "t.txt" "text/plain" Sample.hello
           1700000000); reflexivity.
Defined.

End HexText.

(** ** What a read changes *)

Create HintDb writes.

Section ReadsFrame.

Local Open Scope list_scope.

Implicit Types (ws : list UrlWrite) (rows : list Chunk.row).

Lemma writes_within_nil rows : writes_within [] rows.
Proof. intros w Hw. apply elem_of_nil in Hw. contradiction. Qed.

Lemma writes_within_app ws1 ws2 rows :
  writes_within ws1 rows -> writes_within ws2 rows ->
  writes_within (ws1 ++ ws2) rows.
Proof.
  intros H1 H2 w Hw. apply elem_of_app in Hw as [Hw|Hw]; auto.
Qed.

Lemma writes_within_one c u rows :
  c ∈ rows -> writes_within [(Chunk.message_id c, u)] rows.
Proof.
  intros Hc w Hw. apply list_elem_of_singleton in Hw. subst w.
  exists c. split; [exact Hc | reflexivity].
Qed.

Lemma writes_within_weaken ws rows rows' :
  (forall c, c ∈ rows -> c ∈ rows') ->
  writes_within ws rows -> writes_within ws rows'.
Proof.
  intros Hsub Hw w Hin. destruct (Hw w Hin) as (c & Hc & Hm).
  exists c. split; [apply Hsub, Hc | exact Hm].
Qed.

#[local] Hint Resolve writes_within_nil writes_within_app writes_within_one
  : writes.

Lemma refresh_within env k cdnUrl c rows :
  c ∈ rows ->
  writes_within (Download.refresh env k cdnUrl (Chunk.message_id c)).2 rows.
Proof.
  intros Hc. unfold Download.refresh.
  destruct (Net.refreshDiscordUrls env k cdnUrl) as [r0|]; [|auto with writes].
  destruct (JS.truthy r0) eqn:Hr0.
  - simpl. auto with writes.
  - destruct (JS.truthy (Some (Chunk.message_id c))).
    + destruct (Net.getDiscordCDNUrl env k (Chunk.message_id c)) as [u|];
        [|auto with writes].
      simpl. destruct u; auto with writes.
    + simpl. destruct (JS.truthy cdnUrl); auto with writes.
Qed.

Lemma attempts_within env c rows fuel attempt cdnUrl :
  c ∈ rows ->
  writes_within (Download.attempts env c fuel attempt cdnUrl).2 rows.
Proof.
  intros Hc. revert attempt cdnUrl.
  induction fuel as [|fuel IH]; intros attempt cdnUrl;
    [apply writes_within_nil|].
  cbn [Download.attempts].
  destruct (Download.isExpired _ cdnUrl) as [expired|];
    [|apply writes_within_nil].
  set (cond := expired || _).
  assert (Hfirst : writes_within
            (if cond
             then Download.refresh env (S attempt) cdnUrl (Chunk.message_id c)
             else (cdnUrl, [])).2 rows).
  { destruct cond; [apply refresh_within, Hc | apply writes_within_nil]. }
  destruct (if cond then _ else _) as [cdnUrl' ws]. simpl in Hfirst.
  assert (Hagain : writes_within
            (let '(r, ws') := Download.attempts env c fuel (S attempt) cdnUrl'
             in (r, ws ++ ws')).2 rows).
  { specialize (IH (S attempt) cdnUrl').
    destruct (Download.attempts env c fuel (S attempt) cdnUrl') as [r ws'].
    simpl in *. auto with writes. }
  destruct (Net.aborted env (Net.BeforeFetch _ _)); [exact Hfirst|].
  destruct (Net.fetch_url env (S attempt) cdnUrl' None) as [response|];
    repeat match goal with
           | |- writes_within (if ?b then _ else _).2 _ => destruct b
           end;
    first [exact Hfirst | exact Hagain].
Qed.

Lemma fetchChunkData_within env c rows :
  c ∈ rows -> writes_within (Download.fetchChunkData env c).2 rows.
Proof.
  intros Hc. unfold Download.fetchChunkData.
  destruct (Net.aborted env _); [apply writes_within_nil|].
  apply attempts_within, Hc.
Qed.

Lemma start_fetch_within env filteredChunks rows j st :
  (forall c, c ∈ filteredChunks -> c ∈ rows) ->
  writes_within st.2 rows ->
  writes_within (Download.start_fetch env filteredChunks j st).2 rows.
Proof.
  intros Hsub Hst. unfold Download.start_fetch.
  destruct (filteredChunks !! j) as [ch|] eqn:Hj; [|exact Hst].
  pose proof (fetchChunkData_within env ch rows
                (Hsub ch (list_elem_of_lookup_2 _ _ _ Hj))) as Hf.
  destruct (Download.fetchChunkData env ch) as [r w]. simpl in *.
  auto with writes.
Qed.

Lemma initial_window_within env filteredChunks rows :
  (forall c, c ∈ filteredChunks -> c ∈ rows) ->
  writes_within (Download.initial_window env filteredChunks).2 rows.
Proof.
  intros Hsub. unfold Download.initial_window.
  generalize (seq 0 (Nat.min Download.WINDOW_SIZE (length filteredChunks))).
  intros js.
  assert (Hgen : forall st, writes_within st.2 rows ->
    writes_within
      (fold_left (fun st i => Download.start_fetch env filteredChunks i st)
                 js st).2 rows).
  { induction js as [|j js IH]; intros st Hst; [exact Hst|].
    simpl. apply IH. apply start_fetch_within; assumption. }
  apply Hgen. apply writes_within_nil.
Qed.

Lemma pump_within env filteredChunks rows remaining i st written :
  (forall c, c ∈ filteredChunks -> c ∈ rows) ->
  writes_within st.2 rows ->
  writes_within
    (Download.pump env filteredChunks remaining i st written).2 rows.
Proof.
  intros Hsub. revert i st written.
  induction remaining as [|remaining IH]; intros i st written Hst;
    [exact Hst|].
  cbn [Download.pump].
  destruct (Net.aborted env (Net.LoopTop i)); [exact Hst|].
  destruct (st.1 !! i) as [[[currentData|msg]|]|]; try exact Hst.
  set (st1 := (<[i := None]> st.1, st.2)).
  assert (H2 : writes_within
            (if (i + Download.WINDOW_SIZE <? length filteredChunks)%nat
             then Download.start_fetch env filteredChunks
                    (i + Download.WINDOW_SIZE) st1
             else st1).2 rows).
  { destruct (_ <? _)%nat; [|exact Hst].
    apply start_fetch_within; [exact Hsub | exact Hst]. }
  destruct (Net.aborted env (Net.BeforeWrite i)); [exact H2|].
  apply IH. exact H2.
Qed.

Lemma download_within env d fileId index start_chunk inline :
  writes_within (Download.get env d fileId index start_chunk inline).2
    (Db.chunks_of d fileId).
Proof.
  unfold Download.get.
  destruct (Db.get_file d fileId) as [file|]; [|apply writes_within_nil].
  case_decide; [apply writes_within_nil|].
  assert (Hsub : forall c, c ∈ Db.chunks_ordered d fileId ->
                           c ∈ Db.chunks_of d fileId).
  { intros c Hc. unfold Db.chunks_ordered in Hc.
    rewrite merge_sort_Permutation in Hc. exact Hc. }
  destruct index as [chunkIndexStr|].
  - unfold Download.proxy.
    destruct (List.find _ _) as [chunk|] eqn:Hfind;
      [|apply writes_within_nil].
    apply find_some in Hfind as [Hin _]. apply list_elem_of_In in Hin.
    destruct (Download.isExpired _ _) as [expired|];
      [|apply writes_within_nil].
    assert (Hw : writes_within
              (if expired
               then Download.refresh env 0 (Chunk.url chunk)
                      (Chunk.message_id chunk)
               else (Chunk.url chunk, [])).2 (Db.chunks_of d fileId)).
    { destruct expired; [|apply writes_within_nil].
      apply refresh_within, Hsub, Hin. }
    destruct (if expired then _ else _) as [cdnUrl ws]. simpl in Hw.
    destruct (Net.fetch_url env 0 cdnUrl None) as [response|]; [|exact Hw].
    destruct (negb (Net.ok response)); exact Hw.
  - unfold Download.full.
    set (filteredChunks := filter _ (Db.chunks_ordered d fileId)).
    assert (Hf : forall c, c ∈ filteredChunks -> c ∈ Db.chunks_of d fileId).
    { intros c Hc. apply Hsub. unfold filteredChunks in Hc.
      apply list_elem_of_filter in Hc. tauto. }
    pose proof (pump_within env filteredChunks (Db.chunks_of d fileId)
                  (length filteredChunks) 0
                  (Download.initial_window env filteredChunks) [] Hf
                  (initial_window_within env filteredChunks _ Hf)) as Hp.
    destruct (Download.pump _ _ _ _ _ _) as [readable ws]. exact Hp.
Qed.

Lemma locate_in start off chunks chunk o :
  Stream.locate start off chunks = Some (chunk, o) -> chunk ∈ chunks.
Proof.
  revert off. induction chunks as [|c l IH]; intros off; [discriminate|].
  simpl. destruct (_ && _).
  - intros [= <- _]. left.
  - intros H. right. eapply IH, H.
Qed.

Lemma fresh_url_within env c rows :
  c ∈ rows -> writes_within (Stream.fresh_url env c).2 rows.
Proof.
  intros Hc. unfold Stream.fresh_url.
  destruct (_ && _); [|apply writes_within_nil].
  set (cdnUrl1 := if JS.truthy (Chunk.url c) then _ else _).
  destruct (_ || _).
  - destruct (Net.getDiscordCDNUrl env 0 (Chunk.message_id c));
      [simpl; auto with writes|].
    destruct (JS.truthy (Net.BACKUP_CHANNEL env)); [|apply writes_within_nil].
    destruct (Net.getDiscordCDNUrl env 1 (Chunk.message_id c)) as [u|];
      [|apply writes_within_nil].
    simpl. destruct u; auto with writes.
  - simpl. auto with writes.
Qed.

Lemma stream_within env d fileId rangeHeader :
  writes_within (Stream.get env d fileId rangeHeader).2
    (Db.chunks_of d fileId).
Proof.
  unfold Stream.get.
  destruct (Db.get_file d fileId) as [file|]; [|apply writes_within_nil].
  destruct (Stream.parse_range _ _) as [start end_].
  destruct (Stream.locate _ _ _) as [[targetChunk off]|] eqn:Hloc;
    [|apply writes_within_nil].
  apply locate_in in Hloc. unfold Db.chunks_ordered in Hloc.
  rewrite merge_sort_Permutation in Hloc.
  pose proof (fresh_url_within env targetChunk _ Hloc) as Hw.
  destruct (Stream.fresh_url env targetChunk) as [cdnUrl ws]. simpl in Hw.
  destruct (Net.fetch_url _ _ _ _) as [response|]; [|exact Hw].
  destruct (_ && _); exact Hw.
Qed.

Lemma set_url_frame mid u d :
  Db.files (Db.set_url mid u d) = Db.files d
  /\ Db.seq (Db.set_url mid u d) = Db.seq d
  /\ map (Db.with_url None) (Db.chunks (Db.set_url mid u d))
     = map (Db.with_url None) (Db.chunks d).
Proof.
  split; [reflexivity|]. split; [reflexivity|].
  cbn [Db.set_url Db.chunks]. rewrite map_map. apply map_ext.
  intros c. case_decide; reflexivity.
Qed.

Lemma apply_writes_frame ws d :
  Db.files (apply_writes ws d) = Db.files d
  /\ Db.seq (apply_writes ws d) = Db.seq d
  /\ map (Db.with_url None) (Db.chunks (apply_writes ws d))
     = map (Db.with_url None) (Db.chunks d).
Proof.
  unfold apply_writes. revert d.
  induction ws as [|w ws IH]; intros d; [repeat split|].
  simpl. destruct (IH (Db.set_url w.1 w.2 d)) as (H1 & H2 & H3).
  destruct (set_url_frame w.1 w.2 d) as (G1 & G2 & G3).
  rewrite H1, H2, H3. repeat split; assumption.
Qed.

Lemma apply_writes_untouched ws d c :
  c ∈ Db.chunks d ->
  (forall w, w ∈ ws -> w.1 <> Chunk.message_id c) ->
  c ∈ Db.chunks (apply_writes ws d).
Proof.
  unfold apply_writes. revert d.
  induction ws as [|w ws IH]; intros d Hc Hws; [exact Hc|].
  simpl. apply IH.
  - cbn [Db.set_url Db.chunks]. apply list_elem_of_fmap. exists c.
    split; [|exact Hc].
    rewrite decide_False; [reflexivity|].
    intros He. apply (Hws w); [left | symmetry; exact He].
  - intros w' Hw'. apply Hws. right. exact Hw'.
Qed.

(** X22. What a read changes.  The row updates that the stream route
    and the download route issue name message ids of chunk rows of the
    file asked for, and applying them changes addresses only: the file
    rows are as before, the chunk rows are the same rows in the same
    order but for their addresses, and a row whose message id no row of
    the file carries is left as it is. *)
Theorem reads_change_only_addresses (env : Net.Env) (d : Db.t)
    (fileId : string) (rangeHeader index start_chunk inline : option string)
    (ws : list UrlWrite) :
  ws = (Stream.get env d fileId rangeHeader).2
  \/ ws = (Download.get env d fileId index start_chunk inline).2 ->
  writes_within ws (Db.chunks_of d fileId)
  /\ Db.files (apply_writes ws d) = Db.files d
  /\ Db.seq (apply_writes ws d) = Db.seq d
  /\ map (Db.with_url None) (Db.chunks (apply_writes ws d))
     = map (Db.with_url None) (Db.chunks d)
  /\ (forall c, c ∈ Db.chunks d ->
        Chunk.message_id c ∉ map Chunk.message_id (Db.chunks_of d fileId) ->
        c ∈ Db.chunks (apply_writes ws d)).
Proof.
  intros Hws.
  assert (Hw : writes_within ws (Db.chunks_of d fileId)).
  { destruct Hws as [-> | ->];
      [apply stream_within | apply download_within]. }
  split; [exact Hw|].
  destruct (apply_writes_frame ws d) as (H1 & H2 & H3).
  split; [exact H1|]. split; [exact H2|]. split; [exact H3|].
  intros c Hc Hnot. apply apply_writes_untouched; [exact Hc|].
  intros w Hin He. apply Hnot. destruct (Hw w Hin) as (c' & Hc' & Hm).
  apply list_elem_of_fmap. exists c'. split; [congruence | exact Hc'].
Qed.

Lemma reads_change_only_addresses_witness :
  let ws := (Stream.get Sample.refreshing Sample.plain_file "a" None).2 in
  writes_within ws (Db.chunks_of Sample.plain_file "a")
  /\ Db.files (apply_writes ws Sample.plain_file) = Db.files Sample.plain_file
  /\ Db.seq (apply_writes ws Sample.plain_file) = Db.seq Sample.plain_file
  /\ map (Db.with_url None) (Db.chunks (apply_writes ws Sample.plain_file))
     = map (Db.with_url None) (Db.chunks Sample.plain_file)
  /\ (forall c, c ∈ Db.chunks Sample.plain_file ->
        Chunk.message_id c
        ∉ map Chunk.message_id (Db.chunks_of Sample.plain_file "a") ->
        c ∈ Db.chunks (apply_writes ws Sample.plain_file)).
Proof.
  apply (reads_change_only_addresses Sample.refreshing Sample.plain_file "a"
           None None None None).
  left. reflexivity.
Defined.

End ReadsFrame.

(** ** The cache of the health route *)

Section HealthCache.

Import System.



End HealthCache.

(** ** The search pattern *)

Section SearchPattern.

Import Search.

Lemma string_body_double_quotes (query rest : string) :
  match rest with
  | String c _ => Ascii.eqb c quote = false
  | EmptyString => True
  end ->
  string_body (double_quotes query +:+ String quote rest)
  = Some (query, rest).
Proof.
  intros Hrest. induction query as [|c query IH].
  - cbn [double_quotes].
    change (EmptyString +:+ String quote rest) with (String quote rest).
    cbn [string_body]. rewrite Ascii.eqb_refl.
    destruct rest as [|c r]; [reflexivity|]. rewrite Hrest. reflexivity.
  - cbn [double_quotes]. destruct (Ascii.eqb c quote) eqn:Hc.
    + apply Ascii.eqb_eq in Hc. subst c. rewrite !append_cons.
      cbn [string_body]. rewrite Ascii.eqb_refl. rewrite IH. reflexivity.
    + rewrite append_cons. cbn [string_body]. rewrite Hc, IH. reflexivity.
Qed.

(** X24. The text that the search route binds to [MATCH] reads, by
    the string rule of the query syntax, as one string whose text is the
    query as typed, followed by a star: whatever the query holds, quotes
    included, none of it is read as syntax. *)
Theorem search_pattern_is_one_quoted_string (query : string) :
  read_string (pattern query) = Some (query, "*").
Proof.
  unfold read_string, pattern. rewrite Ascii.eqb_refl.
  apply string_body_double_quotes. reflexivity.
Qed.

End SearchPattern.

(** ** One chunk of an uploaded file *)

Section ChunkByIndex.

Lemma find_by_idx (chunks : list Chunk.row) (i : nat) (c : Chunk.row) :
  NoDup (map Chunk.idx chunks) ->
  chunks !! i = Some c ->
  List.find (fun ch => Z.eqb (Chunk.idx ch) (Chunk.idx c)) chunks = Some c.
Proof.
  revert i. induction chunks as [|x l IH]; intros i Hnd Hi; [discriminate|].
  simpl in Hnd. apply NoDup_cons in Hnd as [Hx Hnd].
  destruct i as [|i]; simpl in Hi.
  - injection Hi as ->. simpl. rewrite Z.eqb_refl. reflexivity.
  - simpl. destruct (Z.eqb_spec (Chunk.idx x) (Chunk.idx c)) as [He|_].
    + exfalso. apply Hx. rewrite He. apply list_elem_of_fmap.
      exists c. split; [reflexivity|]. apply list_elem_of_lookup. eauto.
    + apply (IH i Hnd Hi).
Qed.

(** X25. The per-chunk proxy of the download route finds a chunk by
    its [idx].  After an upload of a file that is not encrypted and
    that ran to its end (on a consistent index whose chunk rows for the
    id, if any, are chunks of this file), the row at position [i] of
    the ordered rows is the chunk with index [i], and a request for
    [index=i] is answered from it: with the length of the [i]-th piece
    of the file as [Content-Length] and the body that the store serves
    at the address of the row, when the address has not expired and the
    store answers. *)
Theorem uploaded_chunk_is_served_by_index (cs : Z)
    (fileId name type : string) (file : list Byte.byte) (isLast : bool)
    (channelId : string) (now : Z)
    (events : list (nat * option Upload.DiscordAttachment)) (d d' : Db.t)
    (env : Net.Env) (start_chunk inline : option string) (i : nat)
    (r : Net.Response) :
  0 < cs ->
  sound d ->
  rows_of_file cs fileId file d ->
  Client.processUpload cs fileId name type file isLast channelId now events d
  = (Client.Fulfilled, d') ->
  (i < Client.totalChunks cs file)%nat ->
  exists c,
    Db.chunks_ordered d' fileId !! i = Some c
    /\ Chunk.idx c = Z.of_nat i
    /\ bytes_of cs file c = Client.payload cs file i
    /\ (Download.isExpired (Net.Date_now env 0) (Chunk.url c) = Some false ->
        Net.fetch_url env 0 (Chunk.url c) None = Some r ->
        Net.ok r = true ->
        Download.get env d' fileId (Some (pretty (Z.of_nat i))) start_chunk
          inline
        = ({| status := 200;
              headers :=
                [("Content-Length",
                  pretty (Z.of_nat (length (Client.payload cs file i))));
                 ("Content-Type", "application/octet-stream");
                 ("Cache-Control", "no-cache")];
              body := Bytes (Net.body r) |}, [])).
Proof.
  intros Hcs Hs Hrows Hup Hi.
  destruct (completed_upload cs fileId name type file channelId now Hcs
              isLast events d d' Hs Hrows Hup)
    as (Hget & Hidx & _ & Hall & _).
  set (chunks := Db.chunks_ordered d' fileId) in *.
  assert (Hlen : length chunks = Client.totalChunks cs file).
  { rewrite <- (length_map Chunk.idx chunks), Hidx, length_map, length_seq.
    reflexivity. }
  destruct (lookup_lt_is_Some_2 chunks i ltac:(lia)) as [c Hc].
  assert (Hci : Chunk.idx c = Z.of_nat i).
  { assert (H1 : map Chunk.idx chunks !! i = Some (Chunk.idx c))
      by (rewrite list_lookup_fmap, Hc; reflexivity).
    rewrite Hidx, list_lookup_fmap, lookup_seq_lt in H1 by lia.
    simpl in H1. congruence. }
  assert (Hbytes : bytes_of cs file c = Client.payload cs file i).
  { unfold bytes_of. rewrite Hci, Nat2Z.id. reflexivity. }
  exists c. split; [exact Hc|]. split; [exact Hci|]. split; [exact Hbytes|].
  intros Hexp Hr Hok.
  assert (Hnd : NoDup (map Chunk.idx chunks)).
  { rewrite Hidx. apply NoDup_fmap; [intros x y; lia | apply NoDup_seq]. }
  unfold Download.get. rewrite Hget. fold chunks.
  rewrite decide_False by lia.
  rewrite <- Hci.
  rewrite (proxy_keeps env chunks c r (find_by_idx chunks i c Hnd Hc)
             Hexp Hr Hok).
  unfold Download.proxied. rewrite Forall_forall in Hall.
  destruct (Hall c (list_elem_of_lookup_2 _ _ _ Hc)) as (Hsz & _).
  rewrite Hsz, Hbytes. reflexivity.
Qed.

Lemma uploaded_chunk_is_served_by_index_witness :
  exists c,
    Db.chunks_ordered SampleUpload.resumed "f" !! 1%nat = Some c
    /\ Chunk.idx c = Z.of_nat 1
    /\ bytes_of 6 SampleUpload.file c = Client.payload 6 SampleUpload.file 1
    /\ (Download.isExpired (Net.Date_now SampleUpload.env 0) (Chunk.url c)
        = Some false ->
        Net.fetch_url SampleUpload.env 0 (Chunk.url c) None
        = Some {| Net.status := 200;
                  Net.body := Client.payload 6 SampleUpload.file 1 |} ->
        Net.ok {| Net.status := 200;
                  Net.body := Client.payload 6 SampleUpload.file 1 |} = true ->
        Download.get SampleUpload.env SampleUpload.resumed "f"
          (Some (pretty (Z.of_nat 1))) None None
        = ({| status := 200;
              headers :=
                [("Content-Length",
                  pretty (Z.of_nat
                            (length (Client.payload 6 SampleUpload.file 1))));
                 ("Content-Type", "application/octet-stream");
                 ("Cache-Control", "no-cache")];
              body := Bytes (Client.payload 6 SampleUpload.file 1) |}, [])).
Proof.
  apply (uploaded_chunk_is_served_by_index 6 "f" "t.txt" "text/plain"
           SampleUpload.file true "chan" 1700000100
           [(0%nat, None); (1%nat, Some SampleUpload.att1)]
           SampleUpload.interrupted SampleUpload.resumed SampleUpload.env
           None None 1
           {| Net.status := 200;
              Net.body := Client.payload 6 SampleUpload.file 1 |}).
  - lia.
  - exact interrupted_sound.
  - exact interrupted_rows.
  - vm_compute. reflexivity.
  - vm_compute. lia.
Defined.

End ChunkByIndex.

(** ** The answers of a chunk upload *)

Section ChunkOutcomes.

Variables (fileId : string) (channelId : string).




End ChunkOutcomes.


(** ** Uploading again *)

Section UploadAgain.

(** X27. Discovery after [init] reports the chunk rows that the
    index already held for the id.  Whenever [init] accepts an upload,
    over no row or over a row that is pending or in the trash, every
    chunk row is kept, so that the list of indices that the client asks
    for next names the chunks of the file that was there before, and
    the client skips the tasks of those chunks. *)
Theorem discovery_after_init_reports_kept_rows (d : Db.t)
    (fileId name type : string) (file : list Byte.byte) (now : Z) :
  Client.is_success
    (reply (Upload.init (Client.init_body fileId name type file) now d))
  = true ->
  reply (Upload.chunks fileId
           (db (Upload.init (Client.init_body fileId name type file) now d)))
  = success (indices (map Chunk.idx (Db.chunks_of d fileId)))
  /\ Db.chunks
       (db (Upload.init (Client.init_body fileId name type file) now d))
     = Db.chunks d
  /\ Db.is_pending
       (db (Upload.init (Client.init_body fileId name type file) now d))
       fileId = true.
Proof.
  intros Hok.
  assert (Hch : Db.chunks
                  (db (Upload.init (Client.init_body fileId name type file)
                         now d))
                = Db.chunks d).
  { destruct (init_success_inputs fileId name type file now d Hok)
      as (Hid & Hnm & Hact).
    destruct (Db.get_file d fileId) as [existing|] eqn:He.
    - rewrite (init_replaces _ now d fileId name (Z.of_nat (length file))
                 existing) by (try reflexivity; auto).
      reflexivity.
    - rewrite init_fresh by assumption. reflexivity. }
  split; [|split; [exact Hch | apply init_success_pending, Hok]].
  unfold Upload.chunks, Db.chunks_of. cbn [reply]. rewrite Hch. reflexivity.
Qed.

Lemma discovery_after_init_reports_kept_rows_witness :
  reply (Upload.chunks "a"
           (db (Upload.init
                  (Client.init_body "a" "t.txt" "text/plain" Sample.hello)
                  1700000000 (Sample.one_file File.pending))))
  = success (indices [0])
  /\ Db.chunks
       (db (Upload.init
              (Client.init_body "a" "t.txt" "text/plain" Sample.hello)
              1700000000 (Sample.one_file File.pending)))
     = Db.chunks (Sample.one_file File.pending)
  /\ Db.is_pending
       (db (Upload.init
              (Client.init_body "a" "t.txt" "text/plain" Sample.hello)
              1700000000 (Sample.one_file File.pending)))
       "a" = true.
Proof.
  apply (discovery_after_init_reports_kept_rows (Sample.one_file File.pending)
           "a" "t.txt" "text/plain" Sample.hello 1700000000).
  vm_compute. reflexivity.
Defined.

(** X28. An upload that ran to its end cannot be run again: the file
    is active, [init] refuses the id with 409, and a second upload of the
    file is rejected before it sends a chunk, with the index as the first
    one left it. *)
Theorem completed_upload_cannot_be_repeated (cs : Z)
    (fileId name type : string) (file : list Byte.byte)
    (isLast isLast' : bool) (channelId : string) (now now' : Z)
    (events events' : list (nat * option Upload.DiscordAttachment))
    (d d' : Db.t) :
  0 < cs ->
  sound d ->
  Client.processUpload cs fileId name type file isLast channelId now events d
  = (Client.Fulfilled, d') ->
  status_of (reply (Upload.init (Client.init_body fileId name type file)
                      now' d')) = 409
  /\ Client.processUpload cs fileId name type file isLast' channelId now'
       events' d'
     = (Client.Rejected, d').
Proof.
  intros Hcs Hs Hup.
  pose proof (fulfilled_active cs fileId name type file channelId now isLast
                events d d' Hup) as Hget.
  destruct (init_success_inputs fileId name type file now d) as (Hid & Hnm & _).
  { unfold Client.processUpload in Hup.
    destruct (Client.is_success _); [reflexivity | discriminate]. }
  assert (Hinit :
    Upload.init (Client.init_body fileId name type file) now' d'
    = {| reply := error "File ID already exists and is active" 409;
         db := d'; tasks := [] |}).
  { unfold Upload.init. cbn [Upload.id Upload.name Upload.size
                             Client.init_body].
    destruct fileId as [|a s]; [congruence|].
    destruct name as [|b m]; [congruence|].
    rewrite Hget. rewrite decide_True by reflexivity. reflexivity. }
  unfold Client.processUpload. rewrite Hinit. split; reflexivity.
Qed.

Lemma completed_upload_cannot_be_repeated_witness :
  status_of (reply (Upload.init
                      (Client.init_body "f" "t.txt" "text/plain"
                         SampleUpload.file)
                      1700000100 SampleUpload.uploaded)) = 409
  /\ Client.processUpload 6 "f" "t.txt" "text/plain" SampleUpload.file false
       "chan" 1700000100 SampleUpload.events SampleUpload.uploaded
     = (Client.Rejected, SampleUpload.uploaded).
Proof.
  apply (completed_upload_cannot_be_repeated 6 "f" "t.txt" "text/plain"
           SampleUpload.file true false "chan" 1700000000 1700000100
           SampleUpload.events SampleUpload.events Db.empty
           SampleUpload.uploaded).
  - lia.
  - exact sound_empty.
  - vm_compute. reflexivity.
Defined.

End UploadAgain.

(** ** Deleting for good *)

Section DeleteForGood.

(** X29. Two deletions end the life of a file row, and leave its
    chunk rows.  The first [DELETE /:id] of an active file moves it to
    the trash and schedules no deletion of a message; the second
    removes the file row and hands the message id of every chunk row of
    the file to the clean-up, each once, while the chunk rows of the
    file stay in the index; a third is answered 404 and changes
    nothing.  The rows of other files are left as they are throughout,
    and so is every chunk row. *)
Theorem two_deletions_remove_the_file_row (d : Db.t) (fileId : string)
    (row : File.row) :
  Db.get_file d fileId = Some row ->
  File.status row = File.active ->
  let o1 := Files.delete fileId d in
  let o2 := Files.delete fileId (db o1) in
  let o3 := Files.delete fileId (db o2) in
  reply o1 = success (message "File moved to trash")
  /\ reply o2 = success (message "File permanently deleted")
  /\ status_of (reply o3) = 404
  /\ Db.get_file (db o2) fileId = None
  /\ Db.chunks (db o2) = Db.chunks d
  /\ scheduled (tasks o1 ++ tasks o2 ++ tasks o3)
     = map Chunk.message_id (Db.chunks_of d fileId)
  /\ db o3 = db o2
  /\ (forall k, k <> fileId -> Db.files (db o2) !! k = Db.files d !! k).
Proof.
  intros Hr Hst o1 o2 o3.
  assert (H1 : o1 = {| reply := success (message "File moved to trash");
                       db := Db.set_status fileId File.trashed d;
                       tasks := [backupDatabase] |}).
  { unfold o1, Files.delete. rewrite Hr, decide_True by exact Hst.
    reflexivity. }
  set (d1 := Db.set_status fileId File.trashed d) in *.
  assert (Hget1 : Db.get_file d1 fileId
                  = Some (Db.with_status File.trashed row)).
  { unfold d1. rewrite get_file_set_status, Hr. reflexivity. }
  assert (H2 : o2 = {| reply := success (message "File permanently deleted");
                       db := Db.delete_files (Upload.same_id fileId) d1;
                       tasks :=
                         [bulkDeleteFromDiscord
                            (map Chunk.message_id (Db.chunks_of d fileId));
                          backupDatabase] |}).
  { unfold o2. rewrite H1. cbn [db]. unfold Files.delete. rewrite Hget1.
    rewrite decide_False by discriminate. reflexivity. }
  set (d2 := Db.delete_files (Upload.same_id fileId) d1) in *.
  assert (Hget2 : Db.get_file d2 fileId = None).
  { unfold Db.get_file, d2. rewrite files_delete_same_id.
    apply lookup_delete_eq. }
  assert (H3 : o3 = {| reply := error "File not found" 404; db := d2;
                       tasks := [] |}).
  { unfold o3. rewrite H2. cbn [db]. unfold Files.delete. rewrite Hget2.
    reflexivity. }
  rewrite H1, H2, H3. cbn [reply db tasks status_of].
  split; [reflexivity|]. split; [reflexivity|]. split; [reflexivity|].
  split; [exact Hget2|].
  split; [reflexivity|].
  split; [cbn; rewrite app_nil_r; reflexivity|].
  split; [reflexivity|].
  intros k Hk.
  unfold d2. rewrite files_delete_same_id.
  rewrite lookup_delete_ne by congruence.
  unfold d1. cbn [Db.set_status Db.files].
  rewrite lookup_alter, decide_False by congruence. reflexivity.
Qed.

Lemma two_deletions_remove_the_file_row_witness :
  let o1 := Files.delete "a" Sample.two_chunks in
  let o2 := Files.delete "a" (db o1) in
  let o3 := Files.delete "a" (db o2) in
  reply o1 = success (message "File moved to trash")
  /\ reply o2 = success (message "File permanently deleted")
  /\ status_of (reply o3) = 404
  /\ Db.get_file (db o2) "a" = None
  /\ Db.chunks (db o2) = Db.chunks Sample.two_chunks
  /\ scheduled (tasks o1 ++ tasks o2 ++ tasks o3)
     = map Chunk.message_id (Db.chunks_of Sample.two_chunks "a")
  /\ db o3 = db o2
  /\ (forall k, k <> "a" ->
        Db.files (db o2) !! k = Db.files Sample.two_chunks !! k).
Proof.
  apply (two_deletions_remove_the_file_row Sample.two_chunks "a"
           (Sample.row "t.txt" 12 File.active)); reflexivity.
Defined.

Lemma no_trash_ids d :
  (forall k, Files.is_trashed d k = false) ->
  map fst (filter (fun kv => File.status kv.2 = File.trashed)
                  (map_to_list (Db.files d))) = [].
Proof.
  intros Hnone.
  destruct (map fst (filter _ (map_to_list (Db.files d)))) as [|k l] eqn:He;
    [reflexivity|].
  assert (Hin : k ∈ map fst (filter (fun kv => File.status kv.2 = File.trashed)
                                    (map_to_list (Db.files d))))
    by (rewrite He; left).
  apply in_trash_ids in Hin. rewrite Hnone in Hin. discriminate.
Qed.

(** X30. The two clean-up routes finish their work at once.  After
    [DELETE /file/pending/all] no file is pending and after [DELETE
    /trash] no file is in the trash; a second call of either finds
    nothing, leaves the index as it is, schedules nothing and counts 0. *)
Theorem clean_up_is_done_at_once (d : Db.t) :
  let p1 := Upload.purge_pending d in
  let p2 := Upload.purge_pending (db p1) in
  let t1 := Files.empty_trash d in
  let t2 := Files.empty_trash (db t1) in
  (forall k, Db.is_pending (db p1) k = false)
  /\ Db.chunks (db p2) = Db.chunks (db p1)
  /\ Db.files (db p2) = Db.files (db p1)
  /\ tasks p2 = [] /\ reply p2 = success (purgedCount 0)
  /\ (forall k, Files.is_trashed (db t1) k = false)
  /\ t2 = {| reply := success (deletedCount "Trash is already empty" 0);
             db := db t1; tasks := [] |}.
Proof.
  intros p1 p2 t1 t2.
  assert (Hp : forall k, Db.is_pending (db p1) k = false).
  { intros k. unfold Db.is_pending, p1, Upload.purge_pending. cbn [db].
    rewrite (lookup_delete_files Upload.is_pending_row _ k).
    cbn [Db.delete_chunks Db.files].
    destruct (Db.files d !! k) as [r|]; [|reflexivity].
    unfold Upload.is_pending_row.
    destruct (bool_decide (File.status r = File.pending)) eqn:Hb;
      [reflexivity | exact Hb]. }
  assert (Ht : forall k, Files.is_trashed (db t1) k = false).
  { intros k. unfold t1, Files.empty_trash.
    case_decide as Hlen.
    - cbn [db]. apply length_zero_iff_nil in Hlen.
      destruct (Files.is_trashed d k) eqn:Hk; [|reflexivity].
      apply trashed_in_ids in Hk. rewrite Hlen in Hk.
      apply elem_of_nil in Hk. contradiction.
    - unfold Files.is_trashed. cbn [db Db.delete_chunks Db.files].
      match goal with
      | |- context [Db.delete_files ?P d] =>
          rewrite (lookup_delete_files P d k)
      end.
      destruct (Db.files d !! k) as [r|] eqn:Hr; [|reflexivity].
      case_bool_decide as Hin; [reflexivity|].
      apply bool_decide_eq_false_2. intros Hst. apply Hin.
      apply trashed_in_ids. unfold Files.is_trashed. rewrite Hr.
      apply bool_decide_eq_true_2. exact Hst. }
  split; [exact Hp|].
  assert (Hnone : forall c, c ∈ Db.chunks (db p1) ->
            Db.is_pending (db p1) (Chunk.file_id c) = false)
    by (intros; apply Hp).
  split; [|split; [|split; [|split; [|split]]]].
  - unfold p2, Upload.purge_pending. cbn [db Db.delete_files Db.delete_chunks
                                          Db.chunks Db.files].
    apply filter_all. intros c Hc. apply Hp.
  - unfold p2, Upload.purge_pending. cbn [db Db.delete_files Db.delete_chunks
                                          Db.files].
    apply map_eq. intros k. rewrite map_lookup_filter.
    destruct (Db.files (db p1) !! k) as [r|] eqn:Hr; [|reflexivity].
    simpl. rewrite option_guard_True; [reflexivity|].
    specialize (Hp k). unfold Db.is_pending in Hp. rewrite Hr in Hp.
    exact Hp.
  - unfold p2, Upload.purge_pending. cbn [tasks].
    rewrite (filter_none _ (Db.chunks (db p1)))
      by (intros c Hc; rewrite Hp; discriminate).
    reflexivity.
  - unfold p2, Upload.purge_pending. cbn [reply].
    rewrite (filter_none _ (Db.chunks (db p1)))
      by (intros c Hc; rewrite Hp; discriminate).
    reflexivity.
  - exact Ht.
  - unfold t2, Files.empty_trash. rewrite (no_trash_ids _ Ht).
    rewrite decide_True by reflexivity. reflexivity.
Qed.

End DeleteForGood.
